(** * AetherIQ: workflow engine, retry controller, failover and analytics intake

    A shallow embedding of the scheduling and recovery code of the AetherIQ
    platform, with the properties its specification states about it.

    - [Workflow]      : [aetheriq/core/workflow.py]   (class [WorkflowEngine])
    - [ErrorHandling] : [app/services/error_handler.py] (class [ErrorHandler])
    - [Failover]      : [app/services/failover.py]    (class [FailoverManager])
    - [Analytics]     : [aetheriq/core/analytics.py]  (class [AnalyticsEngine]),
                        with [get_multi] and [bulk_delete] of
                        [aetheriq/crud/base.py] on the analytics table

    Python dictionaries keyed by strings are [gmap string _], Python sets of
    strings are [gset string], Python [int]s are [Z] and Python [float]s
    (delays, back-off factors, node loads) are rationals.  Wall-clock
    readings, generated identifiers and the relational store enter as
    arguments. *)

From Stdlib Require Import ZArith QArith Bool Lia.
From stdpp Require Import gmap strings list fin_maps pretty.

Set Warnings "-clear-no-such-hyp".

#[local] Open Scope string_scope.
#[local] Open Scope list_scope.

(** ** Python values shared by the modules *)

(** The Python values that travel through the code as dictionary entries. *)
#[warnings="-register-all"] Inductive PyValue : Type :=
  | PyNone
  | PyInt (z : Z)
  | PyStr (s : string)
  | PyList (l : list PyValue)
  | PyDict (d : gmap string PyValue).

(** A [Dict[str, Any]] (task [config] and [result], workflow [metadata],
    checkpoint data, analytics payloads). *)
Definition Dict : Type := gmap string PyValue.

(** [len(v)]: defined on strings, lists and dictionaries; [TypeError] (here
    [None]) on the others. *)
Definition py_len (v : PyValue) : option nat :=
  match v with
  | PyStr s => Some (String.length s)
  | PyList l => Some (length l)
  | PyDict d => Some (size d)
  | PyNone | PyInt _ => None
  end.

(** A raised Python exception: the name of its class and [str(e)]. *)
Record Exception : Type := mkException {
  exc_type : string;
  exc_str : string
}.

(* ===================================================================== *)
(** * The workflow engine ([aetheriq/core/workflow.py])                  *)
(* ===================================================================== *)

Module WorkflowStatus.

Inductive t : Type := PENDING | RUNNING | COMPLETED | FAILED | CANCELLED | PAUSED.

#[global] Instance eq_dec : EqDecision t.
Proof. solve_decision. Defined.

End WorkflowStatus.

Module TaskStatus.

Inductive t : Type := PENDING | RUNNING | COMPLETED | FAILED | SKIPPED.

#[global] Instance eq_dec : EqDecision t.
Proof. solve_decision. Defined.

End TaskStatus.

Module Workflow.

(** What [task.result] can hold: the dictionary a handler returned or, since
    the scheduler loop stores whatever [asyncio.gather] hands back that is no
    instance of [Exception], an [asyncio.CancelledError] object. *)
Inductive TaskResult : Type :=
  | ResultDict (r : Dict)
  | ResultCancelledError.

(** The dataclass [WorkflowTask].  [start_time] and [end_time] are wall-clock
    stamps that nothing in the scheduler reads; they are left out. *)
Record WorkflowTask : Type := mkTask {
  task_id : string;
  task_name : string;
  task_type : string;
  task_config : Dict;
  task_dependencies : list string;
  task_timeout : Z;
  task_retries : Z;
  task_status : TaskStatus.t;
  task_result : option TaskResult;
  task_error : option string;
  task_retry_count : Z
}.

(** The stored workflow ([workflow.id], [.name], [.status], [.tasks],
    [.metadata]) as the engine reads and writes it. *)
Record WorkflowModel : Type := mkWorkflow {
  wf_id : string;
  wf_name : string;
  wf_status : WorkflowStatus.t;
  wf_tasks : list WorkflowTask;
  wf_metadata : Dict
}.

Definition set_task_status (s : TaskStatus.t) (t : WorkflowTask) : WorkflowTask :=
  {| task_id := task_id t; task_name := task_name t; task_type := task_type t;
     task_config := task_config t; task_dependencies := task_dependencies t;
     task_timeout := task_timeout t; task_retries := task_retries t;
     task_status := s; task_result := task_result t; task_error := task_error t;
     task_retry_count := task_retry_count t |}.

Definition set_task_result (r : TaskResult) (t : WorkflowTask) : WorkflowTask :=
  {| task_id := task_id t; task_name := task_name t; task_type := task_type t;
     task_config := task_config t; task_dependencies := task_dependencies t;
     task_timeout := task_timeout t; task_retries := task_retries t;
     task_status := task_status t; task_result := Some r; task_error := task_error t;
     task_retry_count := task_retry_count t |}.

Definition set_task_error (e : string) (t : WorkflowTask) : WorkflowTask :=
  {| task_id := task_id t; task_name := task_name t; task_type := task_type t;
     task_config := task_config t; task_dependencies := task_dependencies t;
     task_timeout := task_timeout t; task_retries := task_retries t;
     task_status := task_status t; task_result := task_result t; task_error := Some e;
     task_retry_count := task_retry_count t |}.

Definition set_wf_status (s : WorkflowStatus.t) (w : WorkflowModel) : WorkflowModel :=
  {| wf_id := wf_id w; wf_name := wf_name w; wf_status := s;
     wf_tasks := wf_tasks w; wf_metadata := wf_metadata w |}.

Definition set_wf_tasks (ts : list WorkflowTask) (w : WorkflowModel) : WorkflowModel :=
  {| wf_id := wf_id w; wf_name := wf_name w; wf_status := wf_status w;
     wf_tasks := ts; wf_metadata := wf_metadata w |}.

(** What the coroutine [handler(task.config)] can do once it is given time
    to run: return a result, still be running when the timeout expires, raise
    an instance of [Exception], or raise [asyncio.CancelledError], which
    derives from [BaseException] and not from [Exception]. *)
Inductive HandlerOutcome : Type :=
  | Returned (r : Dict)
  | TimedOut
  | Raised (e : Exception)
  | Cancelled.

Definition Handler : Type := Dict -> HandlerOutcome.

(** [self.task_registry]: task type name to handler. *)
Definition TaskRegistry : Type := gmap string Handler.

(** [await asyncio.wait_for(handler(task.config), timeout=task.timeout)].
    With a timeout of zero or less [wait_for] cancels the coroutine before it
    has run a single step and raises [TimeoutError]; with a positive one the
    coroutine decides. *)
Definition wait_for (handler : Handler) (config : Dict) (timeout : Z) : HandlerOutcome :=
  if (timeout <=? 0)%Z then TimedOut else handler config.

(** ** [_execute_task]

    Returns the mutated task together with what the coroutine yields to
    [asyncio.gather(..., return_exceptions=True)]: on the left what is no
    instance of [Exception], the value returned or the [CancelledError] that
    passed both [except] clauses and left the task RUNNING; on the right the
    exception the coroutine re-raised. *)
Definition _execute_task (registry : TaskRegistry) (task : WorkflowTask)
  : WorkflowTask * (TaskResult + Exception) :=
  let task := set_task_status TaskStatus.RUNNING task in
  match registry !! task_type task with
  | None =>
      let e := mkException "ValueError"
                 ("No handler registered for task type: " +:+ task_type task) in
      (set_task_error (exc_str e) (set_task_status TaskStatus.FAILED task), inr e)
  | Some handler =>
      match wait_for handler (task_config task) (task_timeout task) with
      | Returned r =>
          (set_task_result (ResultDict r) (set_task_status TaskStatus.COMPLETED task),
           inl (ResultDict r))
      | TimedOut =>
          (set_task_error "Task execution timed out"
             (set_task_status TaskStatus.FAILED task),
           inr (mkException "TimeoutError" ""))
      | Raised e =>
          (set_task_error (exc_str e) (set_task_status TaskStatus.FAILED task), inr e)
      | Cancelled => (task, inl ResultCancelledError)
      end
  end.

(** The "Process results" step of the scheduler loop for one ready task:
    [isinstance(result, Exception)] decides. *)
Definition process_result (tr : WorkflowTask * (TaskResult + Exception)) : WorkflowTask :=
  match tr with
  | (task, inr e) => set_task_error (exc_str e) (set_task_status TaskStatus.FAILED task)
  | (task, inl r) => set_task_result r (set_task_status TaskStatus.COMPLETED task)
  end.

(** The cases of [_execute_task]: no handler, a timeout that leaves the
    handler no time, and whatever the handler does. *)
Ltac execute_cases registry task :=
  unfold _execute_task, wait_for; cbn;
  destruct (registry !! task_type task) as [?handler|]; [|by auto];
  destruct (task_timeout task <=? 0)%Z; [by auto|];
  destruct (handler (task_config task)); by auto.

(** The filter of the list comprehension that computes [ready_tasks]. *)
Definition is_ready (completed_tasks : gset string) (task : WorkflowTask) : bool :=
  bool_decide (task_id task ∉ completed_tasks)
  && forallb (fun dep => bool_decide (dep ∈ completed_tasks)) (task_dependencies task).

Definition ready_tasks (completed_tasks : gset string) (tasks : list WorkflowTask)
  : list WorkflowTask :=
  List.filter (is_ready completed_tasks) tasks.

(** One iteration of the loop body once [ready_tasks] is not empty: every
    ready task is executed and its result processed in place; the others are
    untouched.  The tasks are mutated objects of [workflow.tasks], so the
    update is positional. *)
Definition run_ready (registry : TaskRegistry) (completed_tasks : gset string)
    (tasks : list WorkflowTask) : list WorkflowTask :=
  List.map (fun task =>
              if is_ready completed_tasks task
              then process_result (_execute_task registry task)
              else task) tasks.

(** [completed_tasks.add(task.id)] for every ready task. *)
Definition add_ready (completed_tasks : gset string) (ready : list WorkflowTask)
  : gset string :=
  completed_tasks ∪ list_to_set (List.map task_id ready).

(** One dispatch round as an observer sees it: [workflow.tasks] at the moment
    the ready set was computed, and the tasks handed to [_execute_task]. *)
Record Round : Type := mkRound {
  round_snapshot : list WorkflowTask;
  round_dispatched : list WorkflowTask
}.

(** The [while len(completed_tasks) < len(workflow.tasks)] loop.  [fuel]
    bounds the number of iterations; [None] means the bound was hit (see
    [scheduler_loop_terminates]: it never is with [S (length tasks)]). *)
Fixpoint scheduler_loop (fuel : nat) (registry : TaskRegistry)
    (completed_tasks : gset string) (tasks : list WorkflowTask) (trace : list Round)
  : option (list WorkflowTask * gset string * list Round) :=
  match fuel with
  | O => None
  | S fuel' =>
      if bool_decide (size completed_tasks < length tasks)%nat then
        match ready_tasks completed_tasks tasks with
        | [] => Some (tasks, completed_tasks, trace)
        | ready =>
            scheduler_loop fuel' registry
              (add_ready completed_tasks ready)
              (run_ready registry completed_tasks tasks)
              (trace ++ [mkRound tasks ready])
        end
      else Some (tasks, completed_tasks, trace)
  end.

Definition any_failed (tasks : list WorkflowTask) : bool :=
  existsb (fun task => bool_decide (task_status task = TaskStatus.FAILED)) tasks.

(** The try block of [_execute_workflow_tasks] on the in-memory workflow
    object: status RUNNING, the scheduler loop from an empty [completed_tasks],
    then the final status.  [_build_task_graph] only fills a dictionary that is
    never read.  The result is the workflow as the block leaves it and the
    dispatch rounds it went through. *)
Definition run_workflow (registry : TaskRegistry) (workflow : WorkflowModel)
  : option (WorkflowModel * list Round) :=
  let workflow := set_wf_status WorkflowStatus.RUNNING workflow in
  match scheduler_loop (S (length (wf_tasks workflow))) registry ∅ (wf_tasks workflow) [] with
  | None => None
  | Some (tasks, _, trace) =>
      let final_status :=
        if any_failed tasks then WorkflowStatus.FAILED else WorkflowStatus.COMPLETED in
      Some (set_wf_status final_status (set_wf_tasks tasks workflow), trace)
  end.

(** ** The engine object *)

(** [WorkflowEngine]: the three configuration values, the keys of the
    [active_workflows] dictionary, the task registry, the workflow table
    behind [self.crud] (primary key [id]) and the number of [uuid4()] calls
    made so far. *)
Record WorkflowEngine : Type := mkEngine {
  max_concurrent_workflows : Z;
  max_task_retries : Z;
  default_task_timeout : Z;  (* self.task_timeout *)
  active_workflows : gset string;
  task_registry : TaskRegistry;
  db : gmap string WorkflowModel;
  uuid_calls : nat
}.

Definition set_db (d : gmap string WorkflowModel) (e : WorkflowEngine) : WorkflowEngine :=
  {| max_concurrent_workflows := max_concurrent_workflows e;
     max_task_retries := max_task_retries e; default_task_timeout := default_task_timeout e;
     active_workflows := active_workflows e; task_registry := task_registry e;
     db := d; uuid_calls := uuid_calls e |}.

Definition set_active (a : gset string) (e : WorkflowEngine) : WorkflowEngine :=
  {| max_concurrent_workflows := max_concurrent_workflows e;
     max_task_retries := max_task_retries e; default_task_timeout := default_task_timeout e;
     active_workflows := a; task_registry := task_registry e;
     db := db e; uuid_calls := uuid_calls e |}.

Definition set_uuid_calls (n : nat) (e : WorkflowEngine) : WorkflowEngine :=
  {| max_concurrent_workflows := max_concurrent_workflows e;
     max_task_retries := max_task_retries e; default_task_timeout := default_task_timeout e;
     active_workflows := active_workflows e; task_registry := task_registry e;
     db := db e; uuid_calls := n |}.

(** The three handlers of [_register_default_tasks]. *)
Definition _system_check_task : Handler :=
  fun _ => Returned {[ "status" := PyStr "healthy" ]}.
Definition _data_backup_task : Handler :=
  fun _ => Returned {[ "status" := PyStr "backup_completed" ]}.
Definition _log_cleanup_task : Handler :=
  fun _ => Returned {[ "status" := PyStr "cleanup_completed" ]}.

Definition default_tasks : TaskRegistry :=
  {[ "system_check" := _system_check_task;
     "data_backup" := _data_backup_task;
     "log_cleanup" := _log_cleanup_task ]}.

(** [__init__] followed by [_register_default_tasks]: the configuration
    defaults are 10 concurrent workflows, 3 retries, 300 seconds. *)
Definition __init__ (config : gmap string Z) : WorkflowEngine :=
  {| max_concurrent_workflows := default 10%Z (config !! "max_concurrent_workflows");
     max_task_retries := default 3%Z (config !! "max_task_retries");
     default_task_timeout := default 300%Z (config !! "task_timeout_seconds");
     active_workflows := ∅;
     task_registry := default_tasks;
     db := ∅;
     uuid_calls := 0 |}.

(** [fastapi.HTTPException(status_code, detail)]. *)
Record HTTPException : Type := mkHTTPException {
  status_code : Z;
  detail : string
}.

(** The dictionaries the public methods return. *)
Record Response : Type := mkResponse {
  resp_status : string;
  resp_message : string;
  resp_workflow_id : option string
}.

(** One element of the [tasks] argument of [create_workflow]: the keys the
    method reads from the dictionary, absent ones as [None]. *)
Record TaskData : Type := mkTaskData {
  td_name : option string;
  td_type : option string;
  td_config : option Dict;
  td_dependencies : option (list string);
  td_timeout : option Z;
  td_retries : option Z
}.

(** An instance of the schema [WorkflowCreate] of
    [aetheriq/schemas/base.py]: the fields [WorkflowBase] declares. *)
Record WorkflowSchema : Type := mkWorkflowSchema {
  schema_name : string;
  schema_description : option string;
  schema_template_id : string;
  schema_parameters : option Dict;
  schema_priority : Z
}.

Section Ports.

(** [str(uuid4())]: the n-th identifier drawn by the process. *)
Variable uuid4 : nat -> string.

(** [str(e)] of the [ValidationError] pydantic raises for the keyword
    arguments given; the text quotes them. *)
Variable validation_message : WorkflowModel -> string.

(** The persistence port behind [crud.create]: the workflow table after the
    insert, or the exception raised. *)
Variable crud_create :
  WorkflowSchema -> gmap string WorkflowModel -> Exception + gmap string WorkflowModel.

(** [WorkflowCreate(...)]: [WorkflowBase] declares [name: str] and
    [template_id: str] without a default, so a call that passes no
    [template_id] raises [ValidationError].  The keywords the schema does
    not declare ([id], [status], [tasks], [metadata], [created_at]) are
    ignored. *)
Definition WorkflowCreate (template_id : option string) (kwargs : WorkflowModel)
  : Exception + WorkflowSchema :=
  match template_id with
  | None => inl (mkException "ValidationError" (validation_message kwargs))
  | Some template_id => inr (mkWorkflowSchema (wf_name kwargs) None template_id None 0)
  end.

(** The body of the [for task_data in tasks] loop.  Keyword arguments are
    evaluated in order, so [uuid4()] is called before [task_data["name"]] can
    raise [KeyError]. *)
Definition make_task (e : WorkflowEngine) (calls : nat) (task_data : TaskData)
  : Exception + WorkflowTask :=
  match td_name task_data, td_type task_data with
  | None, _ => inl (mkException "KeyError" "'name'")
  | Some _, None => inl (mkException "KeyError" "'type'")
  | Some n, Some ty =>
      inr {| task_id := uuid4 calls;
             task_name := n;
             task_type := ty;
             task_config := default ∅ (td_config task_data);
             task_dependencies := default [] (td_dependencies task_data);
             task_timeout := default (default_task_timeout e) (td_timeout task_data);
             task_retries := default (max_task_retries e) (td_retries task_data);
             task_status := TaskStatus.PENDING;
             task_result := None;
             task_error := None;
             task_retry_count := 0 |}
  end.

(** The whole loop: the tasks built so far are [workflow_tasks]; the result
    carries the number of [uuid4()] calls made when the loop stops. *)
Fixpoint make_tasks (e : WorkflowEngine) (calls : nat) (tasks : list TaskData)
    (workflow_tasks : list WorkflowTask) : (Exception + list WorkflowTask) * nat :=
  match tasks with
  | [] => (inr workflow_tasks, calls)
  | task_data :: rest =>
      match make_task e calls task_data with
      | inl exn => (inl exn, S calls)
      | inr task => make_tasks e (S calls) rest (workflow_tasks ++ [task])
      end
  end.

(** ** [create_workflow]

    The call [WorkflowCreate(id=..., name=..., status=..., tasks=...,
    metadata=..., created_at=...)] passes no [template_id]. *)
Definition create_workflow (e : WorkflowEngine) (name : string)
    (tasks : list TaskData) (metadata : option Dict)
  : (HTTPException + Response) * WorkflowEngine :=
  let workflow_id := uuid4 (uuid_calls e) in
  let failed (exn : Exception) :=
    mkHTTPException 500 ("Failed to create workflow: " +:+ exc_str exn) in
  match make_tasks e (S (uuid_calls e)) tasks [] with
  | (inl exn, calls) => (inl (failed exn), set_uuid_calls calls e)
  | (inr workflow_tasks, calls) =>
      let kwargs :=
        {| wf_id := workflow_id; wf_name := name;
           wf_status := WorkflowStatus.PENDING;
           wf_tasks := workflow_tasks;
           wf_metadata := default ∅ metadata |} in
      match WorkflowCreate None kwargs with
      | inl exn => (inl (failed exn), set_uuid_calls calls e)
      | inr workflow =>
          match crud_create workflow (db e) with
          | inl exn => (inl (failed exn), set_uuid_calls calls e)
          | inr table =>
              (inr (mkResponse "success" "Workflow created successfully"
                      (Some workflow_id)),
               set_db table (set_uuid_calls calls e))
          end
      end
  end.

End Ports.

(** ** [execute_workflow]

    Besides the response and the engine, the result carries the workflow
    handed to the coroutine [asyncio.create_task] schedules, if any. *)
Definition execute_workflow (e : WorkflowEngine) (workflow_id : string)
  : (HTTPException + Response) * WorkflowEngine * option WorkflowModel :=
  match db e !! workflow_id with
  | None =>
      (inl (mkHTTPException 500
              ("Failed to execute workflow: Workflow " +:+ workflow_id +:+ " not found")),
       e, None)
  | Some workflow =>
      if (max_concurrent_workflows e <=? Z.of_nat (size (active_workflows e)))%Z then
        (inr (mkResponse "error" "Maximum concurrent workflows reached" None), e, None)
      else
        (inr (mkResponse "success" "Workflow execution started" (Some workflow_id)),
         set_active ({[ workflow_id ]} ∪ active_workflows e) e,
         Some workflow)
  end.

(** ** [_execute_workflow_tasks]

    The coroutine: the try block ([run_workflow]), the workflow written
    through to its row, and the [finally] clause that drops the workflow from
    [active_workflows].  The [crud.update] calls are taken to succeed. *)
Definition _execute_workflow_tasks (e : WorkflowEngine) (workflow : WorkflowModel)
  : option (WorkflowEngine * list Round) :=
  match run_workflow (task_registry e) workflow with
  | None => None
  | Some (workflow', trace) =>
      Some (set_active (active_workflows e ∖ {[ wf_id workflow' ]})
              (set_db (<[wf_id workflow' := workflow']> (db e)) e),
            trace)
  end.

(** [execute_workflow] followed by the coroutine it scheduled running to its
    end. *)
Definition execute_to_completion (e : WorkflowEngine) (workflow_id : string)
  : option ((HTTPException + Response) * WorkflowEngine) :=
  match execute_workflow e workflow_id with
  | (r, e', None) => Some (r, e')
  | (r, e', Some workflow) =>
      match _execute_workflow_tasks e' workflow with
      | None => None
      | Some (e'', _) => Some (r, e'')
      end
  end.

(** ** [get_workflow_status]

    The "data" dictionary of the answer ([created_at] and [updated_at], two
    time stamps, left out), or the HTTP error the method raises for an
    unknown id. *)
Record TaskView : Type := mkTaskView {
  view_id : string;
  view_name : string;
  view_status : TaskStatus.t;
  view_result : option TaskResult;
  view_error : option string
}.

Record StatusData : Type := mkStatusData {
  sd_workflow_id : string;
  sd_name : string;
  sd_status : WorkflowStatus.t;
  sd_tasks : list TaskView;
  sd_metadata : Dict
}.

Definition task_view (task : WorkflowTask) : TaskView :=
  mkTaskView (task_id task) (task_name task) (task_status task)
    (task_result task) (task_error task).

Definition get_workflow_status (e : WorkflowEngine) (workflow_id : string)
  : HTTPException + StatusData :=
  match db e !! workflow_id with
  | None =>
      inl (mkHTTPException 500
             ("Failed to get workflow status: Workflow " +:+ workflow_id +:+ " not found"))
  | Some workflow =>
      inr {| sd_workflow_id := workflow_id;
             sd_name := wf_name workflow;
             sd_status := wf_status workflow;
             sd_tasks := List.map task_view (wf_tasks workflow);
             sd_metadata := wf_metadata workflow |}
  end.

(** ** [cancel_workflow]

    Only a workflow that is a key of [active_workflows] is touched: its
    execution task is cancelled and dropped from the dictionary and its
    status is set to CANCELLED.  The answer is the same "success" either
    way. *)
Definition cancel_workflow (e : WorkflowEngine) (workflow_id : string)
  : (HTTPException + Response) * WorkflowEngine :=
  match db e !! workflow_id with
  | None =>
      (inl (mkHTTPException 500
              ("Failed to cancel workflow: Workflow " +:+ workflow_id +:+ " not found")),
       e)
  | Some workflow =>
      let e :=
        if bool_decide (workflow_id ∈ active_workflows e) then
          set_db (<[workflow_id := set_wf_status WorkflowStatus.CANCELLED workflow]> (db e))
            (set_active (active_workflows e ∖ {[ workflow_id ]}) e)
        else e in
      (inr (mkResponse "success" "Workflow cancelled successfully" None), e)
  end.

(** ** [_build_task_graph]: a later task with the same id overwrites an
    earlier one. *)
Definition _build_task_graph (tasks : list WorkflowTask) : gmap string (list string) :=
  foldl (fun graph task => <[task_id task := task_dependencies task]> graph) ∅ tasks.

(** ** [_process_pending_workflows], one pass of its loop

    [pending_workflows] is the answer of
    [crud.get_multi(db, status=WorkflowStatus.PENDING)].  The [try] encloses
    the whole [for] loop, so an exception of [execute_workflow] ends the
    pass.  The result carries the workflows handed to the coroutines the
    pass has scheduled, in order. *)
Fixpoint process_pending (e : WorkflowEngine) (pending_workflows : list WorkflowModel)
    (spawned : list WorkflowModel) : WorkflowEngine * list WorkflowModel :=
  match pending_workflows with
  | [] => (e, spawned)
  | workflow :: rest =>
      if (Z.of_nat (size (active_workflows e)) <? max_concurrent_workflows e)%Z then
        match execute_workflow e (wf_id workflow) with
        | (inl _, e', _) => (e', spawned)
        | (inr _, e', None) => process_pending e' rest spawned
        | (inr _, e', Some scheduled) => process_pending e' rest (spawned ++ [scheduled])
        end
      else process_pending e rest spawned
  end.

Definition _process_pending_workflows (e : WorkflowEngine)
    (pending_workflows : list WorkflowModel) : WorkflowEngine * list WorkflowModel :=
  process_pending e pending_workflows [].

(** ** Shapes of task lists *)

(** Every dependency of a task is the id of a task listed before it. *)
Definition dependency_ordered (tasks : list WorkflowTask) : Prop :=
  ∀ i task dep,
    tasks !! i = Some task → dep ∈ task_dependencies task →
    ∃ j task', (j < i)%nat ∧ tasks !! j = Some task' ∧ task_id task' = dep.

(** A task that was handed to [_execute_task] and saw its result processed. *)
Definition finished (task : WorkflowTask) : Prop :=
  task_status task = TaskStatus.COMPLETED ∨ task_status task = TaskStatus.FAILED.

(** The ids dispatched over a trace, round after round. *)
Definition dispatch_sequence (trace : list Round) : list string :=
  List.concat (List.map (fun r => List.map task_id (round_dispatched r)) trace).

(** The rounds of a run that starts with [seen] recorded as completed: each
    round dispatches the ready tasks of its snapshot, at least one, and
    records their ids. *)
Fixpoint scheduled_rounds (seen : gset string) (rounds : list Round) : Prop :=
  match rounds with
  | [] => True
  | r :: rest =>
      round_dispatched r = ready_tasks seen (round_snapshot r)
      ∧ round_dispatched r ≠ []
      ∧ scheduled_rounds (add_ready seen (round_dispatched r)) rest
  end.

(** Two task lists with the same ids and dependency lists, position by
    position. *)
Definition same_plan (tasks1 tasks2 : list WorkflowTask) : Prop :=
  Forall2 (fun t1 t2 => task_id t1 = task_id t2
                        ∧ task_dependencies t1 = task_dependencies t2)
          tasks1 tasks2.

(** The ids dispatched, round by round. *)
Definition schedule (trace : list Round) : list (list string) :=
  List.map (fun r => List.map task_id (round_dispatched r)) trace.

(** A task without dependencies. *)
Definition independent (task : WorkflowTask) : bool :=
  match task_dependencies task with
  | [] => true
  | _ :: _ => false
  end.

(** ** Observations on a run *)

(** The status, at dispatch time, of the task a dependency names: the first
    task of the snapshot with that id. *)
Definition dep_status (snapshot : list WorkflowTask) (dep : string)
  : option TaskStatus.t :=
  task_status <$> List.find (fun d => String.eqb (task_id d) dep) snapshot.

(** A dispatched task all of whose dependencies were COMPLETED when it was
    dispatched. *)
Definition dispatch_ok (r : Round) (task : WorkflowTask) : bool :=
  forallb (fun dep => bool_decide (dep_status (round_snapshot r) dep
                                   = Some TaskStatus.COMPLETED))
          (task_dependencies task).

Definition respects_dependencies (trace : list Round) : bool :=
  forallb (fun r => forallb (dispatch_ok r) (round_dispatched r)) trace.

Definition all_completed (tasks : list WorkflowTask) : bool :=
  forallb (fun task => bool_decide (task_status task = TaskStatus.COMPLETED)) tasks.


(** The statuses the specification calls terminal. *)
Definition terminal (s : WorkflowStatus.t) : bool :=
  match s with
  | WorkflowStatus.COMPLETED | WorkflowStatus.FAILED | WorkflowStatus.CANCELLED => true
  | _ => false
  end.

(** The ids of a task list, as a set. *)
Definition task_ids (tasks : list WorkflowTask) : gset string :=
  list_to_set (List.map task_id tasks).

(** The ids handed to [_execute_task] in the rounds of a trace. *)
Definition dispatched_ids (trace : list Round) : gset string :=
  list_to_set (List.concat (List.map (fun r => List.map task_id (round_dispatched r)) trace)).

(** What a status query shows of a task list, and of a round. *)
Definition observe_tasks (tasks : list WorkflowTask) : list (string * TaskStatus.t) :=
  List.map (fun task => (task_id task, task_status task)) tasks.

Definition observe_round (r : Round)
  : list (string * TaskStatus.t) * list string :=
  (observe_tasks (round_snapshot r), List.map task_id (round_dispatched r)).


(** Every dependency of a task dispatched in a round is the id of a task
    dispatched in an earlier round, [seen] being the ids dispatched before
    the trace starts. *)
Fixpoint dispatched_after_dependencies (seen : gset string) (trace : list Round) : Prop :=
  match trace with
  | [] => True
  | r :: rest =>
      (∀ task dep, task ∈ round_dispatched r → dep ∈ task_dependencies task → dep ∈ seen)
      ∧ dispatched_after_dependencies (seen ∪ task_ids (round_dispatched r)) rest
  end.

(** A task dictionary without the two keys [create_workflow] indexes. *)
Definition lacks_key (task_data : TaskData) : Prop :=
  td_name task_data = None \/ td_type task_data = None.

End Workflow.

(* ===================================================================== *)
(** * The retry controller ([app/services/error_handler.py])             *)
(* ===================================================================== *)

Module ErrorHandling.

(** The pydantic model [ErrorPattern].  It declares no [id] field. *)
Record ErrorPattern : Type := mkErrorPattern {
  error_type : string;
  error_message : string;
  stack_trace : string;
  pattern_context : Dict;
  timestamp : Z;
  severity : string;
  workflow_id : Z;
  retry_count : Z;
  resolution_status : string
}.

(** The [conditions] dictionary of a strategy: its two keys. *)
Record Conditions : Type := mkConditions {
  cond_severity : string;
  cond_is_anomaly : bool
}.

(** The pydantic model [RetryStrategy]. *)
Record RetryStrategy : Type := mkRetryStrategy {
  stage : string;
  max_retries : Z;
  backoff_factor : Q;
  initial_delay : Q;
  max_delay : Q;
  conditions : Conditions
}.

(** ** [_determine_severity] *)

Definition severity_rules : gmap string string :=
  {[ "ConnectionError" := "high";
     "TimeoutError" := "medium";
     "ValueError" := "low";
     "KeyError" := "medium";
     "TypeError" := "low" ]}.

(** [severity_rules.get(type(error).__name__, "medium")]. *)
Definition _determine_severity (error : Exception) : string :=
  default "medium" (severity_rules !! exc_type error).

(** [_severity_to_numeric], on an already lower-cased severity. *)
Definition severity_map : gmap string Z :=
  {[ "critical" := 4%Z; "high" := 3%Z; "medium" := 2%Z; "low" := 1%Z ]}.

Definition _severity_to_numeric (severity : string) : Z :=
  default 0%Z (severity_map !! severity).

(** ** [_detect_anomaly]

    [predict] stands for [self.anomaly_detector.predict] on the features of
    the pattern: the label it returns, or [None] when feature extraction or
    the detector raises. *)
Definition _detect_anomaly (predict : ErrorPattern -> option Z) (pattern : ErrorPattern)
  : bool :=
  match predict pattern with
  | Some label => (label =? -1)%Z
  | None => false
  end.

(** ** [_get_retry_strategy] *)
Definition _get_retry_strategy (pattern : ErrorPattern) (is_anomaly : bool)
  : RetryStrategy :=
  if String.eqb (severity pattern) "critical" then
    {| stage := "immediate"; max_retries := 3;
       backoff_factor := 3 # 2; initial_delay := 1; max_delay := 30;
       conditions := mkConditions "critical" is_anomaly |}
  else if String.eqb (severity pattern) "high" then
    {| stage := "delayed"; max_retries := 5;
       backoff_factor := 2; initial_delay := 5; max_delay := 300;
       conditions := mkConditions "high" is_anomaly |}
  else
    {| stage := "manual"; max_retries := 1;
       backoff_factor := 1; initial_delay := 0; max_delay := 0;
       conditions := mkConditions (severity pattern) is_anomaly |}.

(** ** The tables the handler reads and writes *)

(** A row of [workflows], with the columns [_get_workflow_details] selects. *)
Record WorkflowRow : Type := mkWorkflowRow {
  row_id : Z;
  row_name : string;
  row_status : string;
  row_input_data : option PyValue;
  row_output_data : option PyValue;
  row_error_message : option string;
  row_resource_usage : option PyValue
}.

(** A row of [workflow_checkpoints]. *)
Record CheckpointRow : Type := mkCheckpointRow {
  cp_workflow_id : Z;
  cp_checkpoint_data : Dict;
  cp_created_at : Z
}.

(** A row of [notifications] as [_send_notification] inserts it. *)
Record Notification : Type := mkNotification {
  note_type : string;
  note_workflow_id : Z;
  note_workflow_name : string;
  note_error_type : string;
  note_severity : string
}.

(** The session [self.db]: the four tables and two traits of the libraries
    behind it.  [row_is_mapping] says that [dict(row)] works on a result
    row, which holds for SQLAlchemy before 2.0 and fails from 2.0 on, where a
    row is a tuple.  [adapts_lists] says that the driver accepts a Python
    list as the value of a statement parameter. *)
Record Database : Type := mkDatabase {
  row_is_mapping : bool;
  adapts_lists : bool;
  workflows : list WorkflowRow;
  workflow_checkpoints : list CheckpointRow;
  error_patterns : list ErrorPattern;
  notifications : list Notification
}.

Definition set_workflows (w : list WorkflowRow) (db : Database) : Database :=
  {| row_is_mapping := row_is_mapping db; adapts_lists := adapts_lists db;
     workflows := w; workflow_checkpoints := workflow_checkpoints db;
     error_patterns := error_patterns db; notifications := notifications db |}.

(** Whether a Python value can be bound to a parameter of a textual
    statement: [None], numbers and strings can, a dictionary cannot under any
    driver, a list can where the driver adapts lists and its items can be
    bound. *)
Fixpoint bindable (lists : bool) (value : PyValue) : bool :=
  match value with
  | PyNone | PyInt _ | PyStr _ => true
  | PyList items => lists && forallb (bindable lists) items
  | PyDict _ => false
  end.

(** The same for the result of [dict.get]: a missing key gives [None]. *)
Definition binds (db : Database) (value : option PyValue) : bool :=
  bindable (adapts_lists db) (default PyNone value).

(** [UPDATE workflows SET ... WHERE id = :workflow_id]. *)
Definition update_workflows (f : WorkflowRow -> WorkflowRow) (workflow_id : Z)
    (db : Database) : Database :=
  set_workflows
    (List.map (fun row => if (row_id row =? workflow_id)%Z then f row else row)
              (workflows db))
    db.

(** [_get_workflow_details]: the first row [WHERE id = :workflow_id],
    turned into a dictionary by [dict(result)].  Where a row is no mapping
    the conversion raises, the exception is caught and the answer is
    [None]. *)
Definition _get_workflow_details (db : Database) (workflow_id : Z) : option WorkflowRow :=
  match List.find (fun row => (row_id row =? workflow_id)%Z) (workflows db) with
  | Some result => if row_is_mapping db then Some result else None
  | None => None
  end.

(** [_log_error_pattern]: the [INSERT] binds [pattern.dict()], whose entry
    "context" is a dictionary.  When a parameter cannot be bound the
    statement raises, the exception is caught and the session rolled back:
    nothing is inserted. *)
Definition _log_error_pattern (db : Database) (pattern : ErrorPattern) : Database :=
  if binds db (Some (PyDict (pattern_context pattern))) then
    {| row_is_mapping := row_is_mapping db; adapts_lists := adapts_lists db;
       workflows := workflows db; workflow_checkpoints := workflow_checkpoints db;
       error_patterns := error_patterns db ++ [pattern];
       notifications := notifications db |}
  else db.

(** [SELECT ... WHERE workflow_id = :workflow_id ORDER BY created_at DESC
    LIMIT 1]: a row of the workflow with the greatest [created_at] (the
    earliest such row of the table when several share it). *)
Fixpoint latest_checkpoint (rows : list CheckpointRow) (workflow_id : Z)
  : option CheckpointRow :=
  match rows with
  | [] => None
  | row :: rest =>
      if (cp_workflow_id row =? workflow_id)%Z then
        match latest_checkpoint rest workflow_id with
        | Some best =>
            if (cp_created_at row <? cp_created_at best)%Z then Some best else Some row
        | None => Some row
        end
      else latest_checkpoint rest workflow_id
  end.

(** The [UPDATE] of [_restore_from_checkpoint] on one row: three columns
    take the entries of the checkpoint ([NULL] for a missing key). *)
Definition restore_columns (checkpoint_data : Dict) (row : WorkflowRow) : WorkflowRow :=
  {| row_id := row_id row; row_name := row_name row;
     row_status := row_status row;
     row_input_data := checkpoint_data !! "input_data";
     row_output_data := checkpoint_data !! "output_data";
     row_error_message := row_error_message row;
     row_resource_usage := checkpoint_data !! "resource_usage" |}.

(** The three entries of a checkpoint that the [UPDATE] of
    [_restore_from_checkpoint] binds can all be bound. *)
Definition binds_columns (db : Database) (checkpoint_data : Dict) : bool :=
  binds db (checkpoint_data !! "input_data")
  && binds db (checkpoint_data !! "output_data")
  && binds db (checkpoint_data !! "resource_usage").

(** ** [_restore_from_checkpoint]

    Without a checkpoint the answer is [False].  Otherwise the three columns
    are overwritten with the checkpoint's entries and the answer is [True],
    unless one of the entries cannot be bound: the [UPDATE] then raises, the
    exception is caught, nothing is written and the answer is [False]. *)
Definition _restore_from_checkpoint (db : Database) (workflow : WorkflowRow)
  : bool * Database :=
  match latest_checkpoint (workflow_checkpoints db) (row_id workflow) with
  | None => (false, db)
  | Some result =>
      let checkpoint_data := cp_checkpoint_data result in
      if binds_columns db checkpoint_data then
        (true, update_workflows (restore_columns checkpoint_data) (row_id workflow) db)
      else (false, db)
  end.

Definition set_row_status (status : string) (clear_error : bool) (row : WorkflowRow)
  : WorkflowRow :=
  {| row_id := row_id row; row_name := row_name row; row_status := status;
     row_input_data := row_input_data row; row_output_data := row_output_data row;
     row_error_message := if clear_error then None else row_error_message row;
     row_resource_usage := row_resource_usage row |}.

(** ** [_recover_workflow_state] *)
Definition _recover_workflow_state (db : Database) (workflow : WorkflowRow)
  : bool * Database :=
  let db := update_workflows (set_row_status "recovering" true) (row_id workflow) db in
  match _restore_from_checkpoint db workflow with
  | (true, db) =>
      (true, update_workflows (set_row_status "running" false) (row_id workflow) db)
  | (false, db) => (false, db)
  end.

(** ** [_attempt_recovery]

    On success the method calls [_update_error_pattern_status], which reads
    [pattern.id]; the model has no such field, the [AttributeError] is caught
    inside that method and nothing is written. *)
Definition _attempt_recovery (db : Database) (pattern : ErrorPattern) : bool * Database :=
  match _get_workflow_details db (workflow_id pattern) with
  | None => (false, db)
  | Some workflow => _recover_workflow_state db workflow
  end.

(** Python's [min(a, b)] on two floats. *)
Definition py_min (a b : Q) : Q := if Qle_bool a b then a else b.

(** The dictionaries the retry methods return. *)
Inductive RetryResult : Type :=
  | RetrySuccess (attempt : Z) (delay : Q)
  | RetryFailed (attempts : Z) (final_delay : Q)
  | ManualInterventionRequired (pattern : ErrorPattern).

(** The [for attempt in range(strategy.max_retries)] loop shared, line for
    line, by [_execute_immediate_retry] and [_execute_delayed_retry]:
    [remaining] iterations are left, [attempt] is the loop variable and
    [sleeps] collects the arguments of [asyncio.sleep]. *)
Fixpoint retry_loop (remaining : nat) (attempt : Z) (delay : Q)
    (strategy : RetryStrategy) (pattern : ErrorPattern) (db : Database)
    (sleeps : list Q) : RetryResult * Database * list Q :=
  match remaining with
  | O => (RetryFailed (max_retries strategy) delay, db, sleeps)
  | S remaining' =>
      let sleeps := sleeps ++ [delay] in
      match _attempt_recovery db pattern with
      | (true, db) => (RetrySuccess (attempt + 1) delay, db, sleeps)
      | (false, db) =>
          retry_loop remaining' (attempt + 1)
            (py_min (delay * backoff_factor strategy) (max_delay strategy))
            strategy pattern db sleeps
      end
  end.

Definition _execute_immediate_retry (db : Database) (pattern : ErrorPattern)
    (strategy : RetryStrategy) : RetryResult * Database * list Q :=
  retry_loop (Z.to_nat (max_retries strategy)) 0 (initial_delay strategy)
    strategy pattern db [].

Definition _execute_delayed_retry (db : Database) (pattern : ErrorPattern)
    (strategy : RetryStrategy) : RetryResult * Database * list Q :=
  retry_loop (Z.to_nat (max_retries strategy)) 0 (initial_delay strategy)
    strategy pattern db [].

(** [_send_notification]; [_log_manual_intervention] before it reads
    [pattern.id] and so writes nothing. *)
Definition _send_notification (db : Database) (pattern : ErrorPattern) : Database :=
  match _get_workflow_details db (workflow_id pattern) with
  | None => db
  | Some workflow =>
      {| row_is_mapping := row_is_mapping db; adapts_lists := adapts_lists db;
         workflows := workflows db; workflow_checkpoints := workflow_checkpoints db;
         error_patterns := error_patterns db;
         notifications := notifications db ++
           [mkNotification "manual_intervention_required" (workflow_id pattern)
              (row_name workflow) (error_type pattern) (severity pattern)] |}
  end.

Definition _execute_manual_retry (db : Database) (pattern : ErrorPattern)
    (strategy : RetryStrategy) : RetryResult * Database * list Q :=
  (ManualInterventionRequired pattern, _send_notification db pattern, []).

(** ** [_execute_retry_strategy] *)
Definition _execute_retry_strategy (db : Database) (pattern : ErrorPattern)
    (strategy : RetryStrategy) : RetryResult * Database * list Q :=
  if String.eqb (stage strategy) "immediate" then
    _execute_immediate_retry db pattern strategy
  else if String.eqb (stage strategy) "delayed" then
    _execute_delayed_retry db pattern strategy
  else _execute_manual_retry db pattern strategy.

(** ** [handle_error]

    [trace] is the formatted stack trace and [now] the reading of
    [datetime.utcnow()]. *)
Definition handle_error (predict : ErrorPattern -> option Z) (db : Database)
    (error : Exception) (trace : string) (now : Z) (workflow_id : Z) (context : Dict)
  : ErrorPattern * RetryStrategy * (RetryResult * Database * list Q) :=
  let pattern :=
    {| error_type := exc_type error; error_message := exc_str error;
       stack_trace := trace; pattern_context := context; timestamp := now;
       severity := _determine_severity error; workflow_id := workflow_id;
       retry_count := 0; resolution_status := "pending" |} in
  let is_anomaly := _detect_anomaly predict pattern in
  let strategy := _get_retry_strategy pattern is_anomaly in
  let db := _log_error_pattern db pattern in
  (pattern, strategy, _execute_retry_strategy db pattern strategy).

(** ** What a recovery attempt leaves behind *)

(** The row after a successful attempt: running, the error message cleared
    and three columns taken from the checkpoint. *)
Definition recovered (checkpoint_data : Dict) (row : WorkflowRow) : WorkflowRow :=
  mkWorkflowRow (row_id row) (row_name row) "running"
    (checkpoint_data !! "input_data") (checkpoint_data !! "output_data")
    None (checkpoint_data !! "resource_usage").

(** The row after an attempt that found no checkpoint, or one it could not
    write back: the first [UPDATE] of [_recover_workflow_state] is committed
    and nothing undoes it. *)
Definition stuck (row : WorkflowRow) : WorkflowRow :=
  mkWorkflowRow (row_id row) (row_name row) "recovering"
    (row_input_data row) (row_output_data row) None (row_resource_usage row).

(** The arguments of [asyncio.sleep] over [n] failed iterations of the retry
    loop. *)
Fixpoint backoff_delays (n : nat) (delay : Q) (strategy : RetryStrategy) : list Q :=
  match n with
  | O => []
  | S n' =>
      delay :: backoff_delays n'
                 (py_min (delay * backoff_factor strategy) (max_delay strategy))
                 strategy
  end.

(** The delay the loop holds after [n] failed iterations. *)
Fixpoint final_backoff (n : nat) (delay : Q) (strategy : RetryStrategy) : Q :=
  match n with
  | O => delay
  | S n' =>
      final_backoff n' (py_min (delay * backoff_factor strategy) (max_delay strategy))
        strategy
  end.

(** ** Observations on the tables *)

Definition has_checkpoint (db : Database) (workflow_id : Z) : Prop :=
  ∃ row, row ∈ workflow_checkpoints db ∧ cp_workflow_id row = workflow_id.

Definition has_workflow (db : Database) (workflow_id : Z) : Prop :=
  ∃ row, row ∈ workflows db ∧ row_id row = workflow_id.

(** A checkpoint entry that is absent, [None], a number or a string. *)
Definition scalar (value : option PyValue) : Prop :=
  match value with
  | None | Some PyNone | Some (PyInt _) | Some (PyStr _) => True
  | Some (PyList _) | Some (PyDict _) => False
  end.

Definition scalar_columns (checkpoint_data : Dict) : Prop :=
  scalar (checkpoint_data !! "input_data")
  ∧ scalar (checkpoint_data !! "output_data")
  ∧ scalar (checkpoint_data !! "resource_usage").

End ErrorHandling.

(* ===================================================================== *)
(** * The failover manager ([app/services/failover.py])                  *)
(* ===================================================================== *)

Module Failover.

(** The pydantic model [JobState] (time stamps left out). *)
Record JobState : Type := mkJobState {
  job_id : string;
  workflow_id : Z;
  status : string;
  checkpoint_data : Dict;
  retry_count : Z;
  max_retries : Z;
  job_priority : Z;
  dependencies : list string
}.

(** ** [_validate_checkpoint]: the three required keys are present. *)
Definition required_fields : list string := ["state"; "timestamp"; "version"].

Definition _validate_checkpoint (checkpoint_data : Dict) : bool :=
  forallb (fun field => bool_decide (is_Some (checkpoint_data !! field)))
          required_fields.

(** ** [_recover_job]

    The status the job row is left with, and whether its retry count was
    incremented.  [redistributed] is the answer of [_redistribute_job], which
    talks to the other nodes. *)
Definition _recover_job (job : JobState) (redistributed : bool) : string * bool :=
  if negb (_validate_checkpoint (checkpoint_data job)) then ("permanently_failed", false)
  else if redistributed then ("running", true)
  else ("failed", false).

(** An element of the JSON list under [failover:active_nodes], with the keys
    the election reads.  [priority] is [None] when the dictionary has no such
    key. *)
Record Node : Type := mkNode {
  node_id : string;
  priority : option Z;
  load : Q
}.

(** The sort key [lambda x: (x["priority"], -x["load"])]; [None] is the
    [KeyError]. *)
Definition sort_key (x : Node) : option (Z * Q) :=
  match priority x with
  | Some p => Some (p, - load x)
  | None => None
  end.

(** Python's [<] on two such tuples: the first components decide unless they
    are equal. *)
Definition key_lt (a b : Z * Q) : bool :=
  (a.1 <? b.1)%Z || ((a.1 =? b.1)%Z && negb (Qle_bool b.2 a.2)).

(** [sorted] is stable: an element is placed before the first one whose key
    is not smaller than its own, elements being inserted from the right. *)
Fixpoint insert_keyed (x : (Z * Q) * Node) (l : list ((Z * Q) * Node))
  : list ((Z * Q) * Node) :=
  match l with
  | [] => [x]
  | y :: l' => if key_lt y.1 x.1 then y :: insert_keyed x l' else x :: y :: l'
  end.

Definition py_sorted (l : list ((Z * Q) * Node)) : list ((Z * Q) * Node) :=
  foldr insert_keyed [] l.

Fixpoint with_keys (nodes : list Node) : option (list ((Z * Q) * Node)) :=
  match nodes with
  | [] => Some []
  | x :: rest =>
      match sort_key x, with_keys rest with
      | Some k, Some keyed => Some ((k, x) :: keyed)
      | _, _ => None
      end
  end.

(** ** [_should_become_primary]

    [nodes] is the decoded [failover:active_nodes] list.  A missing
    [priority] key ([KeyError]) and an empty list ([IndexError]) both end in
    the [except] clause, which answers [False]. *)
Definition _should_become_primary (nodes : list Node) (current_node : Node) : bool :=
  match with_keys nodes with
  | None => false
  | Some keyed =>
      match py_sorted keyed with
      | [] => false
      | first :: _ => String.eqb (node_id first.2) (node_id current_node)
      end
  end.

(** ** Python's stable [sorted] for a strict order on the elements *)

Fixpoint insert_by {A : Type} (lt : A -> A -> bool) (x : A) (l : list A) : list A :=
  match l with
  | [] => [x]
  | y :: l' => if lt y x then y :: insert_by lt x l' else x :: y :: l'
  end.

Definition sorted_by {A : Type} (lt : A -> A -> bool) (l : list A) : list A :=
  foldr (insert_by lt) [] l.

(** ** The node list under [failover:active_nodes]

    An element with every key the manager reads or writes; an optional
    field is [None] when the dictionary lacks the key. *)
Record NodeEntry : Type := mkNodeEntry {
  entry_node_id : string;
  entry_role : option string;
  entry_status : option string;
  entry_priority : option Z;
  entry_load : Q;
  entry_capabilities : option (gmap string Z);
  entry_url : option string
}.

(** What the election reads of an element. *)
Definition election_view (entry : NodeEntry) : Node :=
  mkNode (entry_node_id entry) (entry_priority entry) (entry_load entry).

(** The Redis keys [failover:active_nodes] and [failover:node_role]. *)
Record Cluster : Type := mkCluster {
  active_nodes : list NodeEntry;
  node_role : option string
}.

(** [_initialize_failover_state] writes an empty node list. *)
Definition _initialize_failover_state (c : Cluster) : Cluster :=
  mkCluster [] (node_role c).

(** "Update or add current node": the first element with the id of
    [current_node] is replaced, and without one [current_node] is appended. *)
Fixpoint put_node (current_node : NodeEntry) (nodes : list NodeEntry) : list NodeEntry :=
  match nodes with
  | [] => [current_node]
  | n :: rest =>
      if String.eqb (entry_node_id n) (entry_node_id current_node)
      then current_node :: rest
      else n :: put_node current_node rest
  end.

(** ** [_update_node_status]

    [this_node] is [settings.NODE_ID]; [node_load] and [capabilities] are
    the answers of [_get_node_load] and [_get_node_capabilities].  The
    dictionary written has the keys [node_id], [role], [load] and
    [capabilities] and no others. *)
Definition _update_node_status (this_node : string) (node_load : Q)
    (capabilities : gmap string Z) (role : string) (c : Cluster) : Cluster :=
  let current_node :=
    mkNodeEntry this_node (Some role) None None node_load (Some capabilities) None in
  mkCluster (put_node current_node (active_nodes c)) (Some role).

(** ** [_get_available_nodes]

    The list comprehension reads [node["status"]] of every element: one
    element without that key raises [KeyError] and the answer is the empty
    list of the [except] clause. *)
Fixpoint available (nodes : list NodeEntry) : option (list NodeEntry) :=
  match nodes with
  | [] => Some []
  | n :: rest =>
      match entry_status n, available rest with
      | Some s, Some kept =>
          if String.eqb s "active" && negb (Qle_bool (8 # 10) (entry_load n))
          then Some (n :: kept) else Some kept
      | _, _ => None
      end
  end.

Definition _get_available_nodes (nodes : list NodeEntry) : list NodeEntry :=
  default [] (available nodes).

(** ** [_select_target_node]

    The sort key is [(x["load"], -x["capabilities"].get(job.workflow_id, 0))].
    The keys of a decoded JSON object are strings and [job.workflow_id] is an
    [int], which is equal to no string: the lookup misses and the second
    component is [-0] for every node. *)
Definition capability_of (capabilities : gmap string Z) (for_workflow : Z) : Z := 0.

Definition target_key (job : JobState) (x : NodeEntry) : option (Q * Z) :=
  match entry_capabilities x with
  | Some capabilities => Some (entry_load x, (- capability_of capabilities (workflow_id job))%Z)
  | None => None
  end.

(** Python's [<] on two such tuples. *)
Definition target_lt (a b : Q * Z) : bool :=
  negb (Qle_bool b.1 a.1) || (Qeq_bool a.1 b.1 && (a.2 <? b.2)%Z).

Fixpoint with_target_keys (job : JobState) (nodes : list NodeEntry)
  : option (list ((Q * Z) * NodeEntry)) :=
  match nodes with
  | [] => Some []
  | x :: rest =>
      match target_key job x, with_target_keys job rest with
      | Some k, Some keyed => Some ((k, x) :: keyed)
      | _, _ => None
      end
  end.

(** [None] is the [IndexError] of an empty list; a node without
    capabilities ([KeyError]) makes the answer [available_nodes[0]]. *)
Definition _select_target_node (available_nodes : list NodeEntry) (job : JobState)
  : option NodeEntry :=
  match with_target_keys job available_nodes with
  | Some keyed =>
      snd <$> head (sorted_by (fun a b => target_lt a.1 b.1) keyed)
  | None => head available_nodes
  end.

(** [_make_node_request]: the "status" entry of the dictionary it returns.
    [post url job] is whether the node at [url] would answer "success".
    The module does not import [aiohttp], so [aiohttp.ClientSession()]
    raises [NameError] before any request is made; the exception is caught
    and the answer is the error dictionary, whatever the node would say. *)
Definition _make_node_request (post : string -> JobState -> bool)
    (url : string) (job : JobState) : string :=
  "error".

(** [_send_job_to_node]: a node without [url] is a [KeyError], answered
    [False]. *)
Definition _send_job_to_node (post : string -> JobState -> bool)
    (node : NodeEntry) (job : JobState) : bool :=
  match entry_url node with
  | Some url => String.eqb (_make_node_request post url job) "success"
  | None => false
  end.

(** ** [_redistribute_job] *)
Definition _redistribute_job (post : string -> JobState -> bool)
    (nodes : list NodeEntry) (job : JobState) : bool :=
  match _get_available_nodes nodes with
  | [] => false
  | available_nodes =>
      match _select_target_node available_nodes job with
      | Some target_node => _send_job_to_node post target_node job
      | None => false
      end
  end.

(** ** The job table and what permanent failures leave behind *)

Record JobRow : Type := mkJobRow {
  row_job : JobState;
  row_created_at : Z;
  row_node_id : string
}.

Record JobFailure : Type := mkJobFailure {
  failure_job_id : string;
  failure_workflow_id : Z;
  failure_reason : string;
  failure_retry_count : Z
}.

Record JobNotification : Type := mkJobNotification {
  notified_job_id : string;
  notified_workflow_id : Z;
  notified_workflow_name : option string;
  notified_reason : string
}.

(** The tables [job_states] and [job_failures], the names of the table
    [workflows] and the Redis list [notifications:queue]. *)
Record JobStore : Type := mkJobStore {
  job_states : list JobRow;
  job_failures : list JobFailure;
  workflow_names : gmap Z string;
  notification_queue : list JobNotification
}.

Definition set_job_states (rows : list JobRow) (store : JobStore) : JobStore :=
  mkJobStore rows (job_failures store) (workflow_names store) (notification_queue store).

Definition with_status (new_status : string) (row : JobRow) : JobRow :=
  let job := row_job row in
  mkJobRow
    (mkJobState (job_id job) (workflow_id job) new_status (checkpoint_data job)
       (retry_count job) (max_retries job) (job_priority job) (dependencies job))
    (row_created_at row) (row_node_id row).

Definition with_one_more_retry (row : JobRow) : JobRow :=
  let job := row_job row in
  mkJobRow
    (mkJobState (job_id job) (workflow_id job) (status job) (checkpoint_data job)
       (retry_count job + 1) (max_retries job) (job_priority job) (dependencies job))
    (row_created_at row) (row_node_id row).

(** [UPDATE job_states SET ... WHERE job_id = :job_id]. *)
Definition update_job (f : JobRow -> JobRow) (id : string) (store : JobStore) : JobStore :=
  set_job_states
    (List.map (fun row => if String.eqb (job_id (row_job row)) id then f row else row)
              (job_states store))
    store.

Definition _update_job_state (store : JobStore) (id : string) (new_status : string)
  : JobStore :=
  update_job (with_status new_status) id store.

Definition _increment_retry_count (store : JobStore) (id : string) : JobStore :=
  update_job with_one_more_retry id store.

(** ** [_get_failed_jobs]: [WHERE status = 'failed' AND retry_count <
    max_retries ORDER BY priority DESC, created_at ASC]. *)
Definition needs_recovery (job : JobState) : bool :=
  String.eqb (status job) "failed" && (retry_count job <? max_retries job)%Z.

Definition listed_before (a b : JobRow) : bool :=
  (job_priority (row_job b) <? job_priority (row_job a))%Z
  || ((job_priority (row_job a) =? job_priority (row_job b))%Z
      && (row_created_at a <? row_created_at b)%Z).

Definition _get_failed_jobs (store : JobStore) : list JobState :=
  List.map row_job
    (sorted_by listed_before
       (List.filter (fun row => needs_recovery (row_job row)) (job_states store))).

(** ** [_handle_permanent_failure], with [_log_job_failure] and
    [_notify_stakeholders] ([lpush] puts the notification in front). *)
Definition _handle_permanent_failure (store : JobStore) (job : JobState) : JobStore :=
  let store := _update_job_state store (job_id job) "permanently_failed" in
  mkJobStore (job_states store)
    (job_failures store
     ++ [mkJobFailure (job_id job) (workflow_id job) "Max retries exceeded"
           (retry_count job)])
    (workflow_names store)
    (mkJobNotification (job_id job) (workflow_id job)
       (workflow_names store !! workflow_id job) "Max retries exceeded"
     :: notification_queue store).

(** ** [_recover_job] on the tables; [redistribute] is [_redistribute_job]. *)
Definition recover_job (redistribute : JobState -> bool) (store : JobStore)
    (job : JobState) : JobStore :=
  let store := _update_job_state store (job_id job) "recovering" in
  if negb (_validate_checkpoint (checkpoint_data job)) then
    _handle_permanent_failure store job
  else if redistribute job then
    _increment_retry_count (_update_job_state store (job_id job) "running") (job_id job)
  else _update_job_state store (job_id job) "failed".

(** ** [_recover_failed_jobs], one pass of its loop *)
Definition _recover_failed_jobs (redistribute : JobState -> bool) (store : JobStore)
  : JobStore :=
  foldl (fun store job =>
           if (retry_count job <? max_retries job)%Z
           then recover_job redistribute store job
           else _handle_permanent_failure store job)
        store (_get_failed_jobs store).

(** ** [_take_over_failed_jobs] *)
Definition _take_over_failed_jobs (redistribute : JobState -> bool) (store : JobStore)
  : JobStore :=
  foldl (recover_job redistribute) store (_get_failed_jobs store).

(** ** [_get_node_load]: the share of [max_jobs] (the setting
    [MAX_JOBS_PER_NODE]) taken by the running jobs of the node, at most 1; a
    division by zero is caught and answered 0. *)
Definition running_on (this_node : string) (row : JobRow) : bool :=
  String.eqb (status (row_job row)) "running" && String.eqb (row_node_id row) this_node.

Definition _get_node_load (this_node : string) (max_jobs : Z) (store : JobStore) : Q :=
  if (max_jobs =? 0)%Z then 0%Q
  else
    let result := Z.of_nat (length (List.filter (running_on this_node) (job_states store))) in
    let share := ((result # 1) / (max_jobs # 1))%Q in
    if Qle_bool share 1 then share else 1%Q.

(** ** [_initiate_failover]

    The current node is compared by its id only.  Becoming primary writes
    the role, takes the failed jobs over and notifies the other nodes, which
    changes no state here. *)
Definition _initiate_failover (post : string -> JobState -> bool) (this_node : string)
    (capabilities : gmap string Z) (max_jobs : Z) (store : JobStore) (c : Cluster)
  : JobStore * Cluster :=
  let node_load := _get_node_load this_node max_jobs store in
  let current_node := mkNode this_node None node_load in
  if _should_become_primary (List.map election_view (active_nodes c)) current_node then
    let c := _update_node_status this_node node_load capabilities "primary" c in
    (_take_over_failed_jobs (_redistribute_job post (active_nodes c)) store, c)
  else
    (store, _update_node_status this_node node_load capabilities "standby" c).

(** What [_recover_job] leaves of the row of the job it is called for. *)
Definition settle (redistribute : JobState -> bool) (job : JobState) (row : JobRow)
  : JobRow :=
  let '(new_status, incremented) := _recover_job job (redistribute job) in
  let row := with_status new_status row in
  if incremented then with_one_more_retry row else row.

(** Failover rounds run one after the other by the nodes sharing the Redis
    keys and the job tables; each node brings its id, its capabilities and
    its setting [MAX_JOBS_PER_NODE]. *)
Record FailoverRound : Type := mkFailoverRound {
  round_node : string;
  round_capabilities : gmap string Z;
  round_max_jobs : Z
}.

Definition failover_rounds (post : string -> JobState -> bool)
    (rounds : list FailoverRound) (store : JobStore) (c : Cluster) : JobStore * Cluster :=
  foldl (fun state r =>
           _initiate_failover post (round_node r) (round_capabilities r)
             (round_max_jobs r) state.1 state.2)
        (store, c) rounds.

(** A node list none of whose elements has a [priority] key. *)
Definition unranked (nodes : list NodeEntry) : Prop :=
  Forall (fun n => entry_priority n = None) nodes.

End Failover.

(* ===================================================================== *)
(** * The analytics intake ([aetheriq/core/analytics.py])                *)
(* ===================================================================== *)

Module Analytics.

(** What [process_data] puts on the queue. *)
Record QueueItem : Type := mkQueueItem {
  item_data : Dict;
  item_type : string;
  item_timestamp : Z
}.

(** [asyncio.Queue(maxsize)]: a queue whose [maxsize] is zero or less is
    unbounded; otherwise it is full once it holds [maxsize] items. *)
Record Queue : Type := mkQueue {
  maxsize : Z;
  items : list QueueItem
}.

Definition qsize (q : Queue) : nat := length (items q).

Definition full (q : Queue) : bool :=
  (0 <? maxsize q)%Z && (maxsize q <=? Z.of_nat (qsize q))%Z.

(** [await queue.put(item)]: on a full queue the coroutine is suspended until
    a consumer frees a slot ([None]). *)
Definition put (q : Queue) (item : QueueItem) : option Queue :=
  if full q then None else Some (mkQueue (maxsize q) (items q ++ [item])).

Record AnalyticsEngine : Type := mkAnalyticsEngine {
  batch_size : Z;
  processing_interval : Z;
  data_retention_days : Z;
  max_processing_time : Z;
  processing_queue : Queue;
  is_processing : bool
}.

(** [__init__]: four configuration keys are read; the queue is created by
    [asyncio.Queue()] with no argument, that is with [maxsize = 0]. *)
Definition __init__ (config : gmap string Z) : AnalyticsEngine :=
  {| batch_size := default 1000%Z (config !! "batch_size");
     processing_interval := default 60%Z (config !! "processing_interval_seconds");
     data_retention_days := default 90%Z (config !! "data_retention_days");
     max_processing_time := default 300%Z (config !! "max_processing_time_seconds");
     processing_queue := mkQueue 0 [];
     is_processing := false |}.

Definition set_queue (q : Queue) (e : AnalyticsEngine) : AnalyticsEngine :=
  {| batch_size := batch_size e; processing_interval := processing_interval e;
     data_retention_days := data_retention_days e;
     max_processing_time := max_processing_time e;
     processing_queue := q; is_processing := is_processing e |}.

(** [data.get(key, default)]. *)
Definition get_default (data : Dict) (key : string) (d : PyValue) : PyValue :=
  default d (data !! key).

(** [type(v).__name__], for the message of the [TypeError] of [len]. *)
Definition type_name (v : PyValue) : string :=
  match v with
  | PyNone => "NoneType"
  | PyInt _ => "int"
  | PyStr _ => "str"
  | PyList _ => "list"
  | PyDict _ => "dict"
  end.

Definition _process_workflow_data (data : Dict) : Exception + Dict :=
  let errors := get_default data "errors" (PyList []) in
  match py_len errors with
  | None =>
      inl (mkException "TypeError"
             ("object of type '" +:+ type_name errors +:+ "' has no len()"))
  | Some n =>
      inr {[ "execution_time" := get_default data "execution_time" (PyInt 0);
             "status" := get_default data "status" (PyStr "unknown");
             "resource_usage" := get_default data "resource_usage" (PyDict ∅);
             "error_count" := PyInt (Z.of_nat n) ]}
  end.

Definition _process_system_metrics (data : Dict) : Dict :=
  {[ "cpu_usage" := get_default data "cpu_usage" (PyInt 0);
     "memory_usage" := get_default data "memory_usage" (PyInt 0);
     "disk_usage" := get_default data "disk_usage" (PyInt 0);
     "network_traffic" := get_default data "network_traffic" (PyInt 0) ]}.

Definition _process_user_activity (data : Dict) : Dict :=
  {[ "user_id" := get_default data "user_id" (PyStr "unknown");
     "action" := get_default data "action" (PyStr "unknown");
     "resource_type" := get_default data "resource_type" (PyStr "unknown");
     "duration" := get_default data "duration" (PyInt 0) ]}.

(** [d.update(other)]: the entries of [other] win. *)
Definition update (d other : Dict) : Dict := other ∪ d.

(** ** [_preprocess_data]; [processed_at] is
    [datetime.utcnow().isoformat()]. *)
Definition _preprocess_data (processed_at : string) (data : PyValue) (data_type : string)
  : Exception + Dict :=
  match data with
  | PyDict d =>
      let processed : Dict :=
        {[ "raw_data" := PyDict d;
           "processed_at" := PyStr processed_at;
           "data_type" := PyStr data_type ]} in
      if String.eqb data_type "workflow_execution" then
        match _process_workflow_data d with
        | inl exn => inl exn
        | inr extra => inr (update processed extra)
        end
      else if String.eqb data_type "system_metrics" then
        inr (update processed (_process_system_metrics d))
      else if String.eqb data_type "user_activity" then
        inr (update processed (_process_user_activity d))
      else inr processed
  | _ => inl (mkException "ValueError" "Data must be a dictionary")
  end.

(** The dictionary [process_data] returns. *)
Record ProcessResponse : Type := mkProcessResponse {
  pr_status : string;
  pr_message : string;
  pr_queue_size : option nat;
  pr_type : option string
}.

(** ** [process_data]

    [now] is the reading of [datetime.utcnow()] stored with the item.  The
    result is [None] when the coroutine stays suspended in [put]. *)
Definition process_data (e : AnalyticsEngine) (processed_at : string) (now : Z)
    (data : PyValue) (data_type : string) : option (ProcessResponse * AnalyticsEngine) :=
  match _preprocess_data processed_at data data_type with
  | inl exn => Some (mkProcessResponse "error" (exc_str exn) None None, e)
  | inr processed_data =>
      match put (processing_queue e) (mkQueueItem processed_data data_type now) with
      | None => None
      | Some q =>
          Some (mkProcessResponse "success" "Data queued for processing"
                  (Some (qsize q)) (Some data_type),
                set_queue q e)
      end
  end.

(** A row of the table [analytics]. *)
Record AnalyticsRow : Type := mkAnalyticsRow {
  analytics_id : string;
  analytics_metric_name : string;
  analytics_metric_value : Dict;
  analytics_timestamp : Z
}.

(** An instance of the schema [AnalyticsCreate] of
    [aetheriq/schemas/base.py]. *)
Record AnalyticsSchema : Type := mkAnalyticsSchema {
  ac_metric_name : string;
  ac_metric_value : Dict;
  ac_metadata : option Dict;
  ac_workflow_id : string
}.

(** [AnalyticsCreate(metric_name=item["type"], metric_value=item["data"],
    timestamp=item["timestamp"])]: the schema declares [workflow_id: UUID]
    without a default, so a call that passes none raises [ValidationError]
    (here [None]); [timestamp] is no field of the schema and is ignored. *)
Definition AnalyticsCreate (workflow_id : option string) (item : QueueItem)
  : option AnalyticsSchema :=
  match workflow_id with
  | None => None
  | Some workflow_id =>
      Some (mkAnalyticsSchema (item_type item) (item_data item) None workflow_id)
  end.

(** The list comprehension over the batch; the call in it passes no
    [workflow_id]. *)
Fixpoint analytics_items (batch : list QueueItem) : option (list AnalyticsSchema) :=
  match batch with
  | [] => Some []
  | item :: rest =>
      match AnalyticsCreate None item with
      | None => None
      | Some obj_in => cons obj_in <$> analytics_items rest
      end
  end.

(** ** [_process_queue], one iteration of its outer loop

    With no producer at work, the inner loop takes items from the head of
    the queue until the batch holds [batch_size] of them or the queue stays
    empty for [processing_interval] seconds.  With an interval of zero or
    less [asyncio.wait_for] cancels [queue.get()] before it has run, so
    nothing is taken.  [bulk_create objs_in] is what [crud.bulk_create]
    adds to the table, or [None] when it raises.  An exception of the
    comprehension or of the store is logged and the batch is not put
    back. *)
Definition _process_queue
    (bulk_create : list AnalyticsSchema -> option (list AnalyticsRow))
    (e : AnalyticsEngine) (rows : list AnalyticsRow)
  : AnalyticsEngine * list AnalyticsRow :=
  let q := processing_queue e in
  let n := if (processing_interval e <=? 0)%Z then 0%nat else Z.to_nat (batch_size e) in
  let batch := take n (items q) in
  let e := set_queue (mkQueue (maxsize q) (drop n (items q))) e in
  match batch with
  | [] => (e, rows)
  | _ :: _ =>
      match analytics_items batch with
      | None => (e, rows)
      | Some objs_in =>
          match bulk_create objs_in with
          | Some created => (e, rows ++ created)
          | None => (e, rows)
          end
      end
  end.

(** [n] iterations of the [while self.is_processing] loop. *)
Fixpoint process_queue_rounds (n : nat)
    (bulk_create : list AnalyticsSchema -> option (list AnalyticsRow))
    (e : AnalyticsEngine) (rows : list AnalyticsRow)
  : AnalyticsEngine * list AnalyticsRow :=
  match n with
  | O => (e, rows)
  | S n' =>
      let '(e', rows') := _process_queue bulk_create e rows in
      process_queue_rounds n' bulk_create e' rows'
  end.

(** ** [CRUDBase.get_multi] and [CRUDBase.bulk_delete] on the table
    [analytics] *)

(** The attribute names of the ORM class [Analytics]. *)
Definition model_attributes : list string :=
  ["id"; "workflow_id"; "metric_name"; "metric_value"; "timestamp"; "metadata";
   "workflow"].

(** The value of a keyword filter: a point in time or a text. *)
Inductive FilterValue : Type :=
  | TimeValue (t : Z)
  | TextValue (s : string).

(** [getattr(self.model, field) == value] on a row; a column compared with
    a value of another kind, or one that is [NULL], matches nothing. *)
Definition column_equals (row : AnalyticsRow) (field : string) (value : FilterValue)
  : bool :=
  match value with
  | TimeValue t => String.eqb field "timestamp" && (analytics_timestamp row =? t)%Z
  | TextValue s =>
      (String.eqb field "id" && String.eqb (analytics_id row) s)
      || (String.eqb field "metric_name" && String.eqb (analytics_metric_name row) s)
  end.

(** The loop over [filters.items()]: a keyword that is no attribute of the
    model is skipped, the others are tested for equality. *)
Definition passes (filters : list (string * FilterValue)) (row : AnalyticsRow) : bool :=
  forallb (fun filter =>
             if bool_decide (filter.1 ∈ model_attributes)
             then column_equals row filter.1 filter.2
             else true)
          filters.

Definition get_multi (rows : list AnalyticsRow) (skip limit : nat)
    (filters : list (string * FilterValue)) : list AnalyticsRow :=
  take limit (drop skip (List.filter (passes filters) rows)).

Definition bulk_delete (rows : list AnalyticsRow) (ids : list string) : list AnalyticsRow :=
  List.filter (fun row => negb (bool_decide (analytics_id row ∈ ids))) rows.

(** ** Dates

    A [datetime] is counted in seconds since the epoch; the type reaches
    from the first second of year 1 to the last one of year 9999. *)
Definition datetime_min : Z := -62135596800.
Definition datetime_max : Z := 253402300799.

(** [timedelta(days=n)], in seconds: [OverflowError] (here [None]) when the
    magnitude of [n] exceeds 999999999. *)
Definition timedelta (days : Z) : option Z :=
  if (Z.abs days <=? 999999999)%Z then Some (days * 86400)%Z else None.

(** [t - delta] on a [datetime] and a [timedelta]: [OverflowError] when the
    result is no date. *)
Definition datetime_sub (t delta : Z) : option Z :=
  let result := (t - delta)%Z in
  if (datetime_min <=? result)%Z && (result <=? datetime_max)%Z then Some result
  else None.

(** ** [_cleanup_old_data], one iteration; [now] is [datetime.utcnow()].
    [get_multi] is called with its default [skip] and [limit].  An
    [OverflowError] of the date arithmetic is caught with every other
    exception and the table is left alone. *)
Definition _cleanup_old_data (e : AnalyticsEngine) (now : Z) (rows : list AnalyticsRow)
  : list AnalyticsRow :=
  match timedelta (data_retention_days e) with
  | None => rows
  | Some delta =>
      match datetime_sub now delta with
      | None => rows
      | Some cutoff_date =>
          let old_records :=
            get_multi rows 0 100 [("timestamp_lt", TimeValue cutoff_date)] in
          match old_records with
          | [] => rows
          | _ :: _ => bulk_delete rows (List.map analytics_id old_records)
          end
      end
  end.

End Analytics.

(* ===================================================================== *)
(** * Concrete inputs                                                    *)
(* ===================================================================== *)

Module Scenario.
Import Workflow.



Definition task_data (name type : string) (deps : list string) : TaskData :=
  mkTaskData (Some name) (Some type) None (Some deps) None None.

(** The default registry extended with a handler that cannot reach its
    server. *)
Definition fetch_fails : Handler :=
  fun _ => Raised (mkException "ConnectionError" "connection refused").

Definition flaky_registry : TaskRegistry := <[ "fetch" := fetch_fails ]> default_tasks.

(** A stored workflow of two tasks, the second depending on the first. *)
Definition fetch_task : WorkflowTask :=
  mkTask "A" "fetch" "fetch" ∅ [] 300 3 TaskStatus.PENDING None None 0.

Definition report_task : WorkflowTask :=
  mkTask "B" "report" "system_check" ∅ ["A"] 300 3 TaskStatus.PENDING None None 0.

Definition fetch_then_report : WorkflowModel :=
  mkWorkflow "w1" "fetch then report" WorkflowStatus.PENDING [fetch_task; report_task] ∅.

(** A stored workflow whose only task depends on an id no task has. *)
Definition load_task : WorkflowTask :=
  mkTask "L" "load" "data_backup" ∅ ["extract"] 300 3 TaskStatus.PENDING None None 0.

Definition dangling_workflow : WorkflowModel :=
  mkWorkflow "w4" "load only" WorkflowStatus.PENDING [load_task] ∅.


(** A request of one task that depends on nothing. *)
Definition check_request : list TaskData := [task_data "check" "system_check" []].

(** The tasks the loop of [create_workflow] builds for [etl_request] on a
    fresh engine, in a stored workflow. *)
Definition extract_task : WorkflowTask :=
  mkTask "uuid-1" "extract" "system_check" ∅ [] 300 3 TaskStatus.PENDING None None 0.

Definition etl_load_task : WorkflowTask :=
  mkTask "uuid-2" "load" "data_backup" ∅ ["extract"] 300 3 TaskStatus.PENDING None None 0.

Definition etl_workflow : WorkflowModel :=
  mkWorkflow "uuid-0" "etl" WorkflowStatus.PENDING [extract_task; etl_load_task] ∅.

(** A request whose only task depends on itself. *)
Definition self_dependent_request : list TaskData :=
  [task_data "loop" "system_check" ["loop"]].

(** An engine whose store holds one cancelled workflow. *)
Definition backup_task : WorkflowTask :=
  mkTask "t1" "backup" "data_backup" ∅ [] 300 3 TaskStatus.PENDING None None 0.

Definition cancelled_workflow : WorkflowModel :=
  mkWorkflow "w2" "nightly" WorkflowStatus.CANCELLED [backup_task] ∅.

Definition cancelled_engine : WorkflowEngine :=
  set_db {[ "w2" := cancelled_workflow ]} (__init__ ∅).

(** An engine whose store holds one completed workflow, its task registered
    under a type this engine has no handler for. *)
Definition custom_task : WorkflowTask :=
  mkTask "t1" "export" "custom_export" ∅ [] 300 3 TaskStatus.COMPLETED
    (Some (ResultDict {[ "status" := PyStr "exported" ]})) None 0.

Definition completed_workflow : WorkflowModel :=
  mkWorkflow "w3" "export" WorkflowStatus.COMPLETED [custom_task] ∅.

Definition completed_engine : WorkflowEngine :=
  set_db {[ "w3" := completed_workflow ]} (__init__ ∅).

(** An engine in which the cancelled workflow is registered as executing. *)
Definition busy_engine : WorkflowEngine := set_active {[ "w2" ]} cancelled_engine.

(** An engine limited to one execution at a time, with two pending
    workflows in its store. *)
Definition polled_engine : WorkflowEngine :=
  set_db {[ "w1" := fetch_then_report; "w4" := dangling_workflow ]}
    (__init__ {[ "max_concurrent_workflows" := 1%Z ]}).

End Scenario.

Module RecoveryScenario.
Import ErrorHandling.

Definition critical_pattern : ErrorPattern :=
  mkErrorPattern "DiskFullError" "no space left" "" ∅ 0 "critical" 7 0 "pending".

Definition high_pattern : ErrorPattern :=
  mkErrorPattern "ConnectionError" "connection refused" "" ∅ 0 "high" 7 0 "pending".

(** A workflow whose row records the output of five completed tasks, and its
    only checkpoint, written at version 1. *)
Definition stale_data : Dict :=
  {[ "state" := PyStr "extract done";
     "timestamp" := PyInt 100;
     "version" := PyInt 1;
     "output_data" := PyStr "rows 0-99" ]}.

Definition etl_row : WorkflowRow :=
  mkWorkflowRow 7 "etl" "failed" (Some (PyStr "source")) (Some (PyStr "rows 0-499"))
    (Some "connection refused") None.

(** The tables behind a session whose rows are mappings. *)
Definition stale_db : Database :=
  mkDatabase true false [etl_row] [mkCheckpointRow 7 stale_data 100] [] [].

(** The same tables behind a session whose rows are tuples. *)
Definition tuple_rows_db : Database :=
  mkDatabase false false [etl_row] [mkCheckpointRow 7 stale_data 100] [] [].

(** A checkpoint whose output is a dictionary, and the tables with it as
    the latest checkpoint of the workflow. *)
Definition nested_data : Dict :=
  {[ "state" := PyStr "load done";
     "timestamp" := PyInt 200;
     "version" := PyInt 6;
     "output_data" := PyDict {[ "rows" := PyInt 500 ]} ]}.

Definition nested_db : Database :=
  mkDatabase true true [etl_row]
    [mkCheckpointRow 7 stale_data 100; mkCheckpointRow 7 nested_data 200] [] [].

(** The version carried by a checkpoint, when it has one. *)
Definition checkpoint_version (data : Dict) : option Z :=
  match data !! "version" with
  | Some (PyInt v) => Some v
  | _ => None
  end.

(** The rule of the specification, in its words: restoration is rejected
    when the checkpoint version is older than the version of the last durable
    task COMPLETED event. *)
Definition spec_rejects_restoration (checkpoint_version last_completed : Z) : bool :=
  (checkpoint_version <? last_completed)%Z.

End RecoveryScenario.

Module ClusterScenario.
Import Failover.

(** Two live nodes: [node-b] has the higher priority and the lower load. *)
Definition node_a : Node := mkNode "node-a" (Some 1%Z) (1 # 2).
Definition node_b : Node := mkNode "node-b" (Some 2%Z) (1 # 10).
Definition two_nodes : list Node := [node_a; node_b].

(** Two nodes that differ in their id only. *)
Definition twin_x : Node := mkNode "node-x" (Some 1%Z) (1 # 2).
Definition twin_y : Node := mkNode "node-y" (Some 1%Z) (1 # 2).

(** Two registered workers, and the node list after a third node has
    written its own entry. *)
Definition worker_1 : NodeEntry :=
  mkNodeEntry "node-1" None (Some "active") (Some 1%Z) (3 # 10)
    (Some {[ "etl" := 2%Z ]}) (Some "http://node-1").

Definition worker_2 : NodeEntry :=
  mkNodeEntry "node-2" None (Some "active") (Some 2%Z) (1 # 10)
    (Some ∅) (Some "http://node-2").

Definition busy_worker : NodeEntry :=
  mkNodeEntry "node-3" None (Some "active") (Some 3%Z) (9 # 10)
    (Some ∅) (Some "http://node-3").

Definition workers : list NodeEntry := [worker_1; busy_worker; worker_2].

Definition joined_cluster : Cluster :=
  _update_node_status "node-4" (1 # 10) ∅ "standby" (mkCluster workers None).

(** Failed jobs: one with retries left, one with a checkpoint that lacks
    its version, and one that has used its retries up. *)
Definition good_checkpoint : Dict :=
  {[ "state" := PyStr "step 3"; "timestamp" := PyInt 100; "version" := PyInt 2 ]}.

Definition job_a : JobState :=
  mkJobState "job-a" 7 "failed" good_checkpoint 0 3 1 [].

Definition job_b : JobState :=
  mkJobState "job-b" 7 "failed" {[ "state" := PyStr "step 1" ]} 1 3 5 [].

Definition job_c : JobState :=
  mkJobState "job-c" 8 "failed" good_checkpoint 3 3 9 [].

Definition job_table : JobStore :=
  mkJobStore [mkJobRow job_a 10 "node-1"; mkJobRow job_b 20 "node-1";
              mkJobRow job_c 30 "node-2"]
    [] {[ 7%Z := "etl" ]} [].

(** A network in which every node would answer "success". *)
Definition post_ok : string -> JobState -> bool := fun _ _ => true.

End ClusterScenario.

Module IntakeScenario.
Import Analytics.

Definition heartbeat : QueueItem :=
  mkQueueItem {[ "data_type" := PyStr "system_metrics" ]} "system_metrics" 0.

(** A freshly built engine whose queue already holds ten thousand items. *)
Definition saturated_engine : AnalyticsEngine :=
  set_queue (mkQueue (maxsize (processing_queue (__init__ ∅))) (repeat heartbeat (100 * 100)))
    (__init__ ∅).

Definition cpu_sample : PyValue := PyDict {[ "cpu_usage" := PyInt 93 ]}.

(** A store that would accept every batch. *)
Definition store_all (objs_in : list AnalyticsSchema) : option (list AnalyticsRow) :=
  Some (List.map (fun obj_in =>
                    mkAnalyticsRow "row" (ac_metric_name obj_in) (ac_metric_value obj_in) 0)
                 objs_in).

(** An engine with batches of two and three items queued. *)
Definition ping (n : Z) : QueueItem :=
  mkQueueItem {[ "data_type" := PyStr "system_metrics" ]} "system_metrics" n.

Definition small_batches : AnalyticsEngine :=
  set_queue (mkQueue 0 [ping 1; ping 2; ping 3]) (__init__ {[ "batch_size" := 2%Z ]}).

(** The same engine configured with a processing interval of zero. *)
Definition impatient : AnalyticsEngine :=
  set_queue (mkQueue 0 [ping 1; ping 2; ping 3])
    (__init__ {[ "batch_size" := 2%Z; "processing_interval_seconds" := 0%Z ]}).

(** Two rows written a moment before the clean-up runs. *)
Definition fresh_rows : list AnalyticsRow :=
  [mkAnalyticsRow "r1" "system_metrics" ∅ 999990;
   mkAnalyticsRow "r2" "system_metrics" ∅ 999999].

End IntakeScenario.

(* ===================================================================== *)
(** * Properties of the workflow engine                                  *)
(* ===================================================================== *)

Module WorkflowProps.
Import Workflow Scenario.

(** ** The scheduler loop always ends *)

Lemma process_result_id registry task :
  task_id (process_result (_execute_task registry task)) = task_id task.
Proof. execute_cases registry task. Qed.

Lemma run_ready_ids registry completed tasks :
  List.map task_id (run_ready registry completed tasks) = List.map task_id tasks.
Proof.
  unfold run_ready. rewrite List.map_map. apply List.map_ext.
  intros t. destruct (is_ready completed t); [apply process_result_id | reflexivity].
Qed.

Lemma run_ready_task_ids registry completed tasks :
  task_ids (run_ready registry completed tasks) = task_ids tasks.
Proof. unfold task_ids. by rewrite run_ready_ids. Qed.

Lemma task_ids_size tasks : (size (task_ids tasks) <= length tasks)%nat.
Proof.
  unfold task_ids. induction tasks as [|t ts IH]; cbn.
  - rewrite size_empty. lia.
  - rewrite size_union_alt, size_singleton.
    assert (size (list_to_set (List.map task_id ts) ∖ {[task_id t]} : gset string)
            <= size (list_to_set (List.map task_id ts) : gset string))%nat
      by (apply subseteq_size; set_solver).
    lia.
Qed.

Lemma ready_tasks_ids completed tasks :
  task_ids (ready_tasks completed tasks) ⊆ task_ids tasks.
Proof.
  unfold task_ids, ready_tasks. intros x. rewrite !elem_of_list_to_set.
  rewrite !list_elem_of_In, !List.in_map_iff.
  intros (t & <- & Ht). apply List.filter_In in Ht as [Ht _]. eauto.
Qed.

Lemma ready_tasks_fresh completed tasks t :
  t ∈ ready_tasks completed tasks → task_id t ∉ completed.
Proof.
  unfold ready_tasks. rewrite list_elem_of_In, List.filter_In.
  intros [_ H]. unfold is_ready in H. apply andb_prop in H as [H _].
  by apply bool_decide_eq_true in H.
Qed.

Lemma add_ready_bounded completed tasks :
  completed ⊆ task_ids tasks →
  add_ready completed (ready_tasks completed tasks) ⊆ task_ids tasks.
Proof.
  intros Hsub. pose proof (ready_tasks_ids completed tasks) as Hready.
  unfold add_ready, task_ids in *. set_solver.
Qed.

Lemma add_ready_grows completed tasks :
  ready_tasks completed tasks ≠ [] →
  (size completed < size (add_ready completed (ready_tasks completed tasks)))%nat.
Proof.
  intros Hne. destruct (ready_tasks completed tasks) as [|t ready] eqn:Hready; [done|].
  apply subset_size. unfold add_ready. split; [set_solver|].
  intros Hback.
  apply (ready_tasks_fresh completed tasks t); [rewrite Hready; left|].
  apply Hback. cbn. set_solver.
Qed.

Lemma scheduler_loop_fuel fuel registry completed tasks trace :
  completed ⊆ task_ids tasks →
  (size (task_ids tasks) - size completed < fuel)%nat →
  is_Some (scheduler_loop fuel registry completed tasks trace).
Proof.
  revert completed tasks trace.
  induction fuel as [|fuel IH]; intros completed tasks trace Hsub Hlt; [lia|].
  cbn [scheduler_loop]. case_bool_decide; [|eauto].
  pose proof (add_ready_bounded completed tasks Hsub) as Hbound.
  pose proof (add_ready_grows completed tasks) as Hgrow.
  destruct (ready_tasks completed tasks) as [|t ready] eqn:Hready; [eauto|].
  apply IH; rewrite run_ready_task_ids; [done|].
  apply subseteq_size in Hbound. specialize (Hgrow ltac:(done)). lia.
Qed.

Lemma scheduler_loop_terminates registry tasks :
  is_Some (scheduler_loop (S (length tasks)) registry ∅ tasks []).
Proof.
  apply scheduler_loop_fuel; [set_solver|].
  pose proof (task_ids_size tasks). rewrite size_empty. lia.
Qed.

(** [run_workflow] always returns: the bound on the number of rounds is never
    hit. *)
Lemma run_workflow_total registry workflow :
  is_Some (run_workflow registry workflow).
Proof.
  unfold run_workflow.
  change (wf_tasks (set_wf_status WorkflowStatus.RUNNING workflow))
    with (wf_tasks workflow).
  destruct (scheduler_loop_terminates registry (wf_tasks workflow)) as [[[ts c] tr] H].
  rewrite H. eauto.
Qed.

(** The final status is computed from the task statuses alone: FAILED when a
    task is FAILED, COMPLETED in every other case. *)
Lemma run_workflow_final_status registry workflow workflow' trace :
  run_workflow registry workflow = Some (workflow', trace) →
  wf_status workflow' =
    (if any_failed (wf_tasks workflow') then WorkflowStatus.FAILED
     else WorkflowStatus.COMPLETED)
  ∧ wf_id workflow' = wf_id workflow.
Proof.
  unfold run_workflow.
  destruct (scheduler_loop _ _ _ _ _) as [[[ts c] tr]|]; [|done].
  intros [= <- <-]. done.
Qed.

(** The stored status plays no part in a run. *)
Lemma run_workflow_ignores_status registry workflow s :
  run_workflow registry (set_wf_status s workflow) = run_workflow registry workflow.
Proof. reflexivity. Qed.

(** ** Dispatch and dependencies *)

(** What the loop does guarantee: a task is handed to [_execute_task] only
    after every task its dependencies name was handed to it in an earlier
    round, and such a task was left COMPLETED or FAILED. *)

Lemma process_result_status registry task :
  task_status (process_result (_execute_task registry task)) = TaskStatus.COMPLETED
  ∨ task_status (process_result (_execute_task registry task)) = TaskStatus.FAILED.
Proof. execute_cases registry task. Qed.

Lemma dispatched_ids_snoc trace r :
  dispatched_ids (trace ++ [r]) = dispatched_ids trace ∪ task_ids (round_dispatched r).
Proof.
  unfold dispatched_ids, task_ids.
  rewrite List.map_app, List.concat_app. cbn. rewrite app_nil_r.
  apply set_eq. intros x. rewrite elem_of_union, !elem_of_list_to_set, elem_of_app. done.
Qed.

Lemma dispatched_after_dependencies_snoc seen trace r :
  dispatched_after_dependencies seen (trace ++ [r])
  ↔ dispatched_after_dependencies seen trace
    ∧ ∀ task dep, task ∈ round_dispatched r → dep ∈ task_dependencies task →
                  dep ∈ seen ∪ dispatched_ids trace.
Proof.
  revert seen. induction trace as [|r' trace IH]; intros seen;
    cbn [dispatched_after_dependencies app].
  - assert (dispatched_ids [] = ∅) as -> by done.
    rewrite (right_id_L ∅ (∪)). tauto.
  - rewrite IH.
    assert (dispatched_ids (r' :: trace)
            = task_ids (round_dispatched r') ∪ dispatched_ids trace) as ->.
    { unfold dispatched_ids, task_ids. cbn.
      apply set_eq. intros x.
      rewrite elem_of_union, !elem_of_list_to_set, elem_of_app. done. }
    rewrite (assoc_L (∪)). tauto.
Qed.

Lemma ready_tasks_dependencies completed tasks task dep :
  task ∈ ready_tasks completed tasks → dep ∈ task_dependencies task → dep ∈ completed.
Proof.
  unfold ready_tasks. rewrite list_elem_of_In, List.filter_In.
  intros [_ H] Hdep. unfold is_ready in H. apply andb_prop in H as [_ H].
  rewrite forallb_forall in H. apply list_elem_of_In in Hdep.
  by apply H, bool_decide_eq_true in Hdep.
Qed.

Lemma scheduler_loop_trace fuel registry : ∀ completed tasks trace tasks' completed' trace',
  scheduler_loop fuel registry completed tasks trace = Some (tasks', completed', trace') →
  completed = dispatched_ids trace →
  dispatched_after_dependencies ∅ trace →
  completed' = dispatched_ids trace' ∧ dispatched_after_dependencies ∅ trace'.
Proof.
  induction fuel as [|fuel IH]; intros completed tasks trace tasks' completed' trace';
    [done|].
  cbn [scheduler_loop]. case_bool_decide; [|by intros [= <- <- <-]].
  pose proof (ready_tasks_dependencies completed tasks) as Hdeps.
  destruct (ready_tasks completed tasks) as [|t ready] eqn:Hready;
    [by intros [= <- <- <-]|].
  intros Hloop Hcompleted Htrace. apply IH in Hloop; [done| |].
  - rewrite dispatched_ids_snoc. unfold add_ready, task_ids. cbn [round_dispatched].
    by rewrite Hcompleted.
  - apply dispatched_after_dependencies_snoc. split; [done|].
    cbn [round_dispatched]. intros task dep Htask Hdep.
    rewrite (left_id_L ∅ (∪)), <- Hcompleted. eauto.
Qed.

Lemma run_workflow_dispatch_order registry workflow workflow' trace :
  run_workflow registry workflow = Some (workflow', trace) →
  dispatched_after_dependencies ∅ trace.
Proof.
  unfold run_workflow.
  destruct (scheduler_loop _ _ _ _ _) as [[[ts c] tr]|] eqn:Hloop; [|done].
  intros [= <- <-].
  by apply scheduler_loop_trace in Hloop as [_ ?].
Qed.

(** C1.  The claim: a task is dispatched only when every task its
    dependencies name is COMPLETED.  The loop records a failed task in
    [completed_tasks] as well, so a dependent of a FAILED task is dispatched:
    with a first task whose handler raises and a second one depending on it,
    the second round dispatches "B" while "A" is FAILED, and "B" runs to
    COMPLETED. *)
Theorem dependent_of_failed_task_is_dispatched :
  (fun '(workflow, trace) =>
     (List.map observe_round trace,
      respects_dependencies trace,
      observe_tasks (wf_tasks workflow)))
    <$> run_workflow flaky_registry fetch_then_report
  = Some ([ ([("A", TaskStatus.PENDING); ("B", TaskStatus.PENDING)], ["A"]);
            ([("A", TaskStatus.FAILED); ("B", TaskStatus.PENDING)], ["B"]) ],
          false,
          [("A", TaskStatus.FAILED); ("B", TaskStatus.COMPLETED)]).
Proof. vm_compute. reflexivity. Qed.

(** ** The final status *)

(** C3.  The claim: the final status is COMPLETED only if every task is
    COMPLETED.  The loop leaves with [break] when no task is ready and the
    final status then defaults to COMPLETED: a stored workflow whose only
    task has a dependency that no task carries ends COMPLETED without a
    single dispatch, the task still PENDING. *)
Theorem completed_with_pending_task :
  let observe workflow :=
    (wf_status workflow, observe_tasks (wf_tasks workflow),
     all_completed (wf_tasks workflow)) in
  (fun '(workflow, trace) => (observe workflow, length trace))
    <$> run_workflow default_tasks dangling_workflow
  = Some ((WorkflowStatus.COMPLETED, [("L", TaskStatus.PENDING)], false), 0%nat).
Proof. vm_compute. done. Qed.

(** ** Creation *)


Lemma make_task_inl uuid4 e calls task_data exn :
  make_task uuid4 e calls task_data = inl exn → lacks_key task_data.
Proof.
  unfold make_task, lacks_key.
  destruct (td_name task_data), (td_type task_data); intros [=]; auto.
Qed.


Lemma make_tasks_inl uuid4 e tasks : ∀ calls acc exn calls',
  make_tasks uuid4 e calls tasks acc = (inl exn, calls') →
  Exists lacks_key tasks.
Proof.
  induction tasks as [|task_data rest IH]; intros calls acc exn calls'; cbn; [done|].
  destruct (make_task uuid4 e calls task_data) as [exn'|task] eqn:Htask.
  - intros _. left. by eapply make_task_inl.
  - intros H. right. by eapply IH.
Qed.


(** Whatever the request, [create_workflow] raises: the table and the
    active workflows are as before and only identifiers have been drawn. *)
Lemma create_workflow_raises uuid4 validation_message crud_create e name tasks metadata :
  ∃ detail calls,
    create_workflow uuid4 validation_message crud_create e name tasks metadata
    = (inl (mkHTTPException 500 detail), set_uuid_calls calls e).
Proof.
  unfold create_workflow.
  destruct (make_tasks uuid4 e (S (uuid_calls e)) tasks []) as [[exn|ts] calls]; cbn; eauto.
Qed.

(** C2.  The claim: for every valid request a workflow is persisted with
    status PENDING.  [create_workflow] builds its [WorkflowCreate] without
    the field [template_id] the schema requires, so the constructor raises
    and the method answers every request, valid ones included, with the
    HTTP error 500; the table is left as it was.  For a request of one task
    that depends on nothing the detail is the text of the validation error
    and two identifiers have been drawn.  A request that is empty or whose
    task depends on itself is refused with the same error, not with one
    about its topology. *)
Theorem valid_request_is_not_persisted uuid4 validation_message crud_create :
  let create := create_workflow uuid4 validation_message crud_create in
  let refused kwargs :=
    @inl HTTPException Response
      (mkHTTPException 500 ("Failed to create workflow: " +:+ validation_message kwargs)) in
  let task n name deps :=
    mkTask (uuid4 n) name "system_check" ∅ deps 300 3 TaskStatus.PENDING None None 0 in
  (∀ e name tasks metadata,
     ∃ detail e',
       create e name tasks metadata = (inl (mkHTTPException 500 detail), e')
       ∧ db e' = db e ∧ active_workflows e' = active_workflows e)
  ∧ create (__init__ ∅) "check" check_request None
    = (refused (mkWorkflow (uuid4 0%nat) "check" WorkflowStatus.PENDING
                  [task 1%nat "check" []] ∅),
       set_uuid_calls 2 (__init__ ∅))
  ∧ create (__init__ ∅) "empty" [] None
    = (refused (mkWorkflow (uuid4 0%nat) "empty" WorkflowStatus.PENDING [] ∅),
       set_uuid_calls 1 (__init__ ∅))
  ∧ create (__init__ ∅) "loop" self_dependent_request None
    = (refused (mkWorkflow (uuid4 0%nat) "loop" WorkflowStatus.PENDING
                  [task 1%nat "loop" ["loop"]] ∅),
       set_uuid_calls 2 (__init__ ∅)).
Proof.
  cbn zeta. split; [|done].
  intros e name tasks metadata.
  destruct (create_workflow_raises uuid4 validation_message crud_create e name tasks
              metadata) as (detail & calls & ->).
  by exists detail, (set_uuid_calls calls e).
Qed.

(** ** Execution of a terminal workflow *)

(** C4, counterexample.  A CANCELLED workflow is executed on request: the
    answer is "success" and the run leaves it COMPLETED with its task
    COMPLETED.  A COMPLETED workflow executed again by an engine that has no
    handler for its task ends FAILED with that task FAILED. *)
Lemma terminal_workflow_is_executed :
  let observe '(r, e) id :=
    (r, (fun workflow => (wf_status workflow, observe_tasks (wf_tasks workflow)))
          <$> db e !! id) in
  let started id :=
    inr (mkResponse "success" "Workflow execution started" (Some id)) in
  terminal (wf_status cancelled_workflow) = true
  ∧ (fun x => observe x "w2") <$> execute_to_completion cancelled_engine "w2"
    = Some (started "w2",
            Some (WorkflowStatus.COMPLETED, [("t1", TaskStatus.COMPLETED)]))
  ∧ terminal (wf_status completed_workflow) = true
  ∧ (fun x => observe x "w3") <$> execute_to_completion completed_engine "w3"
    = Some (started "w3",
            Some (WorkflowStatus.FAILED, [("t1", TaskStatus.FAILED)])).
Proof. vm_compute. done. Qed.

Lemma _execute_workflow_tasks_stores e workflow :
  ∃ workflow' trace,
    run_workflow (task_registry e) workflow = Some (workflow', trace)
    ∧ _execute_workflow_tasks e workflow
      = Some (set_active (active_workflows e ∖ {[ wf_id workflow ]})
                (set_db (<[wf_id workflow := workflow']> (db e)) e), trace).
Proof.
  destruct (run_workflow_total (task_registry e) workflow) as [[workflow' trace] Hrun].
  exists workflow', trace. split; [done|].
  unfold _execute_workflow_tasks. rewrite Hrun.
  by destruct (run_workflow_final_status _ _ _ _ Hrun) as [_ ->].
Qed.

(** ** Task ids and dependency strings *)




(** Such a task is never ready: whatever tasks have been recorded in
    [completed_tasks], a dependency string that is no task id is not among
    them. *)
Lemma unresolved_dependency_never_ready completed tasks task dep :
  completed ⊆ task_ids tasks →
  dep ∈ task_dependencies task →
  (∀ task', task' ∈ tasks → task_id task' ≠ dep) →
  is_ready completed task = false.
Proof.
  intros Hsub Hdep Hno. unfold is_ready.
  apply andb_false_iff. right. apply not_true_is_false. intros Hall.
  rewrite forallb_forall in Hall. specialize (Hall dep).
  rewrite <- list_elem_of_In in Hall. specialize (Hall Hdep).
  apply bool_decide_eq_true in Hall. apply Hsub in Hall.
  unfold task_ids in Hall. rewrite elem_of_list_to_set in Hall.
  apply list_elem_of_In, List.in_map_iff in Hall as (task' & Hid & Hin).
  apply (Hno task'); [by apply list_elem_of_In|done].
Qed.

End WorkflowProps.

(* ===================================================================== *)
(** * Properties of the retry controller                                 *)
(* ===================================================================== *)

Module ErrorHandlingProps.
Import ErrorHandling RecoveryScenario.

(** ** Severity *)

(** C6, counterexample.  A permission error is classified "medium", not
    "critical", and so is a refused connection, whose class name is not
    [ConnectionError]. *)
Lemma permission_error_is_medium :
  _determine_severity (mkException "PermissionError" "access denied") = "medium"
  ∧ _determine_severity (mkException "ConnectionRefusedError" "refused") = "medium".
Proof. vm_compute. done. Qed.

Lemma determine_severity_cases error :
  _determine_severity error =
    (if decide (exc_type error = "ConnectionError") then "high"
     else if decide (exc_type error = "ValueError" ∨ exc_type error = "TypeError")
          then "low"
          else "medium").
Proof.
  unfold _determine_severity, severity_rules.
  destruct (decide (exc_type error = "ConnectionError")) as [->|Hc]; [done|].
  rewrite lookup_insert_ne by done.
  destruct (decide (exc_type error = "TimeoutError")) as [->|Ht]; [done|].
  rewrite lookup_insert_ne by done.
  destruct (decide (exc_type error = "ValueError")) as [->|Hv]; [done|].
  rewrite lookup_insert_ne by done.
  destruct (decide (exc_type error = "KeyError")) as [->|Hk]; [done|].
  rewrite lookup_insert_ne by done.
  destruct (decide (exc_type error = "TypeError")) as [->|Hy]; [done|].
  rewrite lookup_singleton_ne by done.
  case_decide as Hor; [destruct Hor; done|done].
Qed.

(** C6, as the code has it.  The severity is read off the class name of the
    error: [ConnectionError] is "high", [ValueError] and [TypeError] are
    "low", and every other name, [TimeoutError], [KeyError] and the
    permission errors among them, is "medium".  No error is "critical". *)
Theorem severity_by_class_name error :
  _determine_severity error =
    (if decide (exc_type error = "ConnectionError") then "high"
     else if decide (exc_type error = "ValueError" ∨ exc_type error = "TypeError")
          then "low"
          else "medium")
  ∧ _determine_severity error ≠ "critical".
Proof.
  split; [apply determine_severity_cases|].
  rewrite determine_severity_cases. repeat case_decide; done.
Qed.

(** ** Strategy selection *)

(** C7, counterexample.  A pattern flagged anomalous keeps the automatic
    stage of its severity: "immediate" when critical, "delayed" when high. *)
Lemma anomalous_pattern_is_retried :
  stage (_get_retry_strategy critical_pattern true) = "immediate"
  ∧ stage (_get_retry_strategy high_pattern true) = "delayed".
Proof. vm_compute. done. Qed.

Lemma get_retry_strategy_stage pattern is_anomaly :
  stage (_get_retry_strategy pattern is_anomaly) =
    (if decide (severity pattern = "critical") then "immediate"
     else if decide (severity pattern = "high") then "delayed"
          else "manual").
Proof.
  unfold _get_retry_strategy.
  destruct (String.eqb_spec (severity pattern) "critical") as [->|Hc]; [done|].
  destruct (String.eqb_spec (severity pattern) "high") as [->|Hh]; [done|].
  cbn. repeat case_decide; done.
Qed.

(** C7, as the code has it.  The stage is chosen by the severity alone:
    "immediate" for critical, "delayed" for high, "manual" for every other
    severity; the anomaly flag is copied into the conditions of the
    strategy and changes nothing else. *)
Theorem stage_depends_on_severity_only pattern is_anomaly :
  stage (_get_retry_strategy pattern is_anomaly) =
    (if decide (severity pattern = "critical") then "immediate"
     else if decide (severity pattern = "high") then "delayed"
          else "manual")
  ∧ cond_is_anomaly (conditions (_get_retry_strategy pattern is_anomaly)) = is_anomaly
  ∧ ∀ flag,
      let with_flag := _get_retry_strategy pattern flag in
      let strategy := _get_retry_strategy pattern is_anomaly in
      stage with_flag = stage strategy
      ∧ max_retries with_flag = max_retries strategy
      ∧ backoff_factor with_flag = backoff_factor strategy
      ∧ initial_delay with_flag = initial_delay strategy
      ∧ max_delay with_flag = max_delay strategy.
Proof.
  split; [apply get_retry_strategy_stage|].
  unfold _get_retry_strategy.
  destruct (String.eqb (severity pattern) "critical"); [done|].
  destruct (String.eqb (severity pattern) "high"); done.
Qed.

(** Through [handle_error] the anomaly detector has no say either, and the
    "immediate" stage is out of reach: the severity computed there is never
    "critical". *)
Lemma handle_error_stage predict db error trace now workflow_id context :
  stage (handle_error predict db error trace now workflow_id context).1.2 =
    (if decide (exc_type error = "ConnectionError") then "delayed" else "manual").
Proof.
  unfold handle_error. cbn [fst snd].
  rewrite get_retry_strategy_stage. cbn [severity].
  rewrite determine_severity_cases.
  repeat case_decide; done.
Qed.


(** ** Checkpoint restoration *)

Lemma latest_checkpoint_None rows workflow_id :
  latest_checkpoint rows workflow_id = None
  ↔ ∀ row, row ∈ rows → cp_workflow_id row ≠ workflow_id.
Proof.
  induction rows as [|row rest IH]; cbn.
  - split; [|done]. intros _ row Hin. by apply elem_of_nil in Hin.
  - destruct (Z.eqb_spec (cp_workflow_id row) workflow_id) as [Heq|Hne].
    + split.
      * destruct (latest_checkpoint rest workflow_id) as [best|];
          [destruct (_ <? _)%Z|]; done.
      * intros Hall. exfalso. apply (Hall row); [left|done].
    + rewrite IH. split.
      * intros Hall row' Hin. apply elem_of_cons in Hin as [->|Hin]; auto.
      * intros Hall row' Hin. apply Hall. by right.
Qed.

Lemma latest_checkpoint_Some rows workflow_id best :
  latest_checkpoint rows workflow_id = Some best →
  best ∈ rows
  ∧ cp_workflow_id best = workflow_id
  ∧ ∀ row, row ∈ rows → cp_workflow_id row = workflow_id →
           (cp_created_at row <= cp_created_at best)%Z.
Proof.
  revert best. induction rows as [|row rest IH]; intros best; cbn; [done|].
  destruct (Z.eqb_spec (cp_workflow_id row) workflow_id) as [Heq|Hne].
  - destruct (latest_checkpoint rest workflow_id) as [best'|] eqn:Hrest.
    + destruct (IH best' eq_refl) as (Hin & Hid & Hmax).
      destruct (Z.ltb_spec (cp_created_at row) (cp_created_at best')) as [Hlt|Hge];
        intros [= <-].
      * split; [by right|]. split; [done|].
        intros row' Hin' Hid'. apply elem_of_cons in Hin' as [->|Hin']; [lia|auto].
      * split; [left|]. split; [done|].
        intros row' Hin' Hid'. apply elem_of_cons in Hin' as [->|Hin']; [lia|].
        specialize (Hmax row' Hin' Hid'). lia.
    + intros [= <-]. split; [left|]. split; [done|].
      intros row' Hin' Hid'. apply elem_of_cons in Hin' as [->|Hin']; [lia|].
      exfalso. by apply (proj1 (latest_checkpoint_None rest workflow_id) Hrest row').
  - intros Hbest. destruct (IH best Hbest) as (Hin & Hid & Hmax).
    split; [by right|]. split; [done|].
    intros row' Hin' Hid'. apply elem_of_cons in Hin' as [->|Hin']; [done|auto].
Qed.

Lemma latest_checkpoint_is_Some db workflow_id :
  has_checkpoint db workflow_id →
  is_Some (latest_checkpoint (workflow_checkpoints db) workflow_id).
Proof.
  intros (row & Hin & Hid).
  destruct (latest_checkpoint _ _) as [best|] eqn:Hbest; [eauto|].
  exfalso. by apply (proj1 (latest_checkpoint_None _ _) Hbest row).
Qed.

Lemma binds_scalar db value : scalar value → binds db value = true.
Proof. by destruct value as [[]|]. Qed.

Lemma binds_columns_scalar db checkpoint_data :
  scalar_columns checkpoint_data → binds_columns db checkpoint_data = true.
Proof.
  intros (Hin & Hout & Hres). unfold binds_columns.
  by rewrite !binds_scalar.
Qed.

(** A dictionary among the three entries makes the [UPDATE] raise. *)
Lemma binds_columns_dict db checkpoint_data key d :
  key ∈ ["input_data"; "output_data"; "resource_usage"] →
  checkpoint_data !! key = Some (PyDict d) →
  binds_columns db checkpoint_data = false.
Proof.
  intros Hkey Hd. unfold binds_columns.
  apply elem_of_cons in Hkey as [->|Hkey]; [by rewrite Hd|].
  apply elem_of_cons in Hkey as [->|Hkey]; [by rewrite Hd, andb_false_r|].
  apply list_elem_of_singleton in Hkey as ->. by rewrite Hd, andb_false_r.
Qed.

Lemma update_workflows_checkpoints f workflow_id db :
  workflow_checkpoints (update_workflows f workflow_id db) = workflow_checkpoints db.
Proof. reflexivity. Qed.

Lemma get_workflow_details_Some db workflow_id workflow :
  _get_workflow_details db workflow_id = Some workflow →
  row_is_mapping db = true ∧ workflow ∈ workflows db ∧ row_id workflow = workflow_id.
Proof.
  unfold _get_workflow_details.
  destruct (List.find _ _) as [result|] eqn:Hfind; [|done].
  destruct (row_is_mapping db); [|done]. intros [= <-].
  apply List.find_some in Hfind as [Hin Hid].
  split; [done|]. split; [by apply list_elem_of_In|]. by apply Z.eqb_eq.
Qed.

Lemma get_workflow_details_None db workflow_id :
  _get_workflow_details db workflow_id = None →
  row_is_mapping db = false ∨ ¬ has_workflow db workflow_id.
Proof.
  unfold _get_workflow_details, has_workflow.
  destruct (List.find _ _) as [result|] eqn:Hfind.
  - destruct (row_is_mapping db); [done|]. by left.
  - intros _. right. intros (row & Hin & Hid). apply list_elem_of_In in Hin.
    pose proof (List.find_none _ _ Hfind row Hin) as Hne. cbn in Hne.
    apply Z.eqb_neq in Hne. done.
Qed.

Lemma get_workflow_details_is_Some db workflow_id :
  is_Some (_get_workflow_details db workflow_id)
  ↔ row_is_mapping db = true ∧ has_workflow db workflow_id.
Proof.
  split.
  - intros [workflow Hget]. apply get_workflow_details_Some in Hget as (? & ? & ?).
    split; [done|]. by exists workflow.
  - intros [Hmap Hwf].
    destruct (_get_workflow_details db workflow_id) eqn:Hget; [eauto|].
    apply get_workflow_details_None in Hget as [?|?]; [congruence|done].
Qed.

Lemma validate_checkpoint_true data :
  Failover._validate_checkpoint data = true
  ↔ is_Some (data !! "state") ∧ is_Some (data !! "timestamp")
    ∧ is_Some (data !! "version").
Proof.
  unfold Failover._validate_checkpoint, Failover.required_fields. cbn.
  rewrite !andb_true_iff, !bool_decide_eq_true. tauto.
Qed.

(** C5, counterexample.  The workflow's only checkpoint has version 1 and
    the last COMPLETED event has version 5, so the rule of the specification
    rejects it; the code restores it, accepts it on the failover path as
    well, and the output recorded for the completed tasks is replaced by the
    checkpoint's. *)
Lemma stale_checkpoint_is_restored :
  let last_completed := 5%Z in
  (fun version => spec_rejects_restoration version last_completed)
    <$> checkpoint_version stale_data = Some true
  ∧ (_restore_from_checkpoint stale_db etl_row).1 = true
  ∧ Failover._validate_checkpoint stale_data = true
  ∧ List.map row_output_data (workflows (_restore_from_checkpoint stale_db etl_row).2)
    = [Some (PyStr "rows 0-99")].
Proof. vm_compute. done. Qed.

(** C5, as the code has it.  [_restore_from_checkpoint] reads the checkpoint
    of the workflow with the latest [created_at] and refuses when the
    workflow has none.  A checkpoint whose entries "input_data",
    "output_data" and "resource_usage" are absent, [None], numbers or
    strings is written back to the row, whatever version it carries.  The
    failover path accepts checkpoint data exactly when it has the keys
    "state", "timestamp" and "version".  Neither path compares a
    version. *)
Theorem restoration_compares_no_version db workflow data :
  match latest_checkpoint (workflow_checkpoints db) (row_id workflow) with
  | None =>
      ¬ has_checkpoint db (row_id workflow)
      ∧ _restore_from_checkpoint db workflow = (false, db)
  | Some best =>
      best ∈ workflow_checkpoints db
      ∧ cp_workflow_id best = row_id workflow
      ∧ (∀ row, row ∈ workflow_checkpoints db →
                cp_workflow_id row = row_id workflow →
                (cp_created_at row <= cp_created_at best)%Z)
      ∧ (scalar_columns (cp_checkpoint_data best) →
         _restore_from_checkpoint db workflow
         = (true, update_workflows (restore_columns (cp_checkpoint_data best))
                    (row_id workflow) db))
  end
  ∧ (Failover._validate_checkpoint data = true
     ↔ is_Some (data !! "state") ∧ is_Some (data !! "timestamp")
       ∧ is_Some (data !! "version")).
Proof.
  split; [|apply validate_checkpoint_true].
  unfold _restore_from_checkpoint.
  destruct (latest_checkpoint _ _) as [best|] eqn:Hbest.
  - apply latest_checkpoint_Some in Hbest as (Hin & Hid & Hmax).
    split; [done|]. split; [done|]. split; [done|].
    intros Hscalar. by rewrite binds_columns_scalar.
  - split; [|done]. intros Hcp. apply latest_checkpoint_is_Some in Hcp as [best Hcp].
    congruence.
Qed.

End ErrorHandlingProps.

(* ===================================================================== *)
(** * Properties of the failover manager                                 *)
(* ===================================================================== *)

Module FailoverProps.
Import Failover ClusterScenario.

(** ** The order on sort keys *)

Lemma Qle_bool_total a b : Qle_bool a b = false → Qle_bool b a = true.
Proof.
  intros H. apply Qle_bool_iff. apply Qlt_le_weak, Qnot_le_lt.
  intros Hle. apply Qle_bool_iff in Hle. congruence.
Qed.

Lemma key_lt_irrefl a : key_lt a a = false.
Proof.
  unfold key_lt. rewrite Z.ltb_irrefl, Z.eqb_refl. cbn.
  apply negb_false_iff, Qle_bool_iff, Qle_refl.
Qed.

Lemma key_lt_asym a b : key_lt a b = true → key_lt b a = false.
Proof.
  unfold key_lt. intros H.
  apply orb_true_iff in H as [H|H].
  - apply Z.ltb_lt in H.
    apply orb_false_iff. split; [apply Z.ltb_ge; lia|].
    apply andb_false_iff. left. apply Z.eqb_neq. lia.
  - apply andb_true_iff in H as [Heq Hq]. apply Z.eqb_eq in Heq.
    apply negb_true_iff in Hq. apply Qle_bool_total in Hq.
    apply orb_false_iff. split; [apply Z.ltb_ge; lia|].
    apply andb_false_iff. right. by apply negb_false_iff.
Qed.

(** If [b] is not below [c] and [a] is not below [b], then [a] is not below
    [c]. *)
Lemma key_lt_neg_trans a b c :
  key_lt a b = false → key_lt b c = false → key_lt a c = false.
Proof.
  unfold key_lt. intros Hab Hbc.
  apply orb_false_iff in Hab as [Hab1 Hab2].
  apply orb_false_iff in Hbc as [Hbc1 Hbc2].
  apply Z.ltb_ge in Hab1, Hbc1.
  apply orb_false_iff. split; [apply Z.ltb_ge; lia|].
  apply andb_false_iff.
  destruct (Z.eqb_spec a.1 c.1) as [Hac|Hac]; [right|by left].
  assert (a.1 = b.1) as Hab by lia. assert (b.1 = c.1) as Hbc by lia.
  rewrite Hab, Z.eqb_refl in Hab2. rewrite Hbc, Z.eqb_refl in Hbc2. cbn in *.
  apply negb_false_iff in Hab2, Hbc2. apply negb_false_iff.
  apply Qle_bool_iff in Hab2, Hbc2. apply Qle_bool_iff.
  eapply Qle_trans; eassumption.
Qed.

(** ** What [sorted(...)[0]] is *)

Lemma insert_keyed_elem x y l : y ∈ insert_keyed x l ↔ y = x ∨ y ∈ l.
Proof.
  induction l as [|z l IH]; cbn.
  - rewrite list_elem_of_singleton. set_solver.
  - destruct (key_lt z.1 x.1); rewrite !elem_of_cons; [rewrite IH|]; tauto.
Qed.

Lemma py_sorted_elem y l : y ∈ py_sorted l ↔ y ∈ l.
Proof.
  induction l as [|x l IH]; [done|].
  change (py_sorted (x :: l)) with (insert_keyed x (py_sorted l)).
  rewrite insert_keyed_elem, elem_of_cons, IH. done.
Qed.

(** The head of the sorted list has a key no other key is below: it is a
    minimum of the keys. *)
Lemma py_sorted_head_minimal l first rest :
  py_sorted l = first :: rest →
  first ∈ l ∧ ∀ y, y ∈ l → key_lt y.1 first.1 = false.
Proof.
  revert first rest. induction l as [|x l IH]; intros first rest; [done|].
  change (py_sorted (x :: l)) with (insert_keyed x (py_sorted l)).
  destruct (py_sorted l) as [|z sorted] eqn:Hsorted; cbn [insert_keyed].
  - intros [= <- <-].
    assert (l = []) as ->.
    { destruct l as [|y l]; [done|].
      assert (y ∈ py_sorted (y :: l)) as Hin by (apply py_sorted_elem; left).
      rewrite Hsorted in Hin. by apply elem_of_nil in Hin. }
    split; [left|]. intros y Hy. apply list_elem_of_singleton in Hy as ->.
    apply key_lt_irrefl.
  - destruct (IH z sorted eq_refl) as [Hz Hmin].
    destruct (key_lt z.1 x.1) eqn:Hlt.
    + intros [= <- <-]. split; [by right|].
      intros y Hy. apply elem_of_cons in Hy as [->|Hy]; [by apply key_lt_asym|auto].
    + intros [= <- <-]. split; [left|].
      intros y Hy. apply elem_of_cons in Hy as [->|Hy]; [apply key_lt_irrefl|].
      eapply key_lt_neg_trans; [apply Hmin, Hy|done].
Qed.

Lemma with_keys_elem nodes keyed :
  with_keys nodes = Some keyed →
  ∀ k x, (k, x) ∈ keyed ↔ x ∈ nodes ∧ sort_key x = Some k.
Proof.
  revert keyed. induction nodes as [|n nodes IH]; intros keyed; cbn.
  - intros [= <-] k x. split; [intros H; by apply elem_of_nil in H|].
    intros [H _]. by apply elem_of_nil in H.
  - destruct (sort_key n) as [kn|] eqn:Hkn; [|done].
    destruct (with_keys nodes) as [keyed'|]; [|done].
    intros [= <-] k x. rewrite !elem_of_cons, (IH keyed' eq_refl). split.
    + intros [[= -> ->]|[Hin Hk]]; [by split; [left|]|by split; [right|]].
    + intros [[->|Hin] Hk]; [left; congruence|right; done].
Qed.

(** The node [_should_become_primary] answers [True] for carries the id of a
    node whose key [(priority, -load)] is a minimum over the list: the lowest
    priority and, at equal priority, the highest load. *)
Lemma primary_has_minimal_key nodes current_node :
  _should_become_primary nodes current_node = true →
  ∃ first k,
    first ∈ nodes ∧ sort_key first = Some k
    ∧ node_id first = node_id current_node
    ∧ ∀ x kx, x ∈ nodes → sort_key x = Some kx → key_lt kx k = false.
Proof.
  unfold _should_become_primary.
  destruct (with_keys nodes) as [keyed|] eqn:Hkeys; [|done].
  destruct (py_sorted keyed) as [|[k first] rest] eqn:Hsorted; [done|].
  intros Hid. apply String.eqb_eq in Hid.
  apply py_sorted_head_minimal in Hsorted as [Hin Hmin].
  apply (with_keys_elem _ _ Hkeys) in Hin as [Hin Hk].
  exists first, k. repeat split; try done.
  intros x kx Hx Hkx. apply (Hmin (kx, x)).
  apply (with_keys_elem _ _ Hkeys). done.
Qed.

(** C8.  The claim: the node elected is the one with the highest
    [(priority, -load, node_id)].  The list is sorted in ascending order and
    its first element taken, so the node elected is the one with the lowest
    key: of two live nodes, [node-b] has the higher priority and the lower
    load, yet the predicate holds for [node-a] and fails for [node-b]. *)
Theorem lowest_key_is_elected :
  sort_key node_a = Some (1%Z, - (1 # 2))
  ∧ sort_key node_b = Some (2%Z, - (1 # 10))
  ∧ key_lt (1%Z, - (1 # 2)) (2%Z, - (1 # 10)) = true
  ∧ _should_become_primary two_nodes node_b = false
  ∧ _should_become_primary two_nodes node_a = true
  ∧ _should_become_primary [node_b; node_a] node_b = false.
Proof. vm_compute. done. Qed.

(** The node id is no part of the key: of two nodes that differ in their id
    only, the one listed first is elected. *)
Lemma ties_follow_list_order :
  _should_become_primary [twin_x; twin_y] twin_x = true
  ∧ _should_become_primary [twin_y; twin_x] twin_y = true
  ∧ _should_become_primary [twin_x; twin_y] twin_y = false.
Proof. vm_compute. done. Qed.

(** Without live nodes, or with a node that carries no priority, the
    predicate is false for every node. *)
Lemma no_election current_node :
  _should_become_primary [] current_node = false
  ∧ _should_become_primary [mkNode "node-c" None 0] current_node = false.
Proof. done. Qed.

End FailoverProps.

(* ===================================================================== *)
(** * Properties of the analytics intake                                 *)
(* ===================================================================== *)

Module AnalyticsProps.
Import Analytics IntakeScenario.

(** The queue [__init__] creates is never full, whatever the configuration
    and whatever it holds. *)
Lemma init_queue_never_full config queued :
  maxsize (processing_queue (__init__ config)) = 0%Z
  ∧ full (mkQueue (maxsize (processing_queue (__init__ config))) queued) = false.
Proof. done. Qed.

(** C9, counterexample.  With ten thousand items queued, one more submit is
    answered "success" and the queue holds ten thousand and one; a
    configuration that names a capacity changes nothing. *)
Lemma full_queue_still_accepts :
  Z.of_nat (qsize (processing_queue saturated_engine)) = 10000%Z
  ∧ (fun '(response, e) =>
       (pr_status response, Z.of_nat <$> pr_queue_size response,
        Z.of_nat (qsize (processing_queue e))))
      <$> process_data saturated_engine "2024-01-01T00:00:00" 0 cpu_sample
            "system_metrics"
    = Some ("success", Some 10001%Z, 10001%Z)
  ∧ maxsize (processing_queue
               (__init__ {[ "queue_capacity" := 100%Z; "maxsize" := 100%Z ]})) = 0%Z.
Proof. vm_compute. done. Qed.

(** C9, as the code has it.  The intake queue is unbounded and no
    configuration key bounds it: on an engine built by [__init__], whatever
    the queue already holds, [process_data] never waits and never refuses
    for lack of room.  When preprocessing succeeds, the item is appended and
    the answer is "success" with the new queue size; when it raises, the
    answer is "error" and the queue is unchanged. *)
Theorem intake_queue_is_unbounded config queued processed_at now data data_type :
  let e := set_queue (mkQueue (maxsize (processing_queue (__init__ config))) queued)
             (__init__ config) in
  match _preprocess_data processed_at data data_type with
  | inr processed =>
      process_data e processed_at now data data_type
      = Some (mkProcessResponse "success" "Data queued for processing"
                (Some (S (length queued))) (Some data_type),
              set_queue (mkQueue 0 (queued ++ [mkQueueItem processed data_type now])) e)
  | inl exn =>
      process_data e processed_at now data data_type
      = Some (mkProcessResponse "error" (exc_str exn) None None, e)
  end.
Proof.
  intros e. unfold process_data.
  destruct (_preprocess_data processed_at data data_type) as [exn|processed]; [done|].
  unfold put, e. cbn. unfold qsize. cbn. rewrite length_app. cbn.
  by replace (length queued + 1)%nat with (S (length queued)) by lia.
Qed.

(** Preprocessing raises on a payload that is no dictionary and nowhere
    else, save for the [len] of an "errors" entry without a length. *)
Lemma preprocess_rejects_non_dict processed_at data data_type exn :
  _preprocess_data processed_at data data_type = inl exn →
  (∀ d, data ≠ PyDict d) ∧ exn = mkException "ValueError" "Data must be a dictionary"
  ∨ (∃ d, data = PyDict d ∧ data_type = "workflow_execution"
          ∧ py_len (get_default d "errors" (PyList [])) = None).
Proof.
  unfold _preprocess_data.
  destruct data as [| | | |d]; try (intros [= <-]; left; done).
  destruct (String.eqb_spec data_type "workflow_execution") as [->|Hw].
  - unfold _process_workflow_data.
    destruct (py_len _) eqn:Hlen; [done|]. intros _. right. eauto.
  - destruct (String.eqb data_type "system_metrics"); [done|].
    destruct (String.eqb data_type "user_activity"); done.
Qed.

End AnalyticsProps.

(* ===================================================================== *)
(** * Further properties of the workflow engine                          *)
(* ===================================================================== *)

Module WorkflowExtra.
Import Workflow Scenario WorkflowProps.

(** ** The shape of a run *)

Lemma process_result_fields registry task :
  let task' := process_result (_execute_task registry task) in
  task_id task' = task_id task
  ∧ task_name task' = task_name task
  ∧ task_type task' = task_type task
  ∧ task_config task' = task_config task
  ∧ task_dependencies task' = task_dependencies task
  ∧ task_timeout task' = task_timeout task
  ∧ task_retries task' = task_retries task
  ∧ task_retry_count task' = task_retry_count task.
Proof. execute_cases registry task. Qed.

Lemma run_ready_lookup registry completed tasks i :
  run_ready registry completed tasks !! i
  = (fun task => if is_ready completed task
                 then process_result (_execute_task registry task) else task)
      <$> tasks !! i.
Proof. unfold run_ready. apply list_lookup_fmap. Qed.

Lemma run_ready_dependencies registry completed tasks :
  List.map task_dependencies (run_ready registry completed tasks)
  = List.map task_dependencies tasks.
Proof.
  unfold run_ready. rewrite List.map_map. apply List.map_ext.
  intros t. destruct (is_ready completed t); [|done].
  apply (process_result_fields registry t).
Qed.

Lemma dispatched_ids_cons r rest :
  dispatched_ids (r :: rest) = task_ids (round_dispatched r) ∪ dispatched_ids rest.
Proof.
  unfold dispatched_ids, task_ids. cbn. apply set_eq. intros x.
  rewrite elem_of_union, !elem_of_list_to_set, elem_of_app. done.
Qed.

(** What one call of the loop adds to the trace. *)
Lemma scheduler_loop_rounds fuel registry :
  ∀ completed tasks trace tasks' completed' trace',
    scheduler_loop fuel registry completed tasks trace
    = Some (tasks', completed', trace') →
    ∃ rounds,
      trace' = trace ++ rounds
      ∧ scheduled_rounds completed rounds
      ∧ completed' = completed ∪ dispatched_ids rounds
      ∧ Forall (fun r => List.map task_id (round_snapshot r) = List.map task_id tasks)
               rounds
      ∧ List.map task_id tasks' = List.map task_id tasks
      ∧ List.map task_dependencies tasks' = List.map task_dependencies tasks
      ∧ (¬ (size completed' < length tasks')%nat ∨ ready_tasks completed' tasks' = []).
Proof.
  induction fuel as [|fuel IH]; intros completed tasks trace tasks' completed' trace';
    [done|].
  cbn [scheduler_loop]. case_bool_decide as Hsize.
  - destruct (ready_tasks completed tasks) as [|t ready] eqn:Hready.
    + intros [= <- <- <-]. exists []. rewrite app_nil_r.
      assert (dispatched_ids [] = ∅) as -> by done.
      rewrite (right_id_L ∅ (∪)). repeat split; auto.
    + intros Hloop. apply IH in Hloop
        as (rounds & -> & Hrounds & -> & Hsnap & Hids & Hdeps & Hexit).
      exists (mkRound tasks (t :: ready) :: rounds).
      rewrite <- app_assoc. split; [done|].
      split; [cbn [scheduled_rounds round_dispatched round_snapshot]; by rewrite Hready|].
      split.
      { rewrite dispatched_ids_cons. cbn [round_dispatched].
        unfold add_ready, task_ids. by rewrite (assoc_L (∪)). }
      split.
      { constructor; [done|].
        eapply Forall_impl; [exact Hsnap|]. cbn. intros r ->. apply run_ready_ids. }
      rewrite Hids, Hdeps, run_ready_ids, run_ready_dependencies. done.
  - intros [= <- <- <-]. exists []. rewrite app_nil_r.
    assert (dispatched_ids [] = ∅) as -> by done.
    rewrite (right_id_L ∅ (∪)). repeat split; auto.
Qed.

Lemma scheduled_rounds_length seen rounds bound :
  scheduled_rounds seen rounds →
  Forall (fun r => task_ids (round_snapshot r) = bound) rounds →
  seen ⊆ bound →
  (length rounds + size seen <= size bound)%nat.
Proof.
  revert seen. induction rounds as [|r rounds IH]; intros seen Hrounds Hsnap Hsub.
  - cbn. by apply subseteq_size.
  - destruct Hrounds as (Hready & Hne & Hrest). inversion_clear Hsnap as [|? ? Hr Hrs].
    rewrite Hready in Hne, Hrest.
    pose proof (add_ready_grows seen (round_snapshot r) Hne) as Hgrow.
    assert (seen ⊆ task_ids (round_snapshot r)) as Hsub' by by rewrite Hr.
    pose proof (add_ready_bounded seen (round_snapshot r) Hsub') as Hbound.
    rewrite Hr in Hbound.
    specialize (IH _ Hrest Hrs Hbound). cbn [length]. lia.
Qed.


Lemma run_workflow_rounds registry workflow workflow' trace :
  run_workflow registry workflow = Some (workflow', trace) →
  let tasks := wf_tasks workflow in
  let tasks' := wf_tasks workflow' in
  scheduled_rounds ∅ trace
  ∧ Forall (fun r => List.map task_id (round_snapshot r) = List.map task_id tasks) trace
  ∧ List.map task_id tasks' = List.map task_id tasks
  ∧ List.map task_dependencies tasks' = List.map task_dependencies tasks
  ∧ (¬ (size (dispatched_ids trace) < length tasks')%nat
     ∨ ready_tasks (dispatched_ids trace) tasks' = []).
Proof.
  unfold run_workflow.
  destruct (scheduler_loop _ _ _ _ _) as [[[ts c] tr]|] eqn:Hloop; [|done].
  intros [= <- <-]. cbn [wf_tasks set_wf_status set_wf_tasks] in *.
  apply scheduler_loop_rounds in Hloop
    as (rounds & -> & Hrounds & -> & Hsnap & Hids & Hdeps & Hexit).
  cbn [app] in *. rewrite (left_id_L ∅ (∪)) in Hexit. done.
Qed.

(** X1.  A run always ends, after at most as many dispatch rounds as the
    workflow has tasks, and it neither adds, drops nor reorders tasks: the
    ids and the dependency lists come out as they went in. *)
Theorem run_ends_within_one_round_per_task registry workflow :
  ∃ workflow' trace,
    run_workflow registry workflow = Some (workflow', trace)
    ∧ (length trace <= length (wf_tasks workflow))%nat
    ∧ List.map task_id (wf_tasks workflow') = List.map task_id (wf_tasks workflow)
    ∧ List.map task_dependencies (wf_tasks workflow')
      = List.map task_dependencies (wf_tasks workflow)
    ∧ wf_id workflow' = wf_id workflow
    ∧ wf_name workflow' = wf_name workflow.
Proof.
  destruct (run_workflow_total registry workflow) as [[workflow' trace] Hrun].
  exists workflow', trace. split; [done|].
  pose proof (run_workflow_rounds _ _ _ _ Hrun) as (Hrounds & Hsnap & Hids & Hdeps & _).
  split.
  { pose proof (scheduled_rounds_length ∅ trace (task_ids (wf_tasks workflow)) Hrounds)
      as Hlen.
    pose proof (task_ids_size (wf_tasks workflow)).
    rewrite size_empty in Hlen.
    assert (length trace + 0 <= size (task_ids (wf_tasks workflow)))%nat; [|lia].
    apply Hlen; [|set_solver].
    eapply Forall_impl; [exact Hsnap|]. cbn. intros r Hr. unfold task_ids. by rewrite Hr. }
  split; [done|]. split; [done|].
  unfold run_workflow in Hrun.
  destruct (scheduler_loop _ _ _ _ _) as [[[ts c] tr]|]; [|done].
  by injection Hrun as <- <-.
Qed.

(** ** Order of dispatch *)

Lemma scheduled_rounds_split seen prefix r suffix :
  scheduled_rounds seen (prefix ++ r :: suffix) →
  round_dispatched r = ready_tasks (seen ∪ dispatched_ids prefix) (round_snapshot r)
  ∧ round_dispatched r ≠ [].
Proof.
  revert seen. induction prefix as [|p prefix IH]; intros seen; cbn [app scheduled_rounds].
  - intros (Hready & Hne & _).
    assert (dispatched_ids [] = ∅) as -> by done.
    by rewrite (right_id_L ∅ (∪)).
  - intros (_ & _ & Hrest). apply IH in Hrest.
    rewrite dispatched_ids_cons, (assoc_L (∪)). exact Hrest.
Qed.

(** X2.  In every run, a task is handed to its handler only when each of its
    dependencies is the id of a task dispatched in an earlier round, and no
    id is dispatched in two different rounds; a round dispatches every task
    that is ready at that moment and at least one. *)
Theorem dispatch_follows_earlier_rounds registry workflow workflow' trace
    prefix r suffix :
  run_workflow registry workflow = Some (workflow', trace) →
  trace = prefix ++ r :: suffix →
  round_dispatched r = ready_tasks (dispatched_ids prefix) (round_snapshot r)
  ∧ round_dispatched r ≠ []
  ∧ ∀ task, task ∈ round_dispatched r →
      (task_id task ∉ dispatched_ids prefix)
      ∧ (∀ dep, dep ∈ task_dependencies task → dep ∈ dispatched_ids prefix).
Proof.
  intros Hrun ->.
  pose proof (run_workflow_rounds _ _ _ _ Hrun) as (Hrounds & _).
  apply scheduled_rounds_split in Hrounds as [Hready Hne].
  rewrite (left_id_L ∅ (∪)) in Hready.
  split; [done|]. split; [done|].
  intros task Htask. rewrite Hready in Htask. split.
  - by eapply ready_tasks_fresh.
  - intros dep Hdep. by eapply ready_tasks_dependencies.
Qed.

Lemma dispatch_follows_earlier_rounds_witness :
  ∃ workflow' r1 r2,
    run_workflow flaky_registry fetch_then_report = Some (workflow', [r1; r2])
    ∧ List.map task_id (round_dispatched r2) = ["B"]
    ∧ ∀ task, task ∈ round_dispatched r2 →
        (task_id task ∉ dispatched_ids [r1])
        ∧ (∀ dep, dep ∈ task_dependencies task → dep ∈ dispatched_ids [r1]).
Proof.
  destruct (run_workflow flaky_registry fetch_then_report)
    as [[workflow' trace]|] eqn:Hrun; [|vm_compute in Hrun; discriminate].
  assert (∃ r1 r2, trace = [r1; r2]
                   ∧ List.map task_id (round_dispatched r2) = ["B"])
    as (r1 & r2 & -> & Hb).
  { vm_compute in Hrun. injection Hrun as <- <-. eexists _, _. split; reflexivity. }
  exists workflow', r1, r2. split; [done|]. split; [done|].
  by destruct (dispatch_follows_earlier_rounds flaky_registry fetch_then_report
                 workflow' [r1; r2] [r1] r2 [] Hrun eq_refl) as (_ & _ & H).
Defined.


(** ** Workflows listed in dependency order *)

Lemma finished_process_result registry task :
  finished (process_result (_execute_task registry task)).
Proof. apply process_result_status. Qed.

Lemma NoDup_ids_same_task (tasks : list WorkflowTask) t1 t2 :
  NoDup (List.map task_id tasks) → t1 ∈ tasks → t2 ∈ tasks →
  task_id t1 = task_id t2 → t1 = t2.
Proof.
  induction tasks as [|t tasks IH]; cbn; intros Hnd H1 H2 Heq.
  - by apply elem_of_nil in H1.
  - apply NoDup_cons in Hnd as [Hnotin Hnd].
    apply elem_of_cons in H1 as [->|H1]; apply elem_of_cons in H2 as [->|H2]; auto.
    + exfalso. apply Hnotin. rewrite Heq.
      apply list_elem_of_In, List.in_map, list_elem_of_In, H2.
    + exfalso. apply Hnotin. rewrite <- Heq.
      apply list_elem_of_In, List.in_map, list_elem_of_In, H1.
Qed.

(** Tasks recorded as completed are finished, round after round. *)
Lemma scheduler_loop_finished fuel registry :
  ∀ completed tasks trace tasks' completed' trace',
    NoDup (List.map task_id tasks) →
    (∀ task, task ∈ tasks → task_id task ∈ completed → finished task) →
    scheduler_loop fuel registry completed tasks trace
    = Some (tasks', completed', trace') →
    ∀ task, task ∈ tasks' → task_id task ∈ completed' → finished task.
Proof.
  induction fuel as [|fuel IH]; intros completed tasks trace tasks' completed' trace'
    Hnd Hfin; [done|].
  cbn [scheduler_loop]. case_bool_decide; [|by intros [= <- <- <-]].
  destruct (ready_tasks completed tasks) as [|t ready] eqn:Hready;
    [by intros [= <- <- <-]|].
  apply IH.
  - by rewrite run_ready_ids.
  - intros task' Hin Hid. unfold run_ready in Hin.
    apply list_elem_of_In, List.in_map_iff in Hin as (task & <- & Hin).
    apply list_elem_of_In in Hin.
    destruct (is_ready completed task) eqn:Hr; [apply finished_process_result|].
    unfold add_ready in Hid. apply elem_of_union in Hid as [Hid|Hid]; [auto|].
    exfalso. rewrite elem_of_list_to_set in Hid.
    apply list_elem_of_In, List.in_map_iff in Hid as (other & Heq & Hother).
    rewrite <- Hready in Hother. unfold ready_tasks in Hother.
    apply List.filter_In in Hother as [Hother Hor]. apply list_elem_of_In in Hother.
    assert (other = task) as -> by by eapply NoDup_ids_same_task.
    congruence.
Qed.

(** When no task is ready in a list in dependency order, every id is
    recorded as completed. *)
Lemma nothing_ready_all_recorded completed tasks :
  dependency_ordered tasks →
  ready_tasks completed tasks = [] →
  ∀ i task, tasks !! i = Some task → task_id task ∈ completed.
Proof.
  intros Hord Hnone i. induction (lt_wf i) as [i _ IH]. intros task Hi.
  assert (is_ready completed task = false) as Hr.
  { apply not_true_is_false. intros Hr.
    assert (task ∈ ready_tasks completed tasks) as Hin.
    { unfold ready_tasks. apply list_elem_of_In, List.filter_In. split; [|done].
      apply list_elem_of_In. by eapply list_elem_of_lookup_2. }
    rewrite Hnone in Hin. by apply elem_of_nil in Hin. }
  unfold is_ready in Hr. apply andb_false_iff in Hr as [Hr|Hr].
  - apply bool_decide_eq_false in Hr. by apply dec_stable.
  - exfalso. apply not_true_iff_false in Hr. apply Hr.
    apply forallb_forall. intros dep Hdep. apply bool_decide_eq_true.
    apply list_elem_of_In in Hdep.
    destruct (Hord i task dep Hi Hdep) as (j & task' & Hlt & Hj & <-).
    by apply (IH j Hlt task').
Qed.

Lemma map_lookup {A B} (f : A → B) (l : list A) i :
  List.map f l !! i = f <$> l !! i.
Proof. apply list_lookup_fmap. Qed.

Lemma dependency_ordered_ext (tasks tasks' : list WorkflowTask) :
  List.map task_id tasks' = List.map task_id tasks →
  List.map task_dependencies tasks' = List.map task_dependencies tasks →
  dependency_ordered tasks → dependency_ordered tasks'.
Proof.
  intros Hids Hdeps Hord i task' dep Hi Hdep.
  assert (∃ task, tasks !! i = Some task
                  ∧ task_dependencies task = task_dependencies task')
    as (task & Hi0 & Hd).
  { pose proof (f_equal (fun l => l !! i) Hdeps) as H2. cbn in H2.
    rewrite !map_lookup, Hi in H2.
    destruct (tasks !! i) as [task|]; [|done]. exists task.
    cbn in H2. split; [done|]. congruence. }
  rewrite <- Hd in Hdep.
  destruct (Hord i task dep Hi0 Hdep) as (j & other & Hlt & Hj & Hid).
  pose proof (f_equal (fun l => l !! j) Hids) as Hj'. cbn in Hj'.
  rewrite !map_lookup, Hj in Hj'.
  destruct (tasks' !! j) as [other'|] eqn:Hoj; [|done].
  exists j, other'. split; [done|]. split; [done|]. cbn in Hj'. congruence.
Qed.


Lemma filter_ids_NoDup completed (tasks : list WorkflowTask) :
  NoDup (List.map task_id tasks) →
  NoDup (List.map task_id (ready_tasks completed tasks)).
Proof.
  unfold ready_tasks. induction tasks as [|t tasks IH]; cbn; [done|].
  intros Hnd. apply NoDup_cons in Hnd as [Hnotin Hnd].
  destruct (is_ready completed t); [|auto]. cbn. apply NoDup_cons. split; [|auto].
  intros Hin. apply Hnotin.
  apply list_elem_of_In, List.in_map_iff in Hin as (t' & <- & Hin).
  apply List.filter_In in Hin as [Hin _].
  by apply list_elem_of_In, List.in_map.
Qed.

Lemma scheduled_rounds_NoDup seen rounds ids :
  scheduled_rounds seen rounds →
  Forall (fun r => List.map task_id (round_snapshot r) = ids) rounds →
  NoDup ids →
  NoDup (dispatch_sequence rounds)
  ∧ (∀ x, x ∈ dispatch_sequence rounds → (x ∉ seen) ∧ (x ∈ ids)).
Proof.
  intros Hrounds Hsnap Hnd. revert seen Hrounds.
  induction rounds as [|r rounds IH]; intros seen Hrounds.
  - split; [constructor|]. intros x Hx. by apply elem_of_nil in Hx.
  - destruct Hrounds as (Hready & _ & Hrest).
    inversion_clear Hsnap as [|? ? Hr Hrs].
    destruct (IH Hrs _ Hrest) as [IHnd IHfresh].
    assert (∀ x, x ∈ List.map task_id (round_dispatched r) → (x ∉ seen) ∧ (x ∈ ids))
      as Hround.
    { intros x Hx. apply list_elem_of_In, List.in_map_iff in Hx as (t & <- & Ht).
      apply list_elem_of_In in Ht. rewrite Hready in Ht. split.
      - by eapply ready_tasks_fresh.
      - rewrite <- Hr. unfold ready_tasks in Ht.
        apply list_elem_of_In, List.filter_In in Ht as [Ht _].
        by apply list_elem_of_In, List.in_map. }
    unfold dispatch_sequence in *. cbn [List.map List.concat]. split.
    + apply NoDup_app. split; [|split; [|done]].
      * rewrite Hready. apply filter_ids_NoDup. by rewrite Hr.
      * intros x Hx Hx'. apply IHfresh in Hx' as [Hx' _]. apply Hx'.
        unfold add_ready. apply elem_of_union. right. by apply elem_of_list_to_set.
    + intros x Hx. apply elem_of_app in Hx as [Hx|Hx]; [auto|].
      apply IHfresh in Hx as [Hx Hids]. split; [|done].
      intros Hs. apply Hx. unfold add_ready. set_solver.
Qed.

Lemma all_completed_iff tasks :
  Forall finished tasks →
  any_failed tasks = false ↔ all_completed tasks = true.
Proof.
  unfold any_failed, all_completed. induction 1 as [|t tasks Ht _ IH]; cbn; [done|].
  rewrite orb_false_iff, andb_true_iff, IH.
  rewrite bool_decide_eq_false, bool_decide_eq_true.
  destruct Ht as [Ht|Ht]; rewrite Ht; split; intros [? ?]; split; done.
Qed.

(** X3.  For a workflow whose task ids are pairwise distinct and whose tasks
    are listed in dependency order, a run hands every task to its handler
    exactly once and leaves each of them COMPLETED or FAILED; the workflow
    then ends COMPLETED exactly when all its tasks are COMPLETED. *)
Theorem ordered_workflow_runs_every_task registry workflow workflow' trace :
  NoDup (List.map task_id (wf_tasks workflow)) →
  dependency_ordered (wf_tasks workflow) →
  run_workflow registry workflow = Some (workflow', trace) →
  Forall finished (wf_tasks workflow')
  ∧ dispatch_sequence trace ≡ₚ List.map task_id (wf_tasks workflow)
  ∧ (wf_status workflow' = WorkflowStatus.COMPLETED
     ↔ all_completed (wf_tasks workflow') = true).
Proof.
  intros Hnd Hord Hrun.
  pose proof (run_workflow_rounds _ _ _ _ Hrun) as (Hrounds & Hsnap & Hids & Hdeps & Hexit).
  cbn zeta in *.
  destruct (scheduled_rounds_NoDup ∅ trace _ Hrounds Hsnap Hnd) as [Hseq_nd Hseq_in].
  assert (∀ task, task ∈ wf_tasks workflow' → task_id task ∈ dispatched_ids trace)
    as Hall.
  { destruct Hexit as [Hsize|Hnone].
    - assert (dispatched_ids trace = task_ids (wf_tasks workflow')) as ->.
      { apply set_subseteq_size_eq.
        - intros x Hx. unfold dispatched_ids in Hx. apply elem_of_list_to_set in Hx.
          apply Hseq_in in Hx as [_ Hx]. unfold task_ids. rewrite Hids.
          by apply elem_of_list_to_set.
        - pose proof (task_ids_size (wf_tasks workflow')). lia. }
      intros task Hin. unfold task_ids. apply elem_of_list_to_set.
      by apply list_elem_of_In, List.in_map, list_elem_of_In.
    - intros task Hin. apply list_elem_of_lookup in Hin as [i Hi].
      eapply nothing_ready_all_recorded; [|exact Hnone|exact Hi].
      by eapply dependency_ordered_ext. }
  assert (Forall finished (wf_tasks workflow')) as Hfin.
  { unfold run_workflow in Hrun.
    destruct (scheduler_loop _ _ _ _ _) as [[[ts c] tr]|] eqn:Hloop; [|done].
    injection Hrun as <- <-. cbn [wf_tasks set_wf_status set_wf_tasks] in *.
    apply Forall_forall. intros task Hin.
    pose proof (scheduler_loop_rounds _ _ _ _ _ _ _ _ Hloop) as (rounds & Hr & _ & Hc & _).
    cbn [app] in Hr. subst rounds. rewrite (left_id_L ∅ (∪)) in Hc.
    eapply (scheduler_loop_finished _ _ _ _ _ _ _ _ Hnd); [|exact Hloop|done|].
    + intros t _ Hin'. by apply not_elem_of_empty in Hin'.
    + rewrite Hc. by apply Hall. }
  split; [done|]. split.
  - apply NoDup_Permutation; [done|done|]. intros x. split.
    + intros Hx. by apply Hseq_in in Hx as [_ Hx].
    + intros Hx. rewrite <- Hids in Hx.
      apply list_elem_of_In, List.in_map_iff in Hx as (task & <- & Hin).
      apply list_elem_of_In, Hall in Hin. unfold dispatched_ids in Hin.
      by apply elem_of_list_to_set in Hin.
  - destruct (run_workflow_final_status _ _ _ _ Hrun) as [-> _].
    rewrite <- all_completed_iff by done.
    destruct (any_failed (wf_tasks workflow')); split; done.
Qed.

Lemma ordered_workflow_runs_every_task_witness :
  NoDup (List.map task_id (wf_tasks fetch_then_report))
  ∧ dependency_ordered (wf_tasks fetch_then_report)
  ∧ ∃ workflow' trace,
      run_workflow flaky_registry fetch_then_report = Some (workflow', trace)
      ∧ Forall finished (wf_tasks workflow')
      ∧ dispatch_sequence trace ≡ₚ ["A"; "B"].
Proof.
  assert (NoDup (List.map task_id (wf_tasks fetch_then_report))) as Hnd.
  { cbn. repeat constructor; set_solver. }
  assert (dependency_ordered (wf_tasks fetch_then_report)) as Hord.
  { intros i task dep Hi Hdep. destruct i as [|[|i]]; cbn in Hi; [| |done].
    - injection Hi as <-. cbn in Hdep. by apply elem_of_nil in Hdep.
    - injection Hi as <-. cbn in Hdep. apply list_elem_of_singleton in Hdep as ->.
      exists 0%nat, fetch_task. split; [lia|]. done. }
  split; [exact Hnd|]. split; [exact Hord|].
  destruct (run_workflow flaky_registry fetch_then_report)
    as [[workflow' trace]|] eqn:Hrun; [|vm_compute in Hrun; discriminate].
  exists workflow', trace. split; [done|].
  destruct (ordered_workflow_runs_every_task flaky_registry fetch_then_report
              workflow' trace Hnd Hord Hrun) as (Hfin & Hperm & _).
  split; [exact Hfin|exact Hperm].
Defined.

End WorkflowExtra.

(* ===================================================================== *)
(** * What a run does to each task                                       *)
(* ===================================================================== *)

Module RunProps.
Import Workflow Scenario WorkflowProps WorkflowExtra.

Lemma ready_ids_in_add_ready completed tasks task :
  task ∈ ready_tasks completed tasks →
  task_id task ∈ add_ready completed (ready_tasks completed tasks).
Proof.
  intros Hin. unfold add_ready. apply elem_of_union. right.
  apply elem_of_list_to_set. by apply list_elem_of_In, List.in_map, list_elem_of_In.
Qed.

Lemma is_ready_elem completed tasks task :
  task ∈ tasks → is_ready completed task = true → task ∈ ready_tasks completed tasks.
Proof.
  intros Hin Hr. unfold ready_tasks. apply list_elem_of_In, List.filter_In.
  split; [by apply list_elem_of_In|done].
Qed.

Lemma is_ready_ext completed t1 t2 :
  task_id t1 = task_id t2 → task_dependencies t1 = task_dependencies t2 →
  is_ready completed t1 = is_ready completed t2.
Proof. unfold is_ready. by intros -> ->. Qed.

Lemma execute_dependencies registry task :
  task_dependencies (process_result (_execute_task registry task))
  = task_dependencies task.
Proof. execute_cases registry task. Qed.

Lemma scheduler_loop_mono fuel registry :
  ∀ completed tasks trace tasks' completed' trace',
    scheduler_loop fuel registry completed tasks trace
    = Some (tasks', completed', trace') →
    completed ⊆ completed'.
Proof.
  induction fuel as [|fuel IH]; intros completed tasks trace tasks' completed' trace';
    [done|].
  cbn [scheduler_loop]. case_bool_decide; [|by intros [= <- <- <-]].
  destruct (ready_tasks completed tasks) as [|t ready] eqn:Hready;
    [by intros [= <- <- <-]|].
  intros Hloop. apply IH in Hloop. unfold add_ready in Hloop. set_solver.
Qed.

(** The loop hands a task to its handler at most once: the task at a
    position comes out executed when its id was recorded during the loop and
    as it went in otherwise. *)
Lemma scheduler_loop_outcomes fuel registry :
  ∀ completed tasks trace tasks' completed' trace',
    NoDup (List.map task_id tasks) →
    scheduler_loop fuel registry completed tasks trace
    = Some (tasks', completed', trace') →
    ∀ i task, tasks !! i = Some task →
      tasks' !! i
      = Some (if decide (task_id task ∈ completed' ∖ completed)
              then process_result (_execute_task registry task) else task).
Proof.
  induction fuel as [|fuel IH]; intros completed tasks trace tasks' completed' trace'
    Hnd; [done|].
  cbn [scheduler_loop].
  assert (∀ i task, tasks !! i = Some task →
            tasks !! i = Some (if decide (task_id task ∈ completed ∖ completed)
                               then process_result (_execute_task registry task)
                               else task)) as Hstay.
  { intros i task Hi. rewrite decide_False by set_solver. done. }
  case_bool_decide; [|by intros [= <- <- <-]].
  destruct (ready_tasks completed tasks) as [|t ready] eqn:Hready;
    [by intros [= <- <- <-]|].
  rewrite <- Hready. intros Hloop i task Hi.
  pose proof (scheduler_loop_mono _ _ _ _ _ _ _ _ Hloop) as Hmono.
  assert (task ∈ tasks) as Hin by by eapply list_elem_of_lookup_2.
  eapply IH in Hloop; [|by rewrite run_ready_ids|].
  2:{ unfold run_ready. rewrite list_lookup_fmap, Hi. done. }
  rewrite Hloop. f_equal. cbn beta.
  destruct (is_ready completed task) eqn:Hr.
  - pose proof (is_ready_elem _ _ _ Hin Hr) as Hready_in.
    pose proof (ready_tasks_fresh _ _ _ Hready_in) as Hfresh.
    pose proof (ready_ids_in_add_ready _ _ _ Hready_in) as Hadd.
    rewrite process_result_id.
    rewrite decide_False by set_solver. rewrite decide_True by set_solver. done.
  - assert (task_id task ∉ add_ready completed (ready_tasks completed tasks)
            ∖ completed) as Hout.
    { intros Hid. apply elem_of_difference in Hid as [Hid Hnot].
      unfold add_ready in Hid. apply elem_of_union in Hid as [Hid|Hid]; [done|].
      rewrite elem_of_list_to_set in Hid.
      apply list_elem_of_In, List.in_map_iff in Hid as (other & Heq & Hother).
      unfold ready_tasks in Hother.
      apply List.filter_In in Hother as [Hother Hor]. apply list_elem_of_In in Hother.
      assert (other = task) as ->.
      { clear -Hnd Hother Hin Heq. induction tasks as [|t tasks IH];
          [by apply elem_of_nil in Hin|].
        cbn in Hnd. apply NoDup_cons in Hnd as [Hnotin Hnd].
        apply elem_of_cons in Hother as [->|Hother];
          apply elem_of_cons in Hin as [->|Hin]; auto.
        - exfalso. apply Hnotin. rewrite Heq.
          apply list_elem_of_In, List.in_map, list_elem_of_In, Hin.
        - exfalso. apply Hnotin. rewrite <- Heq.
          apply list_elem_of_In, List.in_map, list_elem_of_In, Hother. }
      congruence. }
    assert (completed ⊆ add_ready completed (ready_tasks completed tasks)) as Hsub
      by (unfold add_ready; set_solver).
    destruct (decide (task_id task ∈ completed'
                      ∖ add_ready completed (ready_tasks completed tasks))) as [Hd|Hd].
    + rewrite decide_True; [done|]. clear -Hd Hsub. set_solver.
    + rewrite decide_False; [done|]. clear -Hd Hout Hsub. set_solver.
Qed.

Lemma run_workflow_outcomes registry workflow workflow' trace i task :
  NoDup (List.map task_id (wf_tasks workflow)) →
  run_workflow registry workflow = Some (workflow', trace) →
  wf_tasks workflow !! i = Some task →
  wf_tasks workflow' !! i
  = Some (if decide (task_id task ∈ dispatched_ids trace)
          then process_result (_execute_task registry task) else task).
Proof.
  intros Hnd Hrun Hi. unfold run_workflow in Hrun.
  destruct (scheduler_loop _ _ _ _ _) as [[[ts c] tr]|] eqn:Hloop; [|done].
  injection Hrun as <- <-. cbn [wf_tasks set_wf_status set_wf_tasks] in *.
  pose proof (scheduler_loop_trace _ _ _ _ _ _ _ _ Hloop eq_refl I) as [-> _].
  rewrite (scheduler_loop_outcomes _ _ _ _ _ _ _ _ Hnd Hloop i task Hi).
  f_equal. destruct (decide (task_id task ∈ dispatched_ids tr ∖ ∅)) as [Hd|Hd];
    [rewrite decide_True by set_solver|rewrite decide_False by set_solver]; done.
Qed.

(** X4.  In a workflow with pairwise distinct task ids, a run executes a
    task at most once and never retries it.  A task that was not dispatched
    comes out as it went in.  A dispatched task without a registered handler
    ends FAILED with the error "No handler registered for task type: ...".
    One with a handler and a timeout of zero or less ends FAILED as timed
    out, whatever the handler would do.  With a positive timeout the handler
    decides: the task ends COMPLETED with the handler's result when it
    returns, FAILED with the message of the exception when it raises an
    [Exception], FAILED when it runs out of time, and COMPLETED with the
    [CancelledError] object as its result when it raises
    [asyncio.CancelledError].  After a timeout the error is the empty
    string: the text "Task execution timed out" is overwritten by [str] of
    the [TimeoutError].  The retry count, the retry limit and the timeout of
    the task are never changed. *)
Theorem task_state_after_run registry workflow workflow' trace i task :
  NoDup (List.map task_id (wf_tasks workflow)) →
  run_workflow registry workflow = Some (workflow', trace) →
  wf_tasks workflow !! i = Some task →
  ∃ task',
    wf_tasks workflow' !! i = Some task'
    ∧ task_retry_count task' = task_retry_count task
    ∧ task_retries task' = task_retries task
    ∧ task_timeout task' = task_timeout task
    ∧ (task_id task ∉ dispatched_ids trace → task' = task)
    ∧ (task_id task ∈ dispatched_ids trace →
       match registry !! task_type task with
       | None =>
           task_status task' = TaskStatus.FAILED
           ∧ task_error task'
             = Some ("No handler registered for task type: " +:+ task_type task)
           ∧ task_result task' = task_result task
       | Some handler =>
           if (task_timeout task <=? 0)%Z then
             task_status task' = TaskStatus.FAILED
             ∧ task_error task' = Some EmptyString
             ∧ task_result task' = task_result task
           else
             match handler (task_config task) with
             | Returned r =>
                 task_status task' = TaskStatus.COMPLETED
                 ∧ task_result task' = Some (ResultDict r)
                 ∧ task_error task' = task_error task
             | TimedOut =>
                 task_status task' = TaskStatus.FAILED
                 ∧ task_error task' = Some EmptyString
                 ∧ task_result task' = task_result task
             | Raised exn =>
                 task_status task' = TaskStatus.FAILED
                 ∧ task_error task' = Some (exc_str exn)
                 ∧ task_result task' = task_result task
             | Cancelled =>
                 task_status task' = TaskStatus.COMPLETED
                 ∧ task_result task' = Some ResultCancelledError
                 ∧ task_error task' = task_error task
             end
       end).
Proof.
  intros Hnd Hrun Hi.
  rewrite (run_workflow_outcomes _ _ _ _ _ _ Hnd Hrun Hi).
  eexists. split; [done|].
  destruct (decide (task_id task ∈ dispatched_ids trace)) as [Hd|Hd].
  - unfold _execute_task, wait_for. cbn.
    destruct (registry !! task_type task) as [h|]; [|by repeat split].
    destruct (task_timeout task <=? 0)%Z; [by repeat split|].
    destruct (h (task_config task)); by repeat split.
  - by repeat split.
Qed.

Lemma task_state_after_run_witness :
  NoDup (List.map task_id (wf_tasks fetch_then_report))
  ∧ wf_tasks fetch_then_report !! 0%nat = Some fetch_task
  ∧ ∃ workflow' trace task',
      run_workflow flaky_registry fetch_then_report = Some (workflow', trace)
      ∧ wf_tasks workflow' !! 0%nat = Some task'
      ∧ task_retry_count task' = 0%Z.
Proof.
  assert (NoDup (List.map task_id (wf_tasks fetch_then_report))) as Hnd.
  { cbn. repeat constructor; set_solver. }
  split; [exact Hnd|]. split; [reflexivity|].
  destruct (run_workflow flaky_registry fetch_then_report)
    as [[workflow' trace]|] eqn:Hrun; [|vm_compute in Hrun; discriminate].
  destruct (task_state_after_run flaky_registry fetch_then_report workflow' trace
              0%nat fetch_task Hnd Hrun eq_refl) as (task' & Hget & Hcount & _).
  exists workflow', trace, task'. split; [reflexivity|]. split; [exact Hget|].
  exact Hcount.
Defined.


(** ** Tasks that can never run *)

Lemma scheduler_loop_skips fuel registry :
  ∀ completed tasks trace tasks' completed' trace' i task dep,
    scheduler_loop fuel registry completed tasks trace
    = Some (tasks', completed', trace') →
    completed ⊆ task_ids tasks →
    dep ∈ task_dependencies task →
    (∀ task', task' ∈ tasks → task_id task' ≠ dep) →
    tasks !! i = Some task →
    (∀ r, r ∈ trace → task ∉ round_dispatched r) →
    tasks' !! i = Some task ∧ (∀ r, r ∈ trace' → task ∉ round_dispatched r).
Proof.
  induction fuel as [|fuel IH];
    intros completed tasks trace tasks' completed' trace' i task dep; [done|].
  cbn [scheduler_loop]. case_bool_decide; [|by intros [= <- <- <-]].
  destruct (ready_tasks completed tasks) as [|t ready] eqn:Hready;
    [by intros [= <- <- <-]|].
  rewrite <- Hready. intros Hloop Hsub Hdep Hno Hi Htrace.
  pose proof (unresolved_dependency_never_ready completed tasks task dep Hsub Hdep Hno)
    as Hnever.
  eapply IH in Hloop; [exact Hloop| |exact Hdep| | |].
  - rewrite run_ready_task_ids. by apply add_ready_bounded.
  - intros task' Hin. unfold run_ready in Hin.
    apply list_elem_of_In, List.in_map_iff in Hin as (task0 & <- & Hin).
    apply list_elem_of_In in Hin.
    destruct (is_ready completed task0); [rewrite process_result_id|]; auto.
  - unfold run_ready. rewrite list_lookup_fmap, Hi. cbn. by rewrite Hnever.
  - intros r Hr. apply elem_of_app in Hr as [Hr|Hr]; [auto|].
    apply list_elem_of_singleton in Hr as ->. cbn [round_dispatched].
    unfold ready_tasks. rewrite list_elem_of_In, List.filter_In. intros [_ Hr].
    congruence.
Qed.

(** X5.  A task one of whose dependency strings is the id of no task of the
    workflow is never handed to a handler: no round of the run dispatches
    it, and the run leaves it exactly as it was. *)
Theorem task_with_unknown_dependency_never_runs
    registry workflow workflow' trace i task dep :
  run_workflow registry workflow = Some (workflow', trace) →
  wf_tasks workflow !! i = Some task →
  dep ∈ task_dependencies task →
  (∀ task', task' ∈ wf_tasks workflow → task_id task' ≠ dep) →
  wf_tasks workflow' !! i = Some task
  ∧ ∀ r, r ∈ trace → task ∉ round_dispatched r.
Proof.
  intros Hrun Hi Hdep Hno. unfold run_workflow in Hrun.
  destruct (scheduler_loop _ _ _ _ _) as [[[ts c] tr]|] eqn:Hloop; [|done].
  injection Hrun as <- <-. cbn [wf_tasks set_wf_status set_wf_tasks] in *.
  eapply scheduler_loop_skips; [exact Hloop|set_solver|exact Hdep|exact Hno|exact Hi|].
  intros r Hr. by apply elem_of_nil in Hr.
Qed.

Lemma task_with_unknown_dependency_never_runs_witness :
  ∃ workflow' trace,
    run_workflow default_tasks dangling_workflow = Some (workflow', trace)
    ∧ wf_tasks workflow' !! 0%nat = Some load_task.
Proof.
  destruct (run_workflow default_tasks dangling_workflow)
    as [[workflow' trace]|] eqn:Hrun; [|vm_compute in Hrun; discriminate].
  exists workflow', trace. split; [reflexivity|].
  refine (proj1 (task_with_unknown_dependency_never_runs default_tasks
                   dangling_workflow workflow' trace 0%nat load_task "extract"
                   Hrun eq_refl _ _)).
  - cbn. set_solver.
  - intros task' Hin. cbn in Hin. apply list_elem_of_singleton in Hin as ->.
    cbn. discriminate.
Defined.

(** ** The schedule *)

Lemma same_plan_ready completed tasks1 tasks2 :
  same_plan tasks1 tasks2 →
  List.map task_id (ready_tasks completed tasks1)
  = List.map task_id (ready_tasks completed tasks2).
Proof.
  unfold ready_tasks. induction 1 as [|t1 t2 l1 l2 [Hid Hdeps] _ IH]; cbn; [done|].
  rewrite (is_ready_ext completed t1 t2 Hid Hdeps).
  destruct (is_ready completed t2); cbn; congruence.
Qed.

Lemma same_plan_run_ready registry1 registry2 completed tasks1 tasks2 :
  same_plan tasks1 tasks2 →
  same_plan (run_ready registry1 completed tasks1) (run_ready registry2 completed tasks2).
Proof.
  unfold run_ready. induction 1 as [|t1 t2 l1 l2 [Hid Hdeps] _ IH]; cbn;
    constructor; [|done].
  rewrite (is_ready_ext completed t1 t2 Hid Hdeps).
  destruct (is_ready completed t2); [|done].
  rewrite !process_result_id, !execute_dependencies. done.
Qed.

Lemma schedule_snoc trace r :
  schedule (trace ++ [r]) = schedule trace ++ [List.map task_id (round_dispatched r)].
Proof. unfold schedule. by rewrite List.map_app. Qed.

Lemma scheduler_loop_same_plan fuel registry1 registry2 :
  ∀ completed tasks1 tasks2 trace1 trace2 tasks1' c1 trace1' tasks2' c2 trace2',
    same_plan tasks1 tasks2 →
    schedule trace1 = schedule trace2 →
    scheduler_loop fuel registry1 completed tasks1 trace1 = Some (tasks1', c1, trace1') →
    scheduler_loop fuel registry2 completed tasks2 trace2 = Some (tasks2', c2, trace2') →
    schedule trace1' = schedule trace2'.
Proof.
  induction fuel as [|fuel IH];
    intros completed tasks1 tasks2 trace1 trace2 tasks1' c1 trace1' tasks2' c2 trace2'
      Hplan Htrace; [done|].
  cbn [scheduler_loop].
  rewrite (Forall2_length _ _ _ Hplan).
  case_bool_decide; [|by intros [= <- <- <-] [= <- <- <-]].
  pose proof (same_plan_ready completed _ _ Hplan) as Hready.
  destruct (ready_tasks completed tasks1) as [|t1 ready1] eqn:Hr1;
    destruct (ready_tasks completed tasks2) as [|t2 ready2] eqn:Hr2; try done.
  - by intros [= <- <- <-] [= <- <- <-].
  - rewrite <- Hr1, <- Hr2 in *. unfold add_ready. rewrite Hready.
    apply IH; [by apply same_plan_run_ready|].
    rewrite !schedule_snoc. cbn [round_dispatched]. by rewrite Htrace, Hready.
Qed.

(** X6.  Which tasks run, and in which round, depends on the task ids and
    the dependency lists alone: two runs of workflows that agree on those,
    whatever their handlers answer and whatever statuses, results and errors
    the tasks carry, dispatch the same ids round by round. *)
Theorem schedule_ignores_outcomes
    registry1 registry2 workflow1 workflow2 workflow1' trace1 workflow2' trace2 :
  same_plan (wf_tasks workflow1) (wf_tasks workflow2) →
  run_workflow registry1 workflow1 = Some (workflow1', trace1) →
  run_workflow registry2 workflow2 = Some (workflow2', trace2) →
  schedule trace1 = schedule trace2.
Proof.
  intros Hplan Hrun1 Hrun2. unfold run_workflow in *.
  cbn [wf_tasks set_wf_status] in *.
  rewrite (Forall2_length _ _ _ Hplan) in Hrun1.
  destruct (scheduler_loop _ registry1 _ _ _) as [[[ts1 c1] tr1]|] eqn:Hloop1; [|done].
  destruct (scheduler_loop _ registry2 _ _ _) as [[[ts2 c2] tr2]|] eqn:Hloop2; [|done].
  injection Hrun1 as <- <-. injection Hrun2 as <- <-.
  by eapply scheduler_loop_same_plan.
Qed.

Lemma schedule_ignores_outcomes_witness :
  same_plan (wf_tasks fetch_then_report) (wf_tasks fetch_then_report)
  ∧ (schedule ∘ snd <$> run_workflow flaky_registry fetch_then_report)
    = (schedule ∘ snd <$> run_workflow (<[ "fetch" := _system_check_task ]> default_tasks)
                            fetch_then_report).
Proof.
  assert (same_plan (wf_tasks fetch_then_report) (wf_tasks fetch_then_report)) as Hplan.
  { repeat constructor. }
  split; [exact Hplan|].
  destruct (run_workflow flaky_registry fetch_then_report)
    as [[w1 trace1]|] eqn:Hrun1; [|vm_compute in Hrun1; discriminate].
  destruct (run_workflow (<[ "fetch" := _system_check_task ]> default_tasks)
              fetch_then_report)
    as [[w2 trace2]|] eqn:Hrun2; [|vm_compute in Hrun2; discriminate].
  cbn. f_equal.
  exact (schedule_ignores_outcomes _ _ _ _ _ _ _ _ Hplan Hrun1 Hrun2).
Defined.


(** ** Workflows none of whose dependencies resolves *)

Lemma is_ready_empty task : is_ready ∅ task = independent task.
Proof.
  unfold is_ready, independent. rewrite bool_decide_eq_true_2 by set_solver.
  destruct (task_dependencies task) as [|dep deps]; [done|].
  cbn. rewrite bool_decide_eq_false_2 by set_solver. done.
Qed.

Lemma scheduler_loop_unfold fuel registry completed tasks trace :
  scheduler_loop (S fuel) registry completed tasks trace
  = if bool_decide (size completed < length tasks)%nat then
      match ready_tasks completed tasks with
      | [] => Some (tasks, completed, trace)
      | ready =>
          scheduler_loop fuel registry (add_ready completed ready)
            (run_ready registry completed tasks) (trace ++ [mkRound tasks ready])
      end
    else Some (tasks, completed, trace).
Proof. reflexivity. Qed.

Lemma scheduler_loop_nothing_ready fuel registry completed tasks trace :
  ready_tasks completed tasks = [] →
  scheduler_loop (S fuel) registry completed tasks trace
  = Some (tasks, completed, trace).
Proof. intros Hnone. cbn [scheduler_loop]. rewrite Hnone. by case_bool_decide. Qed.

Lemma filter_nil {A} (f : A → bool) (l : list A) :
  (∀ x, In x l → f x = false) → List.filter f l = [].
Proof.
  induction l as [|x l IH]; cbn; [done|]. intros Hall.
  rewrite (Hall x) by auto. apply IH. auto.
Qed.

Lemma filter_nil_lookup {A} (f : A → bool) (l : list A) i x :
  List.filter f l = [] → l !! i = Some x → f x = false.
Proof.
  intros Hnil Hi. apply not_true_is_false. intros Hf.
  assert (In x (List.filter f l)) as Hin.
  { apply List.filter_In. split; [|done].
    by eapply list_elem_of_In, list_elem_of_lookup_2. }
  by rewrite Hnil in Hin.
Qed.

(** X7.  When no dependency string of a workflow is the id of one of its
    tasks, which is what the task loop of [create_workflow] builds, a run
    has at most one round: it executes exactly the tasks that have no
    dependencies, all in that round, and leaves every other task as it
    was. *)
Theorem unresolved_workflow_runs_one_round registry workflow workflow' trace :
  (∀ task dep, task ∈ wf_tasks workflow → dep ∈ task_dependencies task →
               dep ∉ task_ids (wf_tasks workflow)) →
  run_workflow registry workflow = Some (workflow', trace) →
  schedule trace
  = match List.filter independent (wf_tasks workflow) with
    | [] => []
    | ready => [List.map task_id ready]
    end
  ∧ ∀ i task, wf_tasks workflow !! i = Some task →
      wf_tasks workflow' !! i
      = Some (if independent task
              then process_result (_execute_task registry task) else task).
Proof.
  intros Hdangling. unfold run_workflow.
  cbn [wf_tasks set_wf_status]. remember (wf_tasks workflow) as tasks eqn:Htasks.
  assert (ready_tasks ∅ tasks = List.filter independent tasks) as Hready.
  { unfold ready_tasks. apply List.filter_ext. intros t. apply is_ready_empty. }
  destruct (length tasks) as [|n] eqn:Hlen.
  { apply nil_length_inv in Hlen as ->. cbn.
    intros [= <- <-]. split; [done|]. intros i task Hi. done. }
  rewrite scheduler_loop_unfold, size_empty, bool_decide_eq_true_2 by lia.
  destruct (ready_tasks ∅ tasks) as [|r ready] eqn:Hfilter.
  { rewrite <- Hready. intros [= <- <-]. split; [done|]. intros i task Hi.
    cbn [wf_tasks set_wf_tasks set_wf_status].
    rewrite Hi. rewrite <- is_ready_empty.
    by rewrite (filter_nil_lookup _ _ _ _ Hfilter Hi). }
  rewrite <- Hready, <- Hfilter.
  rewrite scheduler_loop_nothing_ready.
  { intros [= <- <-]. split.
    - cbn. rewrite Hfilter. done.
    - intros i task Hi. cbn [wf_tasks set_wf_status set_wf_tasks].
      unfold run_ready. rewrite list_lookup_fmap, Hi. cbn. by rewrite is_ready_empty. }
  unfold ready_tasks at 1.
  apply filter_nil. intros t1 Hin. apply not_true_is_false. intros Hr1.
  unfold run_ready in Hin. apply List.in_map_iff in Hin as (t & <- & Hin).
  apply list_elem_of_In in Hin.
  destruct (is_ready ∅ t) eqn:Hr.
  - pose proof (ready_ids_in_add_ready _ _ _ (is_ready_elem _ _ _ Hin Hr)) as Hadd.
    unfold is_ready in Hr1. apply andb_prop in Hr1 as [Hr1 _].
    apply bool_decide_eq_true in Hr1. rewrite process_result_id in Hr1. done.
  - rewrite is_ready_empty in Hr. unfold independent in Hr.
    destruct (task_dependencies t) as [|dep deps] eqn:Hdeps; [done|].
    rewrite (unresolved_dependency_never_ready _ tasks t dep) in Hr1; [done| | |].
    + apply add_ready_bounded. set_solver.
    + rewrite Hdeps. left.
    + intros task' Hin' Heq. apply (Hdangling t dep Hin); [rewrite Hdeps; left|].
      rewrite <- Heq. unfold task_ids. apply elem_of_list_to_set.
      by apply list_elem_of_In, List.in_map, list_elem_of_In.
Qed.

Lemma unresolved_workflow_runs_one_round_witness :
  (∀ task dep, task ∈ wf_tasks etl_workflow → dep ∈ task_dependencies task →
               dep ∉ task_ids (wf_tasks etl_workflow))
  ∧ ∃ workflow' trace,
      run_workflow default_tasks etl_workflow = Some (workflow', trace)
      ∧ schedule trace = [["uuid-1"]].
Proof.
  assert (∀ task dep, task ∈ wf_tasks etl_workflow → dep ∈ task_dependencies task →
                      dep ∉ task_ids (wf_tasks etl_workflow)) as Hdangling.
  { intros task dep Htask Hdep. cbn in Htask.
    apply elem_of_cons in Htask as [->|Htask].
    - cbn in Hdep. by apply elem_of_nil in Hdep.
    - apply list_elem_of_singleton in Htask as ->. cbn in Hdep.
      apply list_elem_of_singleton in Hdep as ->.
      unfold task_ids. cbn. set_solver. }
  split; [exact Hdangling|].
  destruct (run_workflow default_tasks etl_workflow)
    as [[workflow' trace]|] eqn:Hrun; [|vm_compute in Hrun; discriminate].
  exists workflow', trace. split; [reflexivity|].
  exact (proj1 (unresolved_workflow_runs_one_round default_tasks etl_workflow
                  workflow' trace Hdangling Hrun)).
Defined.

(** ** Executing a workflow again *)

Lemma scheduler_loop_recorded fuel registry :
  ∀ completed tasks trace tasks' completed' trace' i task,
    scheduler_loop fuel registry completed tasks trace
    = Some (tasks', completed', trace') →
    tasks !! i = Some task → task_id task ∈ completed →
    tasks' !! i = Some task.
Proof.
  induction fuel as [|fuel IH];
    intros completed tasks trace tasks' completed' trace' i task; [done|].
  cbn [scheduler_loop]. case_bool_decide; [|by intros [= <- <- <-]].
  destruct (ready_tasks completed tasks) as [|t ready] eqn:Hready;
    [by intros [= <- <- <-]|].
  intros Hloop Hi Hid. eapply IH; [exact Hloop| |].
  - unfold run_ready. rewrite list_lookup_fmap, Hi. cbn.
    assert (is_ready completed task = false) as ->; [|done].
    unfold is_ready. by rewrite bool_decide_eq_false_2 by auto.
  - unfold add_ready. set_solver.
Qed.

(** The first round of a run dispatches the tasks without dependencies,
    whatever status they carry, and none of them is touched again. *)
Lemma run_workflow_first_round registry workflow workflow' trace i task :
  run_workflow registry workflow = Some (workflow', trace) →
  wf_tasks workflow !! i = Some task → independent task = true →
  wf_tasks workflow' !! i = Some (process_result (_execute_task registry task))
  ∧ ∃ rest,
      trace = mkRound (wf_tasks workflow) (List.filter independent (wf_tasks workflow))
              :: rest.
Proof.
  unfold run_workflow. cbn [wf_tasks set_wf_status].
  remember (wf_tasks workflow) as tasks eqn:Htasks. intros Hrun Hi Hind.
  assert (ready_tasks ∅ tasks = List.filter independent tasks) as Hready.
  { unfold ready_tasks. apply List.filter_ext. intros t. apply is_ready_empty. }
  assert (task ∈ tasks) as Hin by by eapply list_elem_of_lookup_2.
  assert (task ∈ ready_tasks ∅ tasks) as Hr.
  { apply is_ready_elem; [done|]. by rewrite is_ready_empty. }
  pose proof (ready_ids_in_add_ready _ _ _ Hr) as Hadd.
  apply lookup_lt_Some in Hi as Hlen.
  rewrite scheduler_loop_unfold, size_empty, bool_decide_eq_true_2 in Hrun by lia.
  rewrite <- Hready.
  destruct (ready_tasks ∅ tasks) as [|t ready] eqn:Hfilter;
    [by apply elem_of_nil in Hr|].
  rewrite <- Hfilter in *.
  destruct (scheduler_loop _ _ _ _ _) as [[[ts c] tr]|] eqn:Hloop; [|done].
  injection Hrun as <- <-. cbn [wf_tasks set_wf_status set_wf_tasks]. split.
  - eapply scheduler_loop_recorded; [exact Hloop| |].
    + unfold run_ready. rewrite list_lookup_fmap, Hi. cbn.
      by rewrite is_ready_empty, Hind.
    + by rewrite process_result_id.
  - apply scheduler_loop_rounds in Hloop as (rounds & -> & _). by exists rounds.
Qed.

(** C4, as the code has it.  [execute_workflow] never looks at the status of
    the workflow it finds: it is refused only when
    [max_concurrent_workflows] executions are active, with an error answer
    and nothing changed; otherwise the answer is "success", the workflow is
    registered as active and a run is scheduled.  That run always ends and
    does not depend on the stored status.  It starts from an empty set of
    completed tasks: its first round dispatches every task without
    dependencies, whatever status the task carries, and such a task comes
    out as its handler leaves it; every round dispatches the tasks that are
    ready at that moment.  The workflow is left FAILED when one of its tasks
    is FAILED and COMPLETED otherwise. *)
Theorem execute_workflow_ignores_status e workflow_id workflow :
  db e !! workflow_id = Some workflow →
  execute_workflow e workflow_id =
    (if (max_concurrent_workflows e <=? Z.of_nat (size (active_workflows e)))%Z
     then (inr (mkResponse "error" "Maximum concurrent workflows reached" None), e, None)
     else (inr (mkResponse "success" "Workflow execution started" (Some workflow_id)),
           set_active ({[ workflow_id ]} ∪ active_workflows e) e,
           Some workflow))
  ∧ (∀ s, _execute_workflow_tasks e (set_wf_status s workflow)
          = _execute_workflow_tasks e workflow)
  ∧ ∃ e' trace workflow',
      _execute_workflow_tasks e workflow = Some (e', trace)
      ∧ db e' !! wf_id workflow = Some workflow'
      ∧ wf_status workflow' =
          (if any_failed (wf_tasks workflow') then WorkflowStatus.FAILED
           else WorkflowStatus.COMPLETED)
      ∧ scheduled_rounds ∅ trace
      ∧ (∀ r, head trace = Some r → round_snapshot r = wf_tasks workflow)
      ∧ ∀ i task,
          wf_tasks workflow !! i = Some task → independent task = true →
          wf_tasks workflow' !! i
          = Some (process_result (_execute_task (task_registry e) task))
          ∧ ∃ r, head trace = Some r ∧ task ∈ round_dispatched r.
Proof.
  intros Hget. split; [|split].
  - unfold execute_workflow. rewrite Hget.
    by destruct (_ <=? _)%Z.
  - reflexivity.
  - destruct (_execute_workflow_tasks_stores e workflow)
      as (workflow' & trace & Hrun & Hexec).
    eexists _, trace, workflow'. split; [exact Hexec|].
    split; [cbn; apply lookup_insert_eq|].
    split; [by destruct (run_workflow_final_status _ _ _ _ Hrun) as [-> _]|].
    split; [by apply run_workflow_rounds in Hrun as [? _]|].
    split.
    + intros r Hr. unfold run_workflow in Hrun.
      destruct (scheduler_loop _ _ _ _ _) as [[[ts c] tr]|] eqn:Hloop; [|done].
      injection Hrun as <- <-. cbn [wf_tasks set_wf_status] in Hloop.
      destruct (length (wf_tasks workflow)) as [|n] eqn:Hlen.
      { apply nil_length_inv in Hlen. rewrite Hlen in Hloop. cbn in Hloop.
        injection Hloop as <- <- <-. done. }
      rewrite scheduler_loop_unfold, size_empty, bool_decide_eq_true_2 in Hloop by lia.
      destruct (ready_tasks ∅ (wf_tasks workflow)) as [|t ready] eqn:Hready.
      { injection Hloop as <- <- <-. done. }
      apply scheduler_loop_rounds in Hloop as (rounds & -> & _).
      cbn in Hr. by injection Hr as <-.
    + intros i task Hi Hind.
      destruct (run_workflow_first_round _ _ _ _ _ _ Hrun Hi Hind) as (Hout & rest & ->).
      split; [exact Hout|]. eexists. split; [done|]. cbn [round_dispatched].
      apply list_elem_of_In, List.filter_In. split; [|done].
      by eapply list_elem_of_In, list_elem_of_lookup_2.
Qed.

Lemma execute_workflow_ignores_status_witness :
  db cancelled_engine !! "w2" = Some cancelled_workflow
  ∧ (execute_workflow cancelled_engine "w2").1.1
    = inr (mkResponse "success" "Workflow execution started" (Some "w2"))
  ∧ ∃ e' trace workflow',
      _execute_workflow_tasks cancelled_engine cancelled_workflow = Some (e', trace)
      ∧ db e' !! "w2" = Some workflow'
      ∧ wf_tasks workflow' !! 0%nat
        = Some (process_result (_execute_task default_tasks backup_task)).
Proof.
  assert (db cancelled_engine !! "w2" = Some cancelled_workflow) as Hget
    by (vm_compute; reflexivity).
  split; [exact Hget|].
  destruct (execute_workflow_ignores_status cancelled_engine "w2" cancelled_workflow Hget)
    as (-> & _ & e' & trace & workflow' & Hexec & Hrow & _ & _ & _ & Hagain).
  split; [vm_compute; reflexivity|].
  exists e', trace, workflow'. split; [exact Hexec|]. split; [exact Hrow|].
  exact (proj1 (Hagain 0%nat backup_task eq_refl eq_refl)).
Defined.

End RunProps.

(* ===================================================================== *)
(** * The public methods of the engine                                   *)
(* ===================================================================== *)

Module EngineProps.
Import Workflow Scenario WorkflowProps.

(** ** Unknown ids *)

(** X10.  The three methods that take a workflow id fail in one case only,
    an id the store does not know, and then with the HTTP error 500 whose
    detail names the id, leaving the engine as it was and scheduling
    nothing.  For a known id none of them raises. *)
Theorem only_unknown_ids_are_refused e workflow_id :
  let not_found action :=
    mkHTTPException 500
      ("Failed to " +:+ action +:+ ": Workflow " +:+ workflow_id +:+ " not found") in
  match db e !! workflow_id with
  | None =>
      execute_workflow e workflow_id = (inl (not_found "execute workflow"), e, None)
      ∧ get_workflow_status e workflow_id = inl (not_found "get workflow status")
      ∧ cancel_workflow e workflow_id = (inl (not_found "cancel workflow"), e)
  | Some _ =>
      (∃ response e' scheduled,
         execute_workflow e workflow_id = (inr response, e', scheduled))
      ∧ (∃ data, get_workflow_status e workflow_id = inr data)
      ∧ (∃ response e', cancel_workflow e workflow_id = (inr response, e'))
  end.
Proof.
  unfold execute_workflow, get_workflow_status, cancel_workflow.
  destruct (db e !! workflow_id) as [workflow|]; cbn zeta.
  - split; [|split; eauto]. destruct (_ <=? _)%Z; eauto.
  - done.
Qed.

(** ** Cancellation *)

Lemma set_active_db a e : db (set_active a e) = db e.
Proof. done. Qed.

(** X11.  [cancel_workflow] answers "success" for every stored workflow,
    but it marks the workflow CANCELLED only when an execution of it is
    registered as active; a workflow that is not executing, PENDING ones
    included, keeps its status.  The workflow is not active afterwards, no
    other workflow is touched, and cancelling again changes nothing. *)
Theorem cancel_workflow_effect e workflow_id workflow :
  db e !! workflow_id = Some workflow →
  ∃ e',
    cancel_workflow e workflow_id
    = (inr (mkResponse "success" "Workflow cancelled successfully" None), e')
    ∧ active_workflows e' = active_workflows e ∖ {[ workflow_id ]}
    ∧ db e' !! workflow_id
      = Some (if decide (workflow_id ∈ active_workflows e)
              then set_wf_status WorkflowStatus.CANCELLED workflow else workflow)
    ∧ (∀ other, other ≠ workflow_id → db e' !! other = db e !! other)
    ∧ cancel_workflow e' workflow_id
      = (inr (mkResponse "success" "Workflow cancelled successfully" None), e').
Proof.
  intros Hget. unfold cancel_workflow at 1. rewrite Hget.
  eexists. split; [done|].
  case_bool_decide as Hactive.
  - rewrite decide_True by done. cbn [active_workflows db set_db set_active].
    split; [done|]. split; [apply lookup_insert_eq|].
    split; [intros other Hne; by apply lookup_insert_ne|].
    unfold cancel_workflow. cbn [active_workflows db set_db set_active].
    rewrite lookup_insert_eq, bool_decide_eq_false_2 by set_solver. done.
  - rewrite decide_False by done. split; [set_solver|]. split; [done|].
    split; [done|]. unfold cancel_workflow. rewrite Hget.
    by rewrite bool_decide_eq_false_2 by done.
Qed.

Lemma cancel_workflow_effect_witness :
  db completed_engine !! "w3" = Some completed_workflow
  ∧ ∃ e', cancel_workflow completed_engine "w3"
          = (inr (mkResponse "success" "Workflow cancelled successfully" None), e')
        ∧ wf_status <$> db e' !! "w3" = Some WorkflowStatus.COMPLETED.
Proof.
  assert (db completed_engine !! "w3" = Some completed_workflow) as Hget
    by (vm_compute; reflexivity).
  split; [exact Hget|].
  destruct (cancel_workflow_effect completed_engine "w3" completed_workflow Hget)
    as (e' & Hcancel & _ & Hrow & _).
  exists e'. split; [exact Hcancel|]. rewrite Hrow. reflexivity.
Defined.

(** ** Slots *)

(** X12.  Executing a workflow that is already registered as active is not
    refused: while the engine is below its limit the answer is "success" and
    a second run of the same workflow is scheduled, yet the set of active
    workflows, keyed by id, does not grow. *)
Theorem active_workflow_is_executed_again e workflow_id workflow :
  db e !! workflow_id = Some workflow →
  workflow_id ∈ active_workflows e →
  (Z.of_nat (size (active_workflows e)) < max_concurrent_workflows e)%Z →
  ∃ e',
    execute_workflow e workflow_id
    = (inr (mkResponse "success" "Workflow execution started" (Some workflow_id)),
       e', Some workflow)
    ∧ active_workflows e' = active_workflows e
    ∧ db e' = db e.
Proof.
  intros Hget Hactive Hfree. unfold execute_workflow. rewrite Hget.
  destruct (Z.leb_spec (max_concurrent_workflows e)
              (Z.of_nat (size (active_workflows e)))); [lia|].
  eexists. split; [done|]. cbn. split; [set_solver|done].
Qed.

Lemma active_workflow_is_executed_again_witness :
  "w2" ∈ active_workflows busy_engine
  ∧ ∃ e', (execute_workflow busy_engine "w2").1.2 = e'
          ∧ size (active_workflows e') = 1%nat.
Proof.
  assert ("w2" ∈ active_workflows busy_engine) as Hactive by (cbn; set_solver).
  split; [exact Hactive|].
  destruct (active_workflow_is_executed_again busy_engine "w2" cancelled_workflow)
    as (e' & Hexec & Hsame & _).
  { vm_compute. reflexivity. }
  { exact Hactive. }
  { vm_compute. reflexivity. }
  exists e'. split; [by rewrite Hexec|]. rewrite Hsame. reflexivity.
Defined.

Lemma execute_workflow_engine e workflow_id r e' scheduled :
  execute_workflow e workflow_id = (r, e', scheduled) →
  db e' = db e
  ∧ max_concurrent_workflows e' = max_concurrent_workflows e
  ∧ active_workflows e ⊆ active_workflows e'
  ∧ (Z.of_nat (size (active_workflows e'))
     ≤ Z.max (Z.of_nat (size (active_workflows e))) (max_concurrent_workflows e))%Z
  ∧ (∀ workflow, scheduled = Some workflow → db e !! workflow_id = Some workflow).
Proof.
  unfold execute_workflow. destruct (db e !! workflow_id) as [workflow|].
  - destruct (Z.leb_spec (max_concurrent_workflows e)
                (Z.of_nat (size (active_workflows e)))).
    + intros [= <- <- <-]. repeat split; [done|lia|done].
    + intros [= <- <- <-]. cbn. repeat split; [set_solver| |congruence].
      rewrite size_union_alt, size_singleton.
      assert (size (active_workflows e ∖ {[workflow_id]})
              ≤ size (active_workflows e))%nat by (apply subseteq_size; set_solver).
      lia.
  - intros [= <- <- <-]. repeat split; [done|lia|done].
Qed.

Lemma process_pending_engine pending : ∀ e spawned e' spawned',
  process_pending e pending spawned = (e', spawned') →
  db e' = db e
  ∧ max_concurrent_workflows e' = max_concurrent_workflows e
  ∧ active_workflows e ⊆ active_workflows e'
  ∧ (Z.of_nat (size (active_workflows e'))
     ≤ Z.max (Z.of_nat (size (active_workflows e))) (max_concurrent_workflows e))%Z
  ∧ ∃ new, spawned' = spawned ++ new
      ∧ ∀ workflow, workflow ∈ new →
          ∃ row, row ∈ pending ∧ db e !! wf_id row = Some workflow.
Proof.
  induction pending as [|row rest IH]; intros e spawned e' spawned'; cbn.
  - intros [= <- <-]. repeat split; [done|lia|]. exists []. rewrite app_nil_r.
    split; [done|]. intros workflow Hin. by apply elem_of_nil in Hin.
  - destruct (_ <? _)%Z.
    + destruct (execute_workflow e (wf_id row)) as [[r e1] scheduled] eqn:Hexec.
      apply execute_workflow_engine in Hexec as (Hdb & Hmax & Hsub & Hsize & Hsched).
      destruct r as [exn|response].
      { intros [= <- <-]. repeat split; [done|done|done|done|]. exists [].
        rewrite app_nil_r. split; [done|]. intros workflow Hin.
        by apply elem_of_nil in Hin. }
      destruct scheduled as [workflow1|]; intros Hrest;
        apply IH in Hrest as (Hdb' & Hmax' & Hsub' & Hsize' & new & -> & Hnew);
        rewrite Hdb', Hmax', Hdb, Hmax.
      * repeat split; [set_solver|lia|]. exists (workflow1 :: new).
        rewrite <- app_assoc. split; [done|]. intros workflow Hin.
        apply elem_of_cons in Hin as [->|Hin].
        -- exists row. split; [left|]. by apply Hsched.
        -- destruct (Hnew _ Hin) as (row' & Hrow' & Hget). exists row'.
           split; [by right|]. by rewrite <- Hdb.
      * repeat split; [set_solver|lia|]. exists new. split; [done|].
        intros workflow Hin. destruct (Hnew _ Hin) as (row' & Hrow' & Hget).
        exists row'. split; [by right|]. by rewrite <- Hdb.
    + intros Hrest. apply IH in Hrest as (Hdb' & Hmax' & Hsub' & Hsize' & new & -> & Hnew).
      repeat split; [done|done|done|done|]. exists new. split; [done|].
      intros workflow Hin. destruct (Hnew _ Hin) as (row' & Hrow' & Hget).
      exists row'. split; [by right|done].
Qed.

(** X13.  One pass of the poller over the pending workflows never pushes
    the number of active workflows beyond the configured limit (or beyond
    what it was, if it was above already), drops no active workflow, writes
    nothing to the store, and schedules only workflows stored under the id of
    a pending row. *)
Theorem pending_pass_respects_limit e pending :
  let '(e', spawned) := _process_pending_workflows e pending in
  (Z.of_nat (size (active_workflows e'))
   ≤ Z.max (Z.of_nat (size (active_workflows e))) (max_concurrent_workflows e))%Z
  ∧ active_workflows e ⊆ active_workflows e'
  ∧ db e' = db e
  ∧ ∀ workflow, workflow ∈ spawned →
      ∃ row, row ∈ pending ∧ db e !! wf_id row = Some workflow.
Proof.
  unfold _process_pending_workflows.
  destruct (process_pending e pending []) as [e' spawned] eqn:Hpass.
  apply process_pending_engine in Hpass as (Hdb & _ & Hsub & Hsize & new & -> & Hnew).
  done.
Qed.

Lemma set_active_twice a b e : set_active a (set_active b e) = set_active a e.
Proof. done. Qed.

Lemma process_pending_free pending : ∀ e spawned,
  (∀ workflow, workflow ∈ pending → db e !! wf_id workflow = Some workflow) →
  NoDup (List.map wf_id pending) →
  (∀ workflow, workflow ∈ pending → wf_id workflow ∉ active_workflows e) →
  let free :=
    Z.to_nat (max_concurrent_workflows e - Z.of_nat (size (active_workflows e))) in
  process_pending e pending spawned
  = (set_active (list_to_set (List.map wf_id (take free pending)) ∪ active_workflows e) e,
     spawned ++ take free pending).
Proof.
  induction pending as [|row rest IH]; intros e spawned Hrows Hnd Hfresh free.
  - cbn. rewrite take_nil, app_nil_r. cbn. rewrite (left_id_L ∅ (∪)). by destruct e.
  - cbn [process_pending List.map] in *. apply NoDup_cons in Hnd as [Hrow Hnd].
    destruct (Z.ltb_spec (Z.of_nat (size (active_workflows e)))
                (max_concurrent_workflows e)) as [Hlt|Hge].
    + unfold execute_workflow. rewrite (Hrows row) by left.
      destruct (Z.leb_spec (max_concurrent_workflows e)
                  (Z.of_nat (size (active_workflows e)))); [lia|].
      rewrite IH; [| | |].
      * cbn [active_workflows set_active max_concurrent_workflows].
        assert (size ({[wf_id row]} ∪ active_workflows e)
                = S (size (active_workflows e))) as Hsize.
        { rewrite size_union, size_singleton; [done|].
          apply disjoint_singleton_l, Hfresh. left. }
        rewrite Hsize.
        assert (free = S (Z.to_nat (max_concurrent_workflows e
                                    - Z.of_nat (S (size (active_workflows e))))))
          as -> by (subst free; lia).
        cbn [take List.map list_to_set]. rewrite set_active_twice, <- app_assoc.
        f_equal. f_equal. set_solver.
      * intros workflow Hin. cbn. apply Hrows. by right.
      * done.
      * intros workflow Hin. cbn. apply not_elem_of_union. split.
        -- apply not_elem_of_singleton. intros Heq. apply Hrow. rewrite <- Heq.
           by apply list_elem_of_In, List.in_map, list_elem_of_In.
        -- apply Hfresh. by right.
    + assert (free = 0%nat) as Hfree by (subst free; lia).
      rewrite IH; [| |done|].
      * fold free. rewrite Hfree. cbn. done.
      * intros workflow Hin. apply Hrows. by right.
      * intros workflow Hin. apply Hfresh. by right.
Qed.

(** X14.  When the pending rows are distinct stored workflows none of which
    is active yet, one pass of the poller starts them in listing order until
    the limit is reached: exactly the first [max_concurrent_workflows -
    len(active_workflows)] of them are scheduled and registered as active,
    and the others are left for a later pass. *)
Theorem pending_pass_fills_free_slots e pending :
  (∀ workflow, workflow ∈ pending → db e !! wf_id workflow = Some workflow) →
  NoDup (List.map wf_id pending) →
  (∀ workflow, workflow ∈ pending → wf_id workflow ∉ active_workflows e) →
  let free :=
    Z.to_nat (max_concurrent_workflows e - Z.of_nat (size (active_workflows e))) in
  _process_pending_workflows e pending
  = (set_active (list_to_set (List.map wf_id (take free pending)) ∪ active_workflows e) e,
     take free pending).
Proof.
  intros Hrows Hnd Hfresh. unfold _process_pending_workflows.
  by rewrite process_pending_free.
Qed.

Lemma pending_pass_fills_free_slots_witness :
  NoDup (List.map wf_id [fetch_then_report; dangling_workflow])
  ∧ (_process_pending_workflows polled_engine [fetch_then_report; dangling_workflow]).2
    = [fetch_then_report].
Proof.
  assert (NoDup (List.map wf_id [fetch_then_report; dangling_workflow])) as Hnd.
  { cbn. repeat constructor; set_solver. }
  split; [exact Hnd|].
  rewrite (pending_pass_fills_free_slots polled_engine
             [fetch_then_report; dangling_workflow]).
  - reflexivity.
  - intros workflow Hin. apply elem_of_cons in Hin as [->|Hin];
      [|apply list_elem_of_singleton in Hin as ->]; vm_compute; reflexivity.
  - exact Hnd.
  - intros workflow Hin. cbn. set_solver.
Defined.

End EngineProps.

(* ===================================================================== *)
(** * Recovery attempts and the retry loop                               *)
(* ===================================================================== *)

Module RetryProps.
Import ErrorHandling RecoveryScenario ErrorHandlingProps.

(** ** One recovery attempt *)

Lemma update_workflows_twice f g workflow_id db :
  (∀ row, row_id (g row) = row_id row) →
  update_workflows f workflow_id (update_workflows g workflow_id db)
  = update_workflows (f ∘ g) workflow_id db.
Proof.
  intros Hg. unfold update_workflows, set_workflows. cbn. f_equal.
  rewrite List.map_map. apply List.map_ext. intros row.
  destruct (Z.eqb_spec (row_id row) workflow_id) as [Heq|Hne].
  - by rewrite Hg, (proj2 (Z.eqb_eq _ _) Heq).
  - by rewrite (proj2 (Z.eqb_neq _ _) Hne).
Qed.

Lemma update_workflows_ext f g workflow_id db :
  (∀ row, f row = g row) →
  update_workflows f workflow_id db = update_workflows g workflow_id db.
Proof.
  intros Hfg. unfold update_workflows. f_equal. apply List.map_ext.
  intros row. by rewrite Hfg.
Qed.

Lemma get_workflow_details_update f workflow_id db :
  (∀ row, row_id (f row) = row_id row) →
  _get_workflow_details (update_workflows f workflow_id db) workflow_id
  = f <$> _get_workflow_details db workflow_id.
Proof.
  intros Hf. unfold _get_workflow_details, update_workflows. cbn.
  induction (workflows db) as [|row rows IH]; cbn; [done|].
  destruct (Z.eqb_spec (row_id row) workflow_id) as [Heq|Hne].
  - rewrite Hf, (proj2 (Z.eqb_eq _ _) Heq). by destruct (row_is_mapping db).
  - by rewrite (proj2 (Z.eqb_neq _ _) Hne).
Qed.

Lemma attempt_recovery_cases db pattern :
  _attempt_recovery db pattern
  = match _get_workflow_details db (workflow_id pattern) with
    | None => (false, db)
    | Some _ =>
        match latest_checkpoint (workflow_checkpoints db) (workflow_id pattern) with
        | None => (false, update_workflows stuck (workflow_id pattern) db)
        | Some best =>
            if binds_columns db (cp_checkpoint_data best) then
              (true, update_workflows (recovered (cp_checkpoint_data best))
                       (workflow_id pattern) db)
            else (false, update_workflows stuck (workflow_id pattern) db)
        end
    end.
Proof.
  unfold _attempt_recovery.
  destruct (_get_workflow_details db (workflow_id pattern)) as [workflow|] eqn:Hget;
    [|done].
  apply get_workflow_details_Some in Hget as (_ & _ & Hid).
  unfold _recover_workflow_state, _restore_from_checkpoint.
  rewrite update_workflows_checkpoints, Hid.
  destruct (latest_checkpoint _ _) as [best|]; [|done].
  change (binds_columns (update_workflows ?f ?id db) ?data) with (binds_columns db data).
  destruct (binds_columns db (cp_checkpoint_data best)); [|done].
  rewrite !update_workflows_twice by done. done.
Qed.

(** X15.  A recovery attempt touches the workflow rows only.  It fails and
    changes nothing when [_get_workflow_details] finds no row, which is the
    case when the workflow has none and also whenever a result row is no
    mapping.  With a row but without a checkpoint it fails as well, but the
    row has by then been set to 'recovering' with its error message cleared,
    and it is left so; the same happens when the latest checkpoint holds an
    entry that cannot be bound, a dictionary for one.  With a row and a
    latest checkpoint that can be bound, as one of scalar entries can, it
    succeeds: the row is 'running', its error message cleared and its input,
    output and resource usage are those of the checkpoint (NULL for a key
    the checkpoint lacks). *)
Theorem recovery_attempt_effect db pattern :
  let id := workflow_id pattern in
  let update f :=
    List.map (fun row => if (row_id row =? id)%Z then f row else row) (workflows db) in
  let '(success, db') := _attempt_recovery db pattern in
  workflow_checkpoints db' = workflow_checkpoints db
  ∧ error_patterns db' = error_patterns db
  ∧ notifications db' = notifications db
  ∧ match _get_workflow_details db id,
          latest_checkpoint (workflow_checkpoints db) id with
    | None, _ => success = false ∧ workflows db' = workflows db
    | Some _, None => success = false ∧ workflows db' = update stuck
    | Some _, Some best =>
        if binds_columns db (cp_checkpoint_data best)
        then success = true ∧ workflows db' = update (recovered (cp_checkpoint_data best))
        else success = false ∧ workflows db' = update stuck
    end
  ∧ (is_Some (_get_workflow_details db id)
     ↔ row_is_mapping db = true ∧ has_workflow db id)
  ∧ (∀ data, scalar_columns data → binds_columns db data = true)
  ∧ (∀ data key d,
       key ∈ ["input_data"; "output_data"; "resource_usage"] →
       data !! key = Some (PyDict d) → binds_columns db data = false).
Proof.
  cbn zeta. rewrite attempt_recovery_cases.
  pose proof (get_workflow_details_is_Some db (workflow_id pattern)) as Hrow.
  pose proof (binds_columns_scalar db) as Hscalar.
  pose proof (binds_columns_dict db) as Hdict.
  destruct (_get_workflow_details db (workflow_id pattern)) as [workflow|]; [|done].
  destruct (latest_checkpoint _ _) as [best|]; [|done].
  destruct (binds_columns db (cp_checkpoint_data best)); done.
Qed.

Lemma recovery_attempt_effect_witness :
  (_attempt_recovery stale_db high_pattern).1 = true
  ∧ List.map row_status (workflows (_attempt_recovery stale_db high_pattern).2)
    = ["running"]
  ∧ _attempt_recovery tuple_rows_db high_pattern = (false, tuple_rows_db)
  ∧ (_attempt_recovery nested_db high_pattern).1 = false
  ∧ List.map row_status (workflows (_attempt_recovery nested_db high_pattern).2)
    = ["recovering"].
Proof.
  pose proof (recovery_attempt_effect stale_db high_pattern) as Hstale.
  pose proof (recovery_attempt_effect tuple_rows_db high_pattern) as Htuple.
  pose proof (recovery_attempt_effect nested_db high_pattern) as Hnested.
  cbn zeta in *.
  destruct (_attempt_recovery stale_db high_pattern) as [s1 db1].
  destruct (_attempt_recovery tuple_rows_db high_pattern) as [s2 db2] eqn:H2.
  destruct (_attempt_recovery nested_db high_pattern) as [s3 db3].
  destruct Hstale as (_ & _ & _ & Hstale & _).
  destruct Hnested as (_ & _ & _ & Hnested & _).
  vm_compute in Hstale. vm_compute in Hnested. cbn [fst snd].
  destruct Hstale as [-> Hrows1]. destruct Hnested as [-> Hrows3].
  split; [reflexivity|]. split; [exact (f_equal (List.map row_status) Hrows1)|].
  split; [vm_compute in H2; injection H2 as <- <-; reflexivity|].
  split; [reflexivity|exact (f_equal (List.map row_status) Hrows3)].
Defined.

Lemma recovered_twice data row : recovered data (recovered data row) = recovered data row.
Proof. done. Qed.

Lemma stuck_twice row : stuck (stuck row) = stuck row.
Proof. done. Qed.

Lemma attempt_recovery_again db pattern :
  _attempt_recovery (_attempt_recovery db pattern).2 pattern
  = _attempt_recovery db pattern.
Proof.
  rewrite (attempt_recovery_cases db pattern).
  destruct (_get_workflow_details db (workflow_id pattern)) as [workflow|] eqn:Hget.
  - destruct (latest_checkpoint (workflow_checkpoints db) (workflow_id pattern))
      as [best|] eqn:Hbest;
      [destruct (binds_columns db (cp_checkpoint_data best)) eqn:Hbinds|];
      cbn [snd]; rewrite attempt_recovery_cases;
      rewrite get_workflow_details_update, Hget, update_workflows_checkpoints, Hbest
        by done; cbn [fmap option_fmap option_map];
      change (binds_columns (update_workflows ?f ?id db) ?data)
        with (binds_columns db data);
      rewrite ?Hbinds, update_workflows_twice by done; done.
  - cbn [snd]. rewrite attempt_recovery_cases, Hget. done.
Qed.


(** ** The retry loop *)

Lemma retry_loop_failing remaining strategy pattern :
  ∀ attempt delay db sleeps,
    (_attempt_recovery db pattern).1 = false →
    retry_loop (S remaining) attempt delay strategy pattern db sleeps
    = (RetryFailed (max_retries strategy) (final_backoff (S remaining) delay strategy),
       (_attempt_recovery db pattern).2,
       sleeps ++ backoff_delays (S remaining) delay strategy).
Proof.
  induction remaining as [|remaining IH]; intros attempt delay db sleeps Hfail.
  - cbn [retry_loop backoff_delays final_backoff].
    destruct (_attempt_recovery db pattern) as [[] db1]; [done|]. done.
  - pose proof (attempt_recovery_again db pattern) as Hagain.
    remember (S remaining) as n eqn:Hn.
    cbn [retry_loop backoff_delays final_backoff].
    destruct (_attempt_recovery db pattern) as [[] db1] eqn:Hfirst; [done|].
    cbn [snd] in *. subst n. rewrite IH by by rewrite Hagain.
    rewrite Hagain. cbn [snd]. by rewrite <- app_assoc.
Qed.

Lemma retry_loop_succeeding remaining attempt delay strategy pattern db sleeps :
  (_attempt_recovery db pattern).1 = true →
  retry_loop (S remaining) attempt delay strategy pattern db sleeps
  = (RetrySuccess (attempt + 1) delay, (_attempt_recovery db pattern).2,
     sleeps ++ [delay]).
Proof.
  intros Hok. cbn [retry_loop].
  destruct (_attempt_recovery db pattern) as [[] db1]; done.
Qed.




Lemma py_min_le_r a b : (py_min a b <= b)%Q.
Proof.
  unfold py_min. destruct (Qle_bool a b) eqn:Hle.
  - by apply Qle_bool_iff.
  - apply Qle_refl.
Qed.

Lemma retry_loop_sleeps remaining strategy pattern :
  ∀ attempt delay db sleeps,
    ∃ new,
      (retry_loop remaining attempt delay strategy pattern db sleeps).2 = sleeps ++ new
      ∧ (length new ≤ remaining)%nat
      ∧ (∀ d, head new = Some d → d = delay)
      ∧ Forall (fun d => (d <= max_delay strategy)%Q) (tail new).
Proof.
  induction remaining as [|remaining IH]; intros attempt delay db sleeps.
  - exists []. cbn. rewrite app_nil_r. repeat split; [lia|done|constructor].
  - cbn [retry_loop]. destruct (_attempt_recovery db pattern) as [[] db1].
    + exists [delay]. cbn. repeat split; [lia|congruence|constructor].
    + destruct (IH (attempt + 1)%Z
                  (py_min (delay * backoff_factor strategy) (max_delay strategy))
                  db1 (sleeps ++ [delay])) as (new & -> & Hlen & Hhead & Htail).
      exists (delay :: new). rewrite <- app_assoc. cbn.
      repeat split; [lia|congruence|].
      destruct new as [|d new]; [constructor|]. cbn in Htail.
      constructor; [|done]. rewrite (Hhead d eq_refl). apply py_min_le_r.
Qed.

(** X18.  Whatever the strategy and the outcome, a retry sleeps at most
    [max_retries] times, first for [initial_delay] and then never longer
    than [max_delay]; the manual stage does not sleep at all. *)
Theorem retry_sleeps_are_capped db pattern strategy :
  let sleeps := (_execute_retry_strategy db pattern strategy).2 in
  (length sleeps ≤ Z.to_nat (max_retries strategy))%nat
  ∧ (∀ d, head sleeps = Some d → d = initial_delay strategy)
  ∧ Forall (fun d => (d <= max_delay strategy)%Q) (tail sleeps)
  ∧ (stage strategy ≠ "immediate" → stage strategy ≠ "delayed" → sleeps = []).
Proof.
  cbn zeta. unfold _execute_retry_strategy, _execute_immediate_retry,
    _execute_delayed_retry, _execute_manual_retry.
  pose proof (retry_loop_sleeps (Z.to_nat (max_retries strategy)) strategy pattern
                0%Z (initial_delay strategy) db []) as (new & Hnew & Hlen & Hhead & Htail).
  cbn [app] in Hnew.
  destruct (String.eqb_spec (stage strategy) "immediate") as [Hi|Hi];
    [rewrite Hnew; by repeat split|].
  destruct (String.eqb_spec (stage strategy) "delayed") as [Hd|Hd];
    [rewrite Hnew; by repeat split|].
  cbn. repeat split; [lia|done|constructor].
Qed.

(** ** [handle_error], end to end *)

(** The context of a pattern is a dictionary, so the [INSERT] of
    [_log_error_pattern] never goes through. *)
Lemma log_error_pattern_raises db pattern : _log_error_pattern db pattern = db.
Proof. reflexivity. Qed.

(** X19.  An error whose class is not named [ConnectionError], a
    [TimeoutError] for one, gets no recovery attempt at all: the answer is
    "manual intervention required", nothing sleeps, and the workflow rows,
    the checkpoints and the logged patterns are as before; the pattern of
    the error itself is not logged, since its context cannot be bound.  One
    notification is inserted when [_get_workflow_details] finds the row of
    the workflow, none otherwise; it finds none where a result row is no
    mapping. *)
Theorem other_errors_are_left_to_operators
    predict db error trace now workflow_id context :
  exc_type error ≠ "ConnectionError" →
  let '(pattern, strategy, (result, db', sleeps)) :=
    handle_error predict db error trace now workflow_id context in
  stage strategy = "manual"
  ∧ result = ManualInterventionRequired pattern
  ∧ sleeps = []
  ∧ workflows db' = workflows db
  ∧ workflow_checkpoints db' = workflow_checkpoints db
  ∧ error_patterns db' = error_patterns db
  ∧ notifications db'
    = notifications db
      ++ match _get_workflow_details db workflow_id with
         | Some workflow =>
             [mkNotification "manual_intervention_required" workflow_id
                (row_name workflow) (exc_type error) (_determine_severity error)]
         | None => []
         end
  ∧ (row_is_mapping db = false → db' = db).
Proof.
  intros Hclass.
  pose proof (handle_error_stage predict db error trace now workflow_id context)
    as Hstage.
  rewrite decide_False in Hstage by done.
  unfold handle_error in *. cbn [fst snd] in Hstage.
  unfold _execute_retry_strategy. rewrite Hstage. cbn [String.eqb Ascii.eqb Bool.eqb].
  unfold _execute_manual_retry, _send_notification. cbn [ErrorHandling.workflow_id].
  rewrite log_error_pattern_raises.
  destruct (_get_workflow_details db workflow_id) as [workflow|] eqn:Hget; cbn.
  - apply get_workflow_details_Some in Hget as (Hmap & _).
    repeat split; try done. intros Htuple. congruence.
  - rewrite app_nil_r. by repeat split.
Qed.

Lemma other_errors_are_left_to_operators_witness :
  stage (handle_error (fun _ => None) stale_db
           (mkException "TimeoutError" "timed out") "" 0 7 ∅).1.2 = "manual"
  ∧ (handle_error (fun _ => None) stale_db
       (mkException "TimeoutError" "timed out") "" 0 7 ∅).2.2 = []
  ∧ error_patterns (handle_error (fun _ => None) stale_db
                      (mkException "TimeoutError" "timed out") "" 0 7 ∅).2.1.2
    = [].
Proof.
  pose proof (other_errors_are_left_to_operators (fun _ => None) stale_db
                (mkException "TimeoutError" "timed out") "" 0 7 ∅) as H.
  destruct (handle_error _ _ _ _ _ _ _) as [[pattern strategy] [[result db'] sleeps]].
  destruct H as (Hstage & _ & Hsleeps & _ & _ & Hlog & _); [cbn; discriminate|].
  split; [exact Hstage|]. split; [exact Hsleeps|exact Hlog].
Defined.

(** X20.  A [ConnectionError] is retried on the delayed schedule.  When
    [_get_workflow_details] finds no row, which is the case without a row
    and wherever a result row is no mapping, or when the workflow has no
    checkpoint, or when its latest checkpoint holds an entry that cannot be
    bound, five attempts are made after sleeps of 5, 10, 20, 40 and 80
    seconds, all of them fail and the reported final delay is 160 seconds.
    When the row is found and the latest checkpoint can be bound, the first
    attempt, after 5 seconds, restores it.  Either way the pattern is not
    logged and no notification is sent. *)
Theorem connection_error_retry_schedule
    predict db error trace now workflow_id context :
  exc_type error = "ConnectionError" →
  let '(pattern, strategy, (result, db', sleeps)) :=
    handle_error predict db error trace now workflow_id context in
  let failing := result = RetryFailed 5 160 ∧ sleeps = [5; 10; 20; 40; 80]%Q in
  stage strategy = "delayed"
  ∧ error_patterns db' = error_patterns db
  ∧ notifications db' = notifications db
  ∧ (row_is_mapping db = false ∨ ¬ has_workflow db workflow_id
     ∨ ¬ has_checkpoint db workflow_id → failing)
  ∧ ∀ best,
      row_is_mapping db = true → has_workflow db workflow_id →
      latest_checkpoint (workflow_checkpoints db) workflow_id = Some best →
      if binds_columns db (cp_checkpoint_data best)
      then result = RetrySuccess 1 5 ∧ sleeps = [5]%Q
      else failing.
Proof.
  intros Hclass.
  pose proof (handle_error_stage predict db error trace now workflow_id context)
    as Hstage.
  rewrite decide_True in Hstage by done.
  unfold handle_error in *. cbn [fst snd] in Hstage.
  set (pattern := mkErrorPattern _ _ _ _ _ _ _ _ _) in *.
  set (strategy := _get_retry_strategy pattern _) in *.
  assert (max_retries strategy = 5%Z ∧ initial_delay strategy = 5%Q
          ∧ backoff_factor strategy = 2%Q ∧ max_delay strategy = 300%Q)
    as (Hmax & Hinit & Hfactor & Hcap).
  { subst strategy. unfold _get_retry_strategy. subst pattern. cbn [severity].
    rewrite determine_severity_cases, decide_True by done. done. }
  unfold _execute_retry_strategy. rewrite Hstage. cbn [String.eqb Ascii.eqb Bool.eqb].
  unfold _execute_delayed_retry. rewrite Hmax, Hinit, log_error_pattern_raises.
  change (Z.to_nat 5) with 5%nat.
  pose proof (attempt_recovery_cases db pattern) as Hcases.
  change (ErrorHandling.workflow_id pattern) with workflow_id in Hcases.
  pose proof (get_workflow_details_is_Some db workflow_id) as Hrow.
  assert (RetryFailed (max_retries strategy) (final_backoff 5 5 strategy)
          = RetryFailed 5 160
          ∧ backoff_delays 5 5 strategy = [5; 10; 20; 40; 80]%Q) as [Hfinal Hdelays].
  { cbn [backoff_delays final_backoff]. rewrite Hfactor, Hcap, Hmax.
    split; vm_compute; reflexivity. }
  assert (error_patterns (_attempt_recovery db pattern).2 = error_patterns db
          ∧ notifications (_attempt_recovery db pattern).2 = notifications db)
    as [Hpatterns Hnotes].
  { rewrite Hcases. destruct (_get_workflow_details _ _); [|done].
    destruct (latest_checkpoint _ _) as [best|]; [|done].
    by destruct (binds_columns db _). }
  destruct ((_attempt_recovery db pattern).1) eqn:Hfirst.
  - rewrite retry_loop_succeeding by done. cbn zeta.
    split; [done|]. split; [done|]. split; [done|].
    rewrite Hcases in Hfirst. split.
    + intros Hno. exfalso.
      destruct (_get_workflow_details db workflow_id) as [workflow|] eqn:Hget; [|done].
      destruct (proj1 Hrow (mk_is_Some _ _ eq_refl)) as [Hmap Hwf].
      destruct Hno as [Hno|[Hno|Hno]]; [congruence|done|].
      destruct (latest_checkpoint _ _) as [best|] eqn:Hbest; [|done].
      apply Hno. apply latest_checkpoint_Some in Hbest as (Hin & Hid & _).
      by exists best.
    + intros best Hmap Hwf Hbest. rewrite Hbest in Hfirst.
      destruct (_get_workflow_details db workflow_id); [|done].
      by destruct (binds_columns db (cp_checkpoint_data best)).
  - rewrite retry_loop_failing by done. cbn zeta. cbn [app].
    rewrite Hfinal, Hdelays.
    split; [done|]. split; [done|]. split; [done|]. split; [done|].
    intros best Hmap Hwf Hbest. rewrite Hcases, Hbest in Hfirst.
    destruct (proj2 Hrow (conj Hmap Hwf)) as [workflow Hget]. rewrite Hget in Hfirst.
    by destruct (binds_columns db (cp_checkpoint_data best)).
Qed.

Lemma connection_error_retry_schedule_witness :
  (handle_error (fun _ => None) stale_db
     (mkException "ConnectionError" "connection refused") "" 0 8 ∅).2.2
  = [5; 10; 20; 40; 80]%Q
  ∧ (handle_error (fun _ => None) tuple_rows_db
       (mkException "ConnectionError" "connection refused") "" 0 7 ∅).2.1.1
    = RetryFailed 5 160.
Proof.
  pose proof (connection_error_retry_schedule (fun _ => None) stale_db
                (mkException "ConnectionError" "connection refused") "" 0 8 ∅ eq_refl)
    as H.
  pose proof (connection_error_retry_schedule (fun _ => None) tuple_rows_db
                (mkException "ConnectionError" "connection refused") "" 0 7 ∅ eq_refl)
    as Htuple.
  destruct (handle_error _ stale_db _ _ _ _ _)
    as [[pattern strategy] [[result db'] sleeps]].
  destruct (handle_error _ tuple_rows_db _ _ _ _ _)
    as [[pattern2 strategy2] [[result2 db2] sleeps2]].
  cbn zeta in *.
  destruct H as (_ & _ & _ & Hfail & _).
  destruct Htuple as (_ & _ & _ & Htuple & _).
  split.
  - apply Hfail. right. left.
    intros (row & Hin & Hid). cbn in Hin.
    apply list_elem_of_singleton in Hin as ->. cbn in Hid. discriminate.
  - apply Htuple. by left.
Defined.

End RetryProps.

(* ===================================================================== *)
(** * The node list, the election and job recovery                       *)
(* ===================================================================== *)

Module ClusterProps.
Import Failover ClusterScenario FailoverProps.

(** ** The node list *)

Lemma put_node_ids current_node nodes :
  List.map entry_node_id (put_node current_node nodes)
  = if decide (entry_node_id current_node ∈ List.map entry_node_id nodes)
    then List.map entry_node_id nodes
    else List.map entry_node_id nodes ++ [entry_node_id current_node].
Proof.
  induction nodes as [|n nodes IH]; cbn.
  - rewrite decide_False; [done|]. apply not_elem_of_nil.
  - destruct (String.eqb_spec (entry_node_id n) (entry_node_id current_node)) as [Heq|Hne].
    + cbn. rewrite Heq, decide_True; [done|]. left.
    + cbn. rewrite IH.
      destruct (decide (entry_node_id current_node ∈ List.map entry_node_id nodes)).
      * rewrite decide_True; [done|]. by right.
      * rewrite decide_False; [done|]. intros Hin.
        apply elem_of_cons in Hin as [Heq|Hin]; [congruence|done].
Qed.

Lemma put_node_elem current_node nodes :
  current_node ∈ put_node current_node nodes
  ∧ ∀ n, n ∈ put_node current_node nodes →
         n = current_node ∨ n ∈ nodes.
Proof.
  induction nodes as [|n nodes [IH1 IH2]]; cbn.
  - split; [left|]. intros n Hn. left. by apply list_elem_of_singleton in Hn.
  - destruct (String.eqb (entry_node_id n) (entry_node_id current_node)).
    + split; [left|]. intros m Hm.
      apply elem_of_cons in Hm as [->|Hm]; [by left|right; by right].
    + split; [by right|]. intros m Hm.
      apply elem_of_cons in Hm as [->|Hm]; [right; left|].
      destruct (IH2 m Hm); [by left|right; by right].
Qed.

Lemma put_node_others current_node nodes n :
  n ∈ nodes → entry_node_id n ≠ entry_node_id current_node →
  n ∈ put_node current_node nodes.
Proof.
  induction nodes as [|m nodes IH]; cbn; intros Hin Hne.
  - by apply elem_of_nil in Hin.
  - destruct (String.eqb_spec (entry_node_id m) (entry_node_id current_node)) as [Heq|Hne'].
    + apply elem_of_cons in Hin as [->|Hin]; [done|by right].
    + apply elem_of_cons in Hin as [->|Hin]; [left|right; auto].
Qed.

Lemma put_node_twice current_node nodes :
  put_node current_node (put_node current_node nodes) = put_node current_node nodes.
Proof.
  induction nodes as [|n nodes IH]; cbn.
  - by rewrite String.eqb_refl.
  - destruct (String.eqb (entry_node_id n) (entry_node_id current_node)) eqn:Heq; cbn.
    + by rewrite String.eqb_refl.
    + by rewrite Heq, IH.
Qed.

(** X21.  [_update_node_status] keeps one entry per node: the ids of the
    list stay as they are when the node is listed already and gain the node
    at the end otherwise, so distinct ids stay distinct; the entries of the
    other nodes are kept; the entry written carries the role, the load and
    the capabilities but neither [priority] nor [status] nor [url]; and
    writing the same status again changes nothing. *)
Theorem update_node_status_keeps_one_entry this_node node_load capabilities role c :
  let c' := _update_node_status this_node node_load capabilities role c in
  let ids := List.map entry_node_id (active_nodes c) in
  node_role c' = Some role
  ∧ List.map entry_node_id (active_nodes c')
    = (if decide (this_node ∈ ids) then ids else ids ++ [this_node])
  ∧ (NoDup ids → NoDup (List.map entry_node_id (active_nodes c')))
  ∧ mkNodeEntry this_node (Some role) None None node_load (Some capabilities) None
    ∈ active_nodes c'
  ∧ (∀ n, n ∈ active_nodes c → entry_node_id n ≠ this_node → n ∈ active_nodes c')
  ∧ _update_node_status this_node node_load capabilities role c' = c'.
Proof.
  cbn zeta. unfold _update_node_status. cbn [active_nodes node_role].
  set (current_node := mkNodeEntry _ _ _ _ _ _ _).
  pose proof (put_node_ids current_node (active_nodes c)) as Hids.
  cbn [entry_node_id current_node] in Hids.
  split; [done|]. split; [exact Hids|]. split; [|split; [|split]].
  - intros Hnd. rewrite Hids. case_decide as Hin; [done|].
    apply NoDup_app. split; [done|]. split; [|apply NoDup_singleton].
    intros x Hx Hx'. apply list_elem_of_singleton in Hx' as ->. done.
  - apply put_node_elem.
  - intros n Hin Hne. by apply put_node_others.
  - by rewrite put_node_twice.
Qed.

(** ** Availability *)

Lemma available_None nodes :
  (∃ n, n ∈ nodes ∧ entry_status n = None) → available nodes = None.
Proof.
  induction nodes as [|m nodes IH]; intros (n & Hin & Hnone).
  - by apply elem_of_nil in Hin.
  - cbn. apply elem_of_cons in Hin as [<-|Hin].
    + by rewrite Hnone.
    + rewrite IH by eauto. by destruct (entry_status m).
Qed.

(** X22.  One element of the node list without a [status] key makes every
    node unavailable: [_get_available_nodes] answers the empty list and
    [_redistribute_job] answers [False] for every job, whatever the other
    nodes are.  The entries [_update_node_status] writes are such
    elements. *)
Theorem entry_without_status_blocks_redistribution post nodes job n :
  n ∈ nodes → entry_status n = None →
  _get_available_nodes nodes = []
  ∧ _redistribute_job post nodes job = false.
Proof.
  intros Hin Hnone.
  assert (_get_available_nodes nodes = []) as Hnil.
  { unfold _get_available_nodes. rewrite available_None by eauto. done. }
  split; [done|]. unfold _redistribute_job. by rewrite Hnil.
Qed.

Lemma entry_without_status_blocks_redistribution_witness :
  _get_available_nodes (active_nodes joined_cluster) = []
  ∧ _get_available_nodes workers = [worker_1; worker_2].
Proof.
  split; [|vm_compute; reflexivity].
  refine (proj1 (entry_without_status_blocks_redistribution post_ok
                   (active_nodes joined_cluster) job_a
                   (mkNodeEntry "node-4" (Some "standby") None None (1 # 10) (Some ∅) None)
                   _ eq_refl)).
  cbn. set_solver.
Defined.

(** ** The election in a cluster that only the manager writes *)

Lemma unranked_no_primary nodes current_node :
  unranked nodes →
  _should_become_primary (List.map election_view nodes) current_node = false.
Proof.
  unfold _should_become_primary. intros Hun.
  destruct nodes as [|n nodes]; [done|].
  inversion_clear Hun as [|? ? Hn _]. cbn. unfold sort_key. cbn. by rewrite Hn.
Qed.

Lemma put_node_unranked current_node nodes :
  entry_priority current_node = None → unranked nodes →
  unranked (put_node current_node nodes).
Proof.
  intros Hnone Hun. apply Forall_forall. intros n Hn.
  apply put_node_elem in Hn as [->|Hn]; [done|].
  unfold unranked in Hun. rewrite Forall_forall in Hun. auto.
Qed.

Lemma put_node_roles role current_node nodes :
  entry_role current_node = Some role →
  Forall (fun n => entry_role n = Some role) nodes →
  Forall (fun n => entry_role n = Some role) (put_node current_node nodes).
Proof.
  intros Hrole Hall. apply Forall_forall. intros n Hn.
  apply put_node_elem in Hn as [->|Hn]; [done|].
  rewrite Forall_forall in Hall. auto.
Qed.

Lemma failover_rounds_standby post rounds : ∀ store c,
  unranked (active_nodes c) →
  Forall (fun n => entry_role n = Some "standby") (active_nodes c) →
  let '(store', c') := failover_rounds post rounds store c in
  store' = store
  ∧ unranked (active_nodes c')
  ∧ Forall (fun n => entry_role n = Some "standby") (active_nodes c')
  ∧ Forall (fun n => entry_status n = None ∨ n ∈ active_nodes c) (active_nodes c')
  ∧ (rounds ≠ [] → node_role c' = Some "standby")
  ∧ ∀ r, r ∈ rounds → round_node r ∈ List.map entry_node_id (active_nodes c').
Proof.
  unfold failover_rounds.
  induction rounds as [|r rounds IH] using rev_ind; intros store c Hun Hroles.
  - cbn. repeat split; try done.
    + apply Forall_forall. auto.
    + intros r Hr. by apply elem_of_nil in Hr.
  - rewrite foldl_app. cbn [foldl].
    specialize (IH store c Hun Hroles).
    destruct (foldl _ (store, c) rounds) as [store1 c1].
    destruct IH as (-> & Hun1 & Hroles1 & Hstatus1 & _ & Hnodes1).
    cbn [fst snd]. unfold _initiate_failover.
    rewrite unranked_no_primary by done.
    unfold _update_node_status. cbn [active_nodes node_role].
    set (current_node := mkNodeEntry _ _ _ _ _ _ _).
    split; [done|]. split; [by apply put_node_unranked|].
    split; [by apply put_node_roles|]. split; [|split; [done|]].
    + apply Forall_forall. intros n Hn.
      apply put_node_elem in Hn as [->|Hn]; [by left|].
      rewrite Forall_forall in Hstatus1. auto.
    + intros r' Hr'. apply elem_of_app in Hr' as [Hr'|Hr'].
      * specialize (Hnodes1 r' Hr'). rewrite put_node_ids. case_decide; [done|].
        apply elem_of_app. by left.
      * apply list_elem_of_singleton in Hr' as ->.
        pose proof (proj1 (put_node_elem current_node (active_nodes c1))) as Hin.
        apply list_elem_of_In, (List.in_map entry_node_id), list_elem_of_In in Hin.
        exact Hin.
Qed.

(** X23.  Started from the state [_initialize_failover_state] writes, and
    with the manager as the only writer of the node list, no failover round
    of any node ever makes a node primary: every round ends with the node
    written as "standby", the role key says "standby", every node that ran a
    round is listed, no entry carries a [status], and the job tables are
    never touched, because no failed job is taken over. *)
Theorem no_node_becomes_primary post rounds store c :
  let '(store', c') :=
    failover_rounds post rounds store (_initialize_failover_state c) in
  store' = store
  ∧ Forall (fun n => entry_role n = Some "standby" ∧ entry_status n = None)
           (active_nodes c')
  ∧ (rounds ≠ [] → node_role c' = Some "standby")
  ∧ ∀ r, r ∈ rounds → round_node r ∈ List.map entry_node_id (active_nodes c').
Proof.
  pose proof (failover_rounds_standby post rounds store (_initialize_failover_state c))
    as H.
  destruct (failover_rounds post rounds store (_initialize_failover_state c))
    as [store' c'].
  destruct H as (-> & _ & Hroles & Hstatus & Hrole & Hnodes); [constructor..|].
  split; [done|]. split; [|done].
  apply Forall_forall. intros n Hn. rewrite Forall_forall in Hroles, Hstatus.
  split; [auto|]. destruct (Hstatus n Hn) as [?|Hin]; [done|].
  cbn in Hin. by apply elem_of_nil in Hin.
Qed.

(** ** The target of a redistribution *)

Lemma available_Some nodes kept :
  available nodes = Some kept →
  ∀ n, n ∈ kept ↔ n ∈ nodes ∧ entry_status n = Some "active"
                   ∧ (entry_load n < 8 # 10)%Q.
Proof.
  revert kept. induction nodes as [|m nodes IH]; intros kept; cbn.
  - intros [= <-] n. split; [intros H; by apply elem_of_nil in H|].
    intros [H _]. by apply elem_of_nil in H.
  - destruct (entry_status m) as [s|] eqn:Hs; [|done].
    destruct (available nodes) as [kept'|]; [|done].
    specialize (IH kept' eq_refl).
    assert (String.eqb s "active" && negb (Qle_bool (8 # 10) (entry_load m)) = true
            ↔ entry_status m = Some "active" ∧ (entry_load m < 8 # 10)%Q) as Hkeep.
    { rewrite Hs, andb_true_iff, String.eqb_eq, negb_true_iff.
      split; intros [H1 H2]; (split; [congruence|]).
      - apply Qnot_le_lt. intros Hle. apply Qle_bool_iff in Hle. congruence.
      - apply not_true_is_false. intros Hle. apply Qle_bool_iff in Hle.
        by apply Qlt_not_le in H2. }
    destruct (String.eqb s "active" && negb (Qle_bool (8 # 10) (entry_load m)));
      intros [= <-] n; rewrite ?elem_of_cons, IH.
    + split; [intros [->|H]; [split; [by left|by apply Hkeep]|]|].
      * destruct H as (? & ? & ?). split; [by right|done].
      * intros [[->|Hin] H]; [by left|right; done].
    + split; [intros (? & ? & ?); split; [by right|done]|].
      intros [[->|Hin] H]; [|done]. apply Hkeep in H. done.
Qed.

Lemma with_target_keys_elem job nodes keyed :
  with_target_keys job nodes = Some keyed →
  ∀ kx, kx ∈ keyed → kx.2 ∈ nodes ∧ kx.1.1 = entry_load kx.2.
Proof.
  revert keyed. induction nodes as [|n nodes IH]; intros keyed; cbn.
  - intros [= <-] kx H. by apply elem_of_nil in H.
  - unfold target_key at 1. destruct (entry_capabilities n) as [caps|]; [|done].
    destruct (with_target_keys job nodes) as [keyed'|]; [|done].
    intros [= <-] kx Hin. apply elem_of_cons in Hin as [->|Hin].
    + split; [left|done].
    + destruct (IH keyed' eq_refl kx Hin). split; [by right|done].
Qed.

Lemma with_target_keys_all job nodes keyed :
  with_target_keys job nodes = Some keyed →
  ∀ n, n ∈ nodes → ∃ kx, kx ∈ keyed ∧ kx.2 = n.
Proof.
  revert keyed. induction nodes as [|m nodes IH]; intros keyed; cbn.
  - intros _ n H. by apply elem_of_nil in H.
  - destruct (target_key job m) as [k|]; [|done].
    destruct (with_target_keys job nodes) as [keyed'|]; [|done].
    intros [= <-] n Hin. apply elem_of_cons in Hin as [->|Hin].
    + exists (k, m). split; [left|done].
    + destruct (IH keyed' eq_refl n Hin) as (kx & Hkx & Heq).
      exists kx. split; [by right|done].
Qed.

Lemma target_lt_true a b : target_lt a b = true → (a.1 <= b.1)%Q.
Proof.
  unfold target_lt. intros H. apply orb_true_iff in H as [H|H].
  - apply negb_true_iff in H. apply Qlt_le_weak, Qnot_le_lt.
    intros Hle. apply Qle_bool_iff in Hle. congruence.
  - apply andb_true_iff in H as [H _]. apply Qeq_bool_iff in H.
    rewrite H. apply Qle_refl.
Qed.

Lemma target_lt_false a b : target_lt a b = false → (b.1 <= a.1)%Q.
Proof.
  unfold target_lt. intros H. apply orb_false_iff in H as [H _].
  apply negb_false_iff in H. by apply Qle_bool_iff.
Qed.

Lemma insert_by_elem {A} (lt : A → A → bool) x y l :
  y ∈ insert_by lt x l ↔ y = x ∨ y ∈ l.
Proof.
  induction l as [|z l IH]; cbn.
  - rewrite list_elem_of_singleton. set_solver.
  - destruct (lt z x); rewrite !elem_of_cons; [rewrite IH|]; tauto.
Qed.

Lemma sorted_by_elem {A} (lt : A → A → bool) y l : y ∈ sorted_by lt l ↔ y ∈ l.
Proof.
  induction l as [|x l IH]; [done|].
  change (sorted_by lt (x :: l)) with (insert_by lt x (sorted_by lt l)).
  rewrite insert_by_elem, elem_of_cons, IH. done.
Qed.

Lemma sorted_by_head_least_loaded (l : list ((Q * Z) * NodeEntry)) first :
  head (sorted_by (fun a b => target_lt a.1 b.1) l) = Some first →
  first ∈ l ∧ ∀ y, y ∈ l → (first.1.1 <= y.1.1)%Q.
Proof.
  revert first. induction l as [|x l IH]; intros first; [done|].
  change (sorted_by ?lt (x :: l)) with (insert_by lt x (sorted_by lt l)).
  destruct (sorted_by _ l) as [|z sorted] eqn:Hsorted; cbn [insert_by head].
  - intros [= <-].
    assert (l = []) as ->.
    { destruct l as [|y l]; [done|].
      assert (y ∈ sorted_by (fun a b => target_lt a.1 b.1) (y :: l)) as Hin
        by (apply sorted_by_elem; left).
      rewrite Hsorted in Hin. by apply elem_of_nil in Hin. }
    split; [left|]. intros y Hy. apply list_elem_of_singleton in Hy as ->.
    apply Qle_refl.
  - destruct (IH z eq_refl) as [Hz Hmin].
    destruct (target_lt z.1 x.1) eqn:Hlt; cbn [head]; intros [= <-].
    + split; [by right|]. intros y Hy.
      apply elem_of_cons in Hy as [->|Hy]; [by apply target_lt_true|auto].
    + split; [left|]. intros y Hy.
      apply elem_of_cons in Hy as [->|Hy]; [apply Qle_refl|].
      eapply Qle_trans; [by apply target_lt_false|auto].
Qed.

(** X24.  The node a job is sent to is taken from the nodes whose status is
    "active" and whose load is below 0.8, and, when each of those has a
    [capabilities] key, it is one of least load among them.  What the
    capabilities say plays no part: the lookup by the integer workflow id
    never hits a key of a decoded JSON object. *)
Theorem target_is_least_loaded nodes job target :
  _select_target_node (_get_available_nodes nodes) job = Some target →
  target ∈ nodes
  ∧ entry_status target = Some "active"
  ∧ (entry_load target < 8 # 10)%Q
  ∧ ((∀ n, n ∈ _get_available_nodes nodes → is_Some (entry_capabilities n)) →
     ∀ n, n ∈ nodes → entry_status n = Some "active" → (entry_load n < 8 # 10)%Q →
          (entry_load target <= entry_load n)%Q).
Proof.
  unfold _get_available_nodes.
  destruct (available nodes) as [kept|] eqn:Hkept; cbn [default from_option id].
  2:{ unfold _select_target_node. cbn. done. }
  pose proof (available_Some nodes kept Hkept) as Hiff.
  unfold _select_target_node.
  destruct (with_target_keys job kept) as [keyed|] eqn:Hkeyed.
  - destruct (head (sorted_by (fun a b => target_lt a.1 b.1) keyed))
      as [first|] eqn:Hhead; [|by cbn].
    cbn. intros [= <-].
    apply sorted_by_head_least_loaded in Hhead as [Hin Hmin].
    destruct (with_target_keys_elem _ _ _ Hkeyed first Hin) as [Hkept' Hload].
    apply Hiff in Hkept' as (Hnodes & Hstatus & Hbelow).
    split; [done|]. split; [done|]. split; [done|].
    intros _ n Hn Hactive Hlow.
    assert (n ∈ kept) as Hnk by by apply Hiff.
    destruct (with_target_keys_all _ _ _ Hkeyed n Hnk) as (kx & Hkx & <-).
    destruct (with_target_keys_elem _ _ _ Hkeyed kx Hkx) as [_ Hloadx].
    rewrite <- Hload, <- Hloadx. by apply Hmin.
  - intros Hhead. destruct kept as [|first kept']; [done|]. cbn in Hhead.
    injection Hhead as ->.
    assert (target ∈ target :: kept') as Hin by left.
    apply Hiff in Hin as (Hnodes & Hstatus & Hbelow).
    split; [done|]. split; [done|]. split; [done|].
    intros Hcaps. exfalso.
    assert (∀ l, (∀ n, n ∈ l → is_Some (entry_capabilities n)) →
                 is_Some (with_target_keys job l)) as Hall.
    { clear. induction l as [|n l IH]; intros Hl; cbn; [eauto|].
      unfold target_key. destruct (Hl n) as [caps ->]; [left|].
      destruct IH as [keyed ->]; [|eauto]. intros m Hm. apply Hl. by right. }
    destruct (Hall _ Hcaps) as [keyed Hsome]. congruence.
Qed.

Lemma target_is_least_loaded_witness :
  _select_target_node (_get_available_nodes workers) job_a = Some worker_2
  ∧ entry_status worker_2 = Some "active".
Proof.
  assert (_select_target_node (_get_available_nodes workers) job_a = Some worker_2)
    as Htarget by (vm_compute; reflexivity).
  split; [exact Htarget|].
  exact (proj1 (proj2 (target_is_least_loaded workers job_a worker_2 Htarget))).
Defined.

(** ** Who is elected *)

Lemma py_sorted_nil l : py_sorted l = [] → l = [].
Proof.
  destruct l as [|y l]; [done|]. intros Hnil.
  assert (y ∈ py_sorted (y :: l)) as Hin by (apply py_sorted_elem; left).
  rewrite Hnil in Hin. by apply elem_of_nil in Hin.
Qed.

(** The head of the sorted list is the first element of the list that has
    a minimal key. *)
Lemma py_sorted_head_first l first rest :
  py_sorted l = first :: rest →
  ∃ i, l !! i = Some first
       ∧ (∀ j y, l !! j = Some y → (j < i)%nat → key_lt first.1 y.1 = true)
       ∧ (∀ y, y ∈ l → key_lt y.1 first.1 = false).
Proof.
  revert first rest. induction l as [|x l IH]; intros first rest; [done|].
  change (py_sorted (x :: l)) with (insert_keyed x (py_sorted l)).
  destruct (py_sorted l) as [|z sorted] eqn:Hsorted; cbn [insert_keyed].
  - intros [= <- <-]. apply py_sorted_nil in Hsorted as ->.
    exists 0%nat. split; [done|]. split; [intros; lia|].
    intros y Hy. apply list_elem_of_singleton in Hy as ->. apply key_lt_irrefl.
  - destruct (IH z sorted eq_refl) as (i & Hi & Hbefore & Hmin).
    destruct (key_lt z.1 x.1) eqn:Hlt; intros [= <- <-].
    + exists (S i). split; [done|]. split.
      * intros [|j] y Hj Hlt'; cbn in Hj.
        -- by injection Hj as <-.
        -- apply (Hbefore j); [done|lia].
      * intros y Hy. apply elem_of_cons in Hy as [->|Hy]; [by apply key_lt_asym|auto].
    + exists 0%nat. split; [done|]. split; [intros; lia|].
      intros y Hy. apply elem_of_cons in Hy as [->|Hy]; [apply key_lt_irrefl|].
      eapply key_lt_neg_trans; [apply Hmin, Hy|done].
Qed.

Lemma with_keys_lookup nodes keyed :
  with_keys nodes = Some keyed →
  ∀ j k x, keyed !! j = Some (k, x) ↔ nodes !! j = Some x ∧ sort_key x = Some k.
Proof.
  revert keyed. induction nodes as [|n nodes IH]; intros keyed; cbn.
  - intros [= <-] j k x. split; [done|]. by intros [? _].
  - destruct (sort_key n) as [kn|] eqn:Hkn; [|done].
    destruct (with_keys nodes) as [keyed'|]; [|done].
    intros [= <-] [|j] k x; cbn.
    + split; [intros [= <- <-]; done|]. intros [[= <-] Hk]. congruence.
    + apply IH. done.
Qed.

Lemma with_keys_is_Some nodes :
  (∀ x, x ∈ nodes → is_Some (priority x)) → is_Some (with_keys nodes).
Proof.
  induction nodes as [|n nodes IH]; intros Hall; cbn; [eauto|].
  unfold sort_key at 1. destruct (Hall n) as [p ->]; [left|].
  destruct IH as [keyed ->]; [|eauto]. intros x Hx. apply Hall. by right.
Qed.

Lemma with_keys_priorities nodes keyed :
  with_keys nodes = Some keyed → ∀ x, x ∈ nodes → is_Some (priority x).
Proof.
  revert keyed. induction nodes as [|n nodes IH]; intros keyed; cbn.
  - intros _ x Hx. by apply elem_of_nil in Hx.
  - unfold sort_key at 1. destruct (priority n) as [p|] eqn:Hp; [|done].
    destruct (with_keys nodes) as [keyed'|]; [|done].
    intros _ x Hx. apply elem_of_cons in Hx as [->|Hx]; [eauto|].
    by eapply IH.
Qed.

(** X25.  The election, in full.  A node is told to become primary exactly
    when every listed node has a priority and the first node of the list
    whose key [(priority, -load)] no other key is below carries its id:
    every node listed before that one has a key strictly above. *)
Theorem election_rule nodes current_node :
  _should_become_primary nodes current_node = true
  ↔ (∀ x, x ∈ nodes → is_Some (priority x))
    ∧ ∃ i first k,
        nodes !! i = Some first
        ∧ node_id first = node_id current_node
        ∧ sort_key first = Some k
        ∧ ∀ j x kx, nodes !! j = Some x → sort_key x = Some kx →
            key_lt kx k = false ∧ ((j < i)%nat → key_lt k kx = true).
Proof.
  unfold _should_become_primary. split.
  - destruct (with_keys nodes) as [keyed|] eqn:Hkeys; [|done].
    destruct (py_sorted keyed) as [|[k first] rest] eqn:Hsorted; [done|].
    intros Hid. apply String.eqb_eq in Hid.
    apply py_sorted_head_first in Hsorted as (i & Hi & Hbefore & Hmin).
    split; [by eapply with_keys_priorities|].
    exists i, first, k.
    apply (with_keys_lookup _ _ Hkeys) in Hi as [Hi Hk].
    split; [done|]. split; [done|]. split; [done|].
    intros j x kx Hj Hkx.
    assert (keyed !! j = Some (kx, x)) as Hkj by by apply (with_keys_lookup _ _ Hkeys).
    split.
    + apply (Hmin (kx, x)). by eapply list_elem_of_lookup_2.
    + intros Hlt. by apply (Hbefore j (kx, x)).
  - intros (Hall & i & first & k & Hi & Hid & Hk & Hrule).
    destruct (with_keys_is_Some nodes Hall) as [keyed Hkeys]. rewrite Hkeys.
    assert (keyed !! i = Some (k, first)) as Hki by by apply (with_keys_lookup _ _ Hkeys).
    destruct (py_sorted keyed) as [|[kh h] rest] eqn:Hsorted.
    { apply py_sorted_nil in Hsorted as ->. done. }
    apply py_sorted_head_first in Hsorted as (ih & Hih & Hbefore & Hmin).
    cbn [snd]. apply String.eqb_eq.
    pose proof Hih as Hnh. apply (with_keys_lookup _ _ Hkeys) in Hnh as [Hnh Hkh].
    destruct (Nat.lt_trichotomy ih i) as [Hlt|[Heq|Hgt]].
    + destruct (Hrule ih h kh Hnh Hkh) as [_ Hstrict]. specialize (Hstrict Hlt).
      assert (key_lt (k, first).1 (kh, h).1 = false) as Hno.
      { apply Hmin. by eapply list_elem_of_lookup_2. }
      cbn in Hno. congruence.
    + subst ih. rewrite Hki in Hih. by injection Hih as _ <-.
    + specialize (Hbefore i (k, first) Hki Hgt). cbn in Hbefore.
      destruct (Hrule ih h kh Hnh Hkh) as [Hno _]. congruence.
Qed.

(** ** Job recovery *)

Lemma with_status_twice s1 s2 row : with_status s2 (with_status s1 row) = with_status s2 row.
Proof. done. Qed.

(** What a call of [_recover_job] does to one row of the table. *)
Lemma update_job_rows f id store :
  job_states (update_job f id store)
  = List.map (fun row => if String.eqb (job_id (row_job row)) id then f row else row)
             (job_states store).
Proof. done. Qed.

Lemma update_job_twice f g id store :
  (∀ row, job_id (row_job (g row)) = job_id (row_job row)) →
  job_states (update_job f id (update_job g id store))
  = job_states (update_job (f ∘ g) id store).
Proof.
  intros Hg. rewrite !update_job_rows, List.map_map. apply List.map_ext. intros row.
  destruct (String.eqb (job_id (row_job row)) id) eqn:Heq.
  - by rewrite Hg, Heq.
  - by rewrite Heq.
Qed.

Lemma recover_job_rows redistribute store job :
  job_states (recover_job redistribute store job)
  = List.map (fun row => if String.eqb (job_id (row_job row)) (job_id job)
                         then settle redistribute job row else row)
             (job_states store).
Proof.
  unfold recover_job, settle, _recover_job.
  destruct (negb (_validate_checkpoint (checkpoint_data job))).
  - unfold _handle_permanent_failure, _update_job_state. cbn [job_states].
    rewrite update_job_twice by done. rewrite update_job_rows. done.
  - destruct (redistribute job).
    + unfold _increment_retry_count, _update_job_state.
      rewrite update_job_twice by done.
      rewrite (update_job_twice (with_one_more_retry ∘ with_status "running")) by done.
      rewrite update_job_rows. done.
    + unfold _update_job_state. rewrite update_job_twice by done.
      rewrite update_job_rows. done.
Qed.

Lemma recover_job_fold redistribute jobs : ∀ store,
  job_states (foldl (recover_job redistribute) store jobs)
  = List.map (fun row =>
                foldl (fun row job =>
                         if String.eqb (job_id (row_job row)) (job_id job)
                         then settle redistribute job row else row)
                      row jobs)
             (job_states store).
Proof.
  induction jobs as [|job jobs IH]; intros store; cbn [foldl].
  - by rewrite List.map_id.
  - rewrite IH, recover_job_rows, List.map_map. done.
Qed.

Lemma settle_job_id redistribute job row :
  job_id (row_job (settle redistribute job row)) = job_id (row_job row).
Proof.
  unfold settle. destruct (_recover_job job (redistribute job)) as [s []]; done.
Qed.

Lemma row_fold_other redistribute jobs : ∀ row,
  (∀ job, job ∈ jobs → job_id job ≠ job_id (row_job row)) →
  foldl (fun row job =>
           if String.eqb (job_id (row_job row)) (job_id job)
           then settle redistribute job row else row) row jobs
  = row.
Proof.
  induction jobs as [|job jobs IH]; intros row Hother; cbn [foldl]; [done|].
  destruct (String.eqb_spec (job_id (row_job row)) (job_id job)) as [Heq|Hne].
  - exfalso. apply (Hother job); [left|done].
  - apply IH. intros job' Hin. apply Hother. by right.
Qed.

Lemma row_fold_own redistribute jobs : ∀ row job,
  NoDup (List.map job_id jobs) → job ∈ jobs → job_id job = job_id (row_job row) →
  foldl (fun row job =>
           if String.eqb (job_id (row_job row)) (job_id job)
           then settle redistribute job row else row) row jobs
  = settle redistribute job row.
Proof.
  induction jobs as [|job' jobs IH]; intros row job Hnd Hin Hid; cbn [foldl].
  - by apply elem_of_nil in Hin.
  - cbn in Hnd. apply NoDup_cons in Hnd as [Hfresh Hnd].
    apply elem_of_cons in Hin as [<-|Hin].
    + rewrite Hid, String.eqb_refl. apply row_fold_other.
      intros other Hother Heq. apply Hfresh. rewrite settle_job_id in Heq.
      rewrite Hid, <- Heq. by apply list_elem_of_In, List.in_map, list_elem_of_In.
    + destruct (String.eqb_spec (job_id (row_job row)) (job_id job')) as [Heq|Hne].
      * exfalso. apply Hfresh. rewrite <- Heq, <- Hid.
        by apply list_elem_of_In, List.in_map, list_elem_of_In.
      * by apply IH.
Qed.

Lemma get_failed_jobs_elem store job :
  job ∈ _get_failed_jobs store
  ↔ ∃ row, row ∈ job_states store ∧ row_job row = job ∧ needs_recovery job = true.
Proof.
  unfold _get_failed_jobs. rewrite list_elem_of_In, List.in_map_iff. split.
  - intros (row & <- & Hin). apply list_elem_of_In, sorted_by_elem in Hin.
    apply list_elem_of_In, List.filter_In in Hin as [Hin Hsel].
    exists row. split; [by apply list_elem_of_In|done].
  - intros (row & Hin & <- & Hsel). exists row. split; [done|].
    apply list_elem_of_In, sorted_by_elem, list_elem_of_In, List.filter_In.
    split; [by apply list_elem_of_In|done].
Qed.

Lemma insert_by_NoDup {A B} `{EqDecision B} (f : A → B) (lt : A → A → bool) x l :
  f x ∉ List.map f l → NoDup (List.map f l) → NoDup (List.map f (insert_by lt x l)).
Proof.
  induction l as [|y l IH]; cbn; intros Hx Hnd.
  - apply NoDup_singleton.
  - apply NoDup_cons in Hnd as [Hy Hnd]. destruct (lt y x); cbn.
    + apply NoDup_cons. split.
      * intros Hin. apply list_elem_of_In, List.in_map_iff in Hin as (z & Hfz & Hz).
        apply list_elem_of_In, insert_by_elem in Hz as [->|Hz].
        -- apply Hx. rewrite Hfz. left.
        -- apply Hy. rewrite <- Hfz.
           by apply list_elem_of_In, List.in_map, list_elem_of_In.
      * apply IH; [|done]. intros Hin. apply Hx. by right.
    + apply NoDup_cons. split; [done|]. apply NoDup_cons. done.
Qed.

Lemma sorted_by_NoDup {A B} `{EqDecision B} (f : A → B) (lt : A → A → bool) l :
  NoDup (List.map f l) → NoDup (List.map f (sorted_by lt l)).
Proof.
  induction l as [|x l IH]; cbn; [done|]. intros Hnd.
  apply NoDup_cons in Hnd as [Hx Hnd]. apply insert_by_NoDup; [|auto].
  intros Hin. apply Hx.
  apply list_elem_of_In, List.in_map_iff in Hin as (z & Hfz & Hz).
  apply list_elem_of_In, sorted_by_elem in Hz. rewrite <- Hfz.
  by apply list_elem_of_In, List.in_map, list_elem_of_In.
Qed.

Lemma filter_NoDup {A B} (f : A → B) (p : A → bool) l :
  NoDup (List.map f l) → NoDup (List.map f (List.filter p l)).
Proof.
  induction l as [|x l IH]; cbn; [done|]. intros Hnd.
  apply NoDup_cons in Hnd as [Hx Hnd]. destruct (p x); cbn; [|auto].
  apply NoDup_cons. split; [|auto]. intros Hin. apply Hx.
  apply list_elem_of_In, List.in_map_iff in Hin as (z & Hfz & Hz).
  apply List.filter_In in Hz as [Hz _]. rewrite <- Hfz.
  by apply list_elem_of_In, List.in_map.
Qed.

Lemma get_failed_jobs_NoDup store :
  NoDup (List.map (fun row => job_id (row_job row)) (job_states store)) →
  NoDup (List.map job_id (_get_failed_jobs store)).
Proof.
  intros Hnd. unfold _get_failed_jobs. rewrite List.map_map.
  apply sorted_by_NoDup. by apply filter_NoDup.
Qed.

Lemma same_id_same_row (rows : list JobRow) r1 r2 :
  NoDup (List.map (fun row => job_id (row_job row)) rows) →
  r1 ∈ rows → r2 ∈ rows → job_id (row_job r1) = job_id (row_job r2) → r1 = r2.
Proof.
  induction rows as [|r rows IH]; cbn; intros Hnd H1 H2 Heq.
  - by apply elem_of_nil in H1.
  - apply NoDup_cons in Hnd as [Hfresh Hnd].
    apply elem_of_cons in H1 as [->|H1]; apply elem_of_cons in H2 as [->|H2]; auto.
    + exfalso. apply Hfresh. rewrite Heq.
      by apply list_elem_of_In, (List.in_map (fun row => job_id (row_job row))),
        list_elem_of_In.
    + exfalso. apply Hfresh. rewrite <- Heq.
      by apply list_elem_of_In, (List.in_map (fun row => job_id (row_job row))),
        list_elem_of_In.
Qed.

Lemma pass_is_take_over redistribute store :
  _recover_failed_jobs redistribute store = _take_over_failed_jobs redistribute store.
Proof.
  unfold _recover_failed_jobs, _take_over_failed_jobs.
  assert (Forall (fun job => needs_recovery job = true) (_get_failed_jobs store)) as Hall.
  { apply Forall_forall. intros job Hin.
    apply get_failed_jobs_elem in Hin as (_ & _ & _ & Hsel). done. }
  revert Hall. generalize (_get_failed_jobs store) as jobs. intros jobs. revert store.
  induction jobs as [|job jobs IH]; intros store Hall; cbn [foldl]; [done|].
  inversion_clear Hall as [|? ? Hjob Hjobs].
  unfold needs_recovery in Hjob. apply andb_prop in Hjob as [_ ->]. by apply IH.
Qed.

(** X26.  One pass of the recovery loop over a table with distinct job ids.
    Only the rows that are 'failed' with retries left are touched, and each
    of them ends 'permanently_failed' when its checkpoint lacks a required
    key, 'running' with one more retry counted when redistribution succeeds,
    and 'failed' with its count unchanged when it does not: a failed
    redistribution uses no retry up.  A job whose retries are used up is not
    selected, so the branch of the loop for such jobs never runs and the pass
    is the same as a take-over. *)
Theorem recovery_pass_effect redistribute store :
  NoDup (List.map (fun row => job_id (row_job row)) (job_states store)) →
  _recover_failed_jobs redistribute store = _take_over_failed_jobs redistribute store
  ∧ job_states (_recover_failed_jobs redistribute store)
    = List.map (fun row =>
                  let job := row_job row in
                  if needs_recovery job then
                    match _recover_job job (redistribute job) with
                    | (new_status, true) => with_one_more_retry (with_status new_status row)
                    | (new_status, false) => with_status new_status row
                    end
                  else row)
               (job_states store).
Proof.
  intros Hnd. split; [apply pass_is_take_over|].
  rewrite pass_is_take_over. unfold _take_over_failed_jobs.
  rewrite recover_job_fold. apply List.map_ext_in. intros row Hin.
  apply list_elem_of_In in Hin. cbn zeta.
  destruct (needs_recovery (row_job row)) eqn:Hsel.
  - rewrite (row_fold_own redistribute _ row (row_job row)).
    + unfold settle. by destruct (_recover_job _ _) as [s []].
    + by apply get_failed_jobs_NoDup.
    + apply get_failed_jobs_elem. eauto.
    + done.
  - apply row_fold_other. intros job Hjob Heq.
    apply get_failed_jobs_elem in Hjob as (row' & Hin' & <- & Hsel').
    assert (row' = row) as -> by by eapply same_id_same_row.
    congruence.
Qed.

(** [_redistribute_job] itself never succeeds: the request to the target
    node is never made. *)
Lemma redistribute_job_never_succeeds post nodes job :
  _redistribute_job post nodes job = false.
Proof.
  unfold _redistribute_job. destruct (_get_available_nodes nodes); [done|].
  destruct (_select_target_node _ _) as [target_node|]; [|done].
  unfold _send_job_to_node. by destruct (entry_url target_node).
Qed.

Lemma recovery_pass_effect_witness :
  NoDup (List.map (fun row => job_id (row_job row)) (job_states job_table))
  ∧ List.map (fun row => (status (row_job row), retry_count (row_job row)))
      (job_states (_recover_failed_jobs (_redistribute_job post_ok workers) job_table))
    = [("failed", 0%Z); ("permanently_failed", 1%Z); ("failed", 3%Z)].
Proof.
  assert (NoDup (List.map (fun row => job_id (row_job row)) (job_states job_table)))
    as Hnd.
  { cbn. repeat constructor; set_solver. }
  split; [exact Hnd|].
  rewrite (proj2 (recovery_pass_effect (_redistribute_job post_ok workers) job_table Hnd)).
  vm_compute. reflexivity.
Defined.

End ClusterProps.

(* ===================================================================== *)
(** * From the intake queue to the table, and the clean-up                *)
(* ===================================================================== *)

Module PipelineProps.
Import Analytics IntakeScenario.

(** ** Preprocessing *)

(** X27.  A preprocessed event always carries the payload as submitted
    under "raw_data", the time of preprocessing and the data type: none of
    the derived entries overwrites them.  Any data type is accepted; one of
    the three known types adds four derived entries, any other type adds
    none. *)
Theorem preprocessed_event_keeps_payload processed_at data data_type processed :
  _preprocess_data processed_at data data_type = inr processed →
  processed !! "raw_data" = Some data
  ∧ processed !! "processed_at" = Some (PyStr processed_at)
  ∧ processed !! "data_type" = Some (PyStr data_type)
  ∧ size processed
    = (if bool_decide (data_type ∈ ["workflow_execution"; "system_metrics";
                                    "user_activity"])
       then 7%nat else 3%nat).
Proof.
  unfold _preprocess_data. destruct data as [| | | |d]; try done.
  destruct (String.eqb_spec data_type "workflow_execution") as [->|Hw].
  { unfold _process_workflow_data. destruct (py_len _) as [n|]; [|done].
    intros [= <-]. vm_compute. done. }
  destruct (String.eqb_spec data_type "system_metrics") as [->|Hs].
  { intros [= <-]. vm_compute. done. }
  destruct (String.eqb_spec data_type "user_activity") as [->|Hu].
  { intros [= <-]. vm_compute. done. }
  intros [= <-]. rewrite bool_decide_eq_false_2 by set_solver.
  vm_compute. done.
Qed.

Lemma preprocessed_event_keeps_payload_witness :
  ∃ processed,
    _preprocess_data "2024-01-01T00:00:00" cpu_sample "system_metrics" = inr processed
    ∧ processed !! "raw_data" = Some cpu_sample
    ∧ size processed = 7%nat.
Proof.
  destruct (_preprocess_data "2024-01-01T00:00:00" cpu_sample "system_metrics")
    as [exn|processed] eqn:Hpre; [vm_compute in Hpre; discriminate|].
  exists processed. split; [reflexivity|].
  destruct (preprocessed_event_keeps_payload _ _ _ _ Hpre) as (Hraw & _ & _ & Hsize).
  split; [exact Hraw|exact Hsize].
Defined.

(** ** Draining the queue *)

(** A batch that is not empty never becomes a list of schema instances: the
    first constructor call raises. *)
Lemma analytics_items_raises item batch : analytics_items (item :: batch) = None.
Proof. reflexivity. Qed.

Lemma process_queue_rows bulk_create e rows :
  (_process_queue bulk_create e rows).2 = rows.
Proof.
  unfold _process_queue. destruct (take _ _) as [|item batch]; [done|].
  by rewrite analytics_items_raises.
Qed.

Lemma process_queue_queue bulk_create e rows :
  let taken :=
    if (processing_interval e <=? 0)%Z then 0%nat else Z.to_nat (batch_size e) in
  items (processing_queue (_process_queue bulk_create e rows).1)
  = drop taken (items (processing_queue e))
  ∧ batch_size (_process_queue bulk_create e rows).1 = batch_size e
  ∧ processing_interval (_process_queue bulk_create e rows).1 = processing_interval e.
Proof.
  unfold _process_queue. destruct (take _ _) as [|item batch]; [done|].
  by rewrite analytics_items_raises.
Qed.

Lemma process_queue_rounds_rows bulk_create n :
  ∀ e rows, (process_queue_rounds n bulk_create e rows).2 = rows.
Proof.
  induction n as [|n IH]; intros e rows; [done|].
  cbn [process_queue_rounds].
  pose proof (process_queue_rows bulk_create e rows) as Hrows.
  destruct (_process_queue bulk_create e rows) as [e' rows']. cbn [snd] in *.
  by rewrite IH.
Qed.

Lemma process_queue_rounds_queue bulk_create n :
  ∀ e rows,
    let taken :=
      if (processing_interval e <=? 0)%Z then 0%nat else Z.to_nat (batch_size e) in
    items (processing_queue (process_queue_rounds n bulk_create e rows).1)
    = drop (n * taken) (items (processing_queue e)).
Proof.
  induction n as [|n IH]; intros e rows; cbn zeta.
  - cbn. by rewrite drop_0.
  - cbn [process_queue_rounds].
    pose proof (process_queue_queue bulk_create e rows) as (Hq & Hb & Hi).
    destruct (_process_queue bulk_create e rows) as [e' rows']. cbn [fst] in *.
    by rewrite IH, Hq, Hb, Hi, drop_drop.
Qed.

(** X28.  No queued event ever reaches the table.  The queue loop builds
    its [AnalyticsCreate] objects without the [workflow_id] the schema
    requires, so every batch it has taken off the queue is lost to a
    validation error and the table stays as it was, whatever the store would
    do.  With a positive processing interval and no producer at work, each
    iteration takes [batch_size] items off the head of the queue, and with a
    positive batch size as many iterations as there are queued items empty
    it.  With an interval of zero or less nothing is ever taken: the queue
    stays as it is. *)
Theorem queued_events_never_reach_the_table bulk_create n e rows :
  let '(e', rows') := process_queue_rounds n bulk_create e rows in
  let queue := items (processing_queue e) in
  let queue' := items (processing_queue e') in
  rows' = rows
  ∧ ((processing_interval e <= 0)%Z → queue' = queue)
  ∧ ((0 < processing_interval e)%Z →
     queue' = drop (n * Z.to_nat (batch_size e)) queue
     ∧ ((0 < batch_size e)%Z → (length queue ≤ n)%nat → queue' = [])).
Proof.
  pose proof (process_queue_rounds_rows bulk_create n e rows) as Hrows.
  pose proof (process_queue_rounds_queue bulk_create n e rows) as Hqueue.
  destruct (process_queue_rounds n bulk_create e rows) as [e' rows'].
  cbn [fst snd] in *. cbn zeta in *. split; [done|]. split.
  - intros Hinterval. rewrite Hqueue.
    rewrite (proj2 (Z.leb_le _ _) Hinterval), Nat.mul_0_r. apply drop_0.
  - intros Hinterval. rewrite Hqueue.
    rewrite (proj2 (Z.leb_gt _ _) Hinterval). split; [done|].
    intros Hbatch Hlen. apply drop_ge. nia.
Qed.

Lemma queued_events_never_reach_the_table_witness :
  (process_queue_rounds 3 store_all small_batches []).2 = []
  ∧ items (processing_queue (process_queue_rounds 3 store_all small_batches []).1) = []
  ∧ items (processing_queue (process_queue_rounds 3 store_all impatient []).1)
    = [ping 1; ping 2; ping 3].
Proof.
  pose proof (queued_events_never_reach_the_table store_all 3 small_batches []) as Hsmall.
  pose proof (queued_events_never_reach_the_table store_all 3 impatient []) as Hzero.
  destruct (process_queue_rounds 3 store_all small_batches []) as [e1 rows1].
  destruct (process_queue_rounds 3 store_all impatient []) as [e2 rows2].
  cbn zeta in *. cbn [fst snd].
  destruct Hsmall as (Hrows & _ & Hdrained). destruct Hzero as (_ & Hkept & _).
  split; [exact Hrows|]. split.
  - apply Hdrained; [reflexivity|reflexivity|cbn; lia].
  - apply Hkept. vm_compute. discriminate.
Defined.

(** ** The daily clean-up *)

Lemma passes_unknown_keyword field value row :
  field ∉ model_attributes → passes [(field, value)] row = true.
Proof. intros Hno. unfold passes. cbn. by rewrite bool_decide_eq_false_2. Qed.

Lemma filter_all {A} (f : A → bool) (l : list A) :
  (∀ x, f x = true) → List.filter f l = l.
Proof.
  intros Hall. induction l as [|x l IH]; cbn; [done|]. by rewrite Hall, IH.
Qed.

Lemma bulk_delete_prefix n : ∀ rows,
  NoDup (List.map analytics_id rows) →
  bulk_delete rows (List.map analytics_id (take n rows)) = drop n rows.
Proof.
  unfold bulk_delete. induction n as [|n IH]; intros rows Hnd.
  - cbn. apply filter_all. intros row.
    rewrite bool_decide_eq_false_2; [done|]. apply not_elem_of_nil.
  - destruct rows as [|row rows]; [done|]. cbn [take drop List.map List.filter].
    cbn in Hnd. apply NoDup_cons in Hnd as [Hfresh Hnd].
    rewrite bool_decide_eq_true_2 by left. cbn [negb].
    rewrite <- (IH rows Hnd). apply List.filter_ext_in. intros other Hin.
    f_equal. apply bool_decide_ext. rewrite elem_of_cons. split; [|auto].
    intros [Heq|Hin']; [|done]. exfalso. apply Hfresh. rewrite <- Heq.
    by apply list_elem_of_In, List.in_map.
Qed.

(** X29.  The clean-up does not look at the age of a row.  Its filter
    keyword, [timestamp_lt], is no attribute of the model and so [get_multi]
    skips it and answers the first hundred rows of the table: with distinct
    ids, one clean-up deletes exactly those, however recent they are, and
    keeps every row after them, however old.  The retention period matters
    in one way only: when it is so long, or so far below zero, that the
    cut-off is no date that [datetime] can hold, the date arithmetic raises
    and nothing is deleted. *)
Theorem cleanup_deletes_the_first_hundred e now rows :
  NoDup (List.map analytics_id rows) →
  let days := data_retention_days e in
  let cutoff := (now - days * 86400)%Z in
  _cleanup_old_data e now rows
  = if decide (Z.abs days ≤ 999999999 ∧ datetime_min ≤ cutoff ≤ datetime_max)%Z
    then drop 100 rows else rows.
Proof.
  intros Hnd. cbn zeta. unfold _cleanup_old_data, timedelta, datetime_sub.
  destruct (Z.leb_spec (Z.abs (data_retention_days e)) 999999999) as [Hdays|Hdays];
    [|by rewrite decide_False by lia].
  cbn zeta.
  destruct (Z.leb_spec datetime_min (now - data_retention_days e * 86400)) as [Hmin|Hmin];
    [|by rewrite decide_False by lia].
  destruct (Z.leb_spec (now - data_retention_days e * 86400) datetime_max) as [Hmax|Hmax];
    [|by rewrite decide_False by lia].
  rewrite decide_True by lia. cbn [andb]. unfold get_multi. cbn [drop].
  rewrite filter_all.
  2:{ intros row. apply passes_unknown_keyword. unfold model_attributes.
      intros Hin. repeat (apply elem_of_cons in Hin as [Hin|Hin]; [done|]).
      by apply elem_of_nil in Hin. }
  rewrite drop_0.
  destruct (take 100 rows) as [|row batch] eqn:Htake.
  - destruct rows as [|row rows']; [done|]. done.
  - rewrite <- Htake. by apply bulk_delete_prefix.
Qed.

Lemma cleanup_deletes_the_first_hundred_witness :
  NoDup (List.map analytics_id fresh_rows)
  ∧ _cleanup_old_data (__init__ ∅) 1000000 fresh_rows = []
  ∧ _cleanup_old_data (__init__ {[ "data_retention_days" := 800000%Z ]}) 1000000
      fresh_rows
    = fresh_rows.
Proof.
  assert (NoDup (List.map analytics_id fresh_rows)) as Hnd.
  { cbn. repeat constructor; set_solver. }
  split; [exact Hnd|].
  rewrite (cleanup_deletes_the_first_hundred (__init__ ∅) 1000000 fresh_rows Hnd).
  rewrite (cleanup_deletes_the_first_hundred
             (__init__ {[ "data_retention_days" := 800000%Z ]}) 1000000 fresh_rows Hnd).
  split; reflexivity.
Defined.

End PipelineProps.
